(** * Pokemon REST API: validation, pagination, search and update

    A shallow embedding of the Express application of [src/connect.js] (the
    third of the files gathered there: the routes on [/pokemons]) and of the
    parts of its libraries that the routes call:

    - validator.js: [trim], [isInt], [isLength], and the guard of [isURL];
    - express-validator: field selection with wildcards, [optional],
      sanitizers that write back into the request, standard and custom
      validators, [withMessage], the list of errors;
    - JavaScript: [parseInt], [String], truthiness, [new RegExp] on the
      patterns described at [RegExp];
    - mongoose: a collection is the list of its documents in natural order;
      [find], [countDocuments], [findOne], [findOneAndUpdate],
      [findOneAndDelete] and [save] act on that list.

    Conventions.  A [string] holds the UTF-16 code units of a JavaScript
    string, one per character, each below 256: the texts of this file are
    those of the Latin-1 characters, on which the length of a string is the
    number of its characters, [\s] holds the six ASCII white spaces and the
    no-break space (160), and the [i] flag pairs the letters A-Z and the
    letters 192-222 (but 215) with the ones 32 above.  A number is an
    integer ([Z]); a double holds every integer up to [2^53] in absolute
    value, and [JS.round] gives the double that [parseInt] and the
    arithmetic of the list route make of a larger one.  Where a number of
    a body is printed ([String(n)]) or cast by mongoose, it is taken to be
    at most [2^53] in absolute value ([Json.safe], [JS.safe]), and the
    statements that depend on it say so.  [None] stands for [undefined]
    where a JSON value is expected and for NaN where [parseInt] answers.  [req.body] is the parsed JSON body, the empty
    object when the request has none.  The store is taken to answer: a
    handler fails only on a pattern that does not compile and on a verdict
    of the schema.  What the repository does not hold (the schema, the rest
    of [isURL], the full pattern language) is an [environment], over which
    every statement is quantified.

    A route is a function from a request and a collection to a response,
    the collection afterwards and the store operations issued.

    [Rules] reads the validation rules a second time, as the specification
    words them, for the statement that compares them with what the chains
    of the routes record.

    Besides the routes, the file holds the CORS policy of the application
    ([allowedOrigins] and the [origin] callback) and [importData], the
    import script of the second file gathered in [src/connect.js]. *)

From Stdlib Require Import ZArith List String Ascii Bool Lia.
From Stdlib Require Import DecimalString DecimalPos.
Import ListNotations.

Set Warnings "-register-all".

Local Open Scope string_scope.
Local Open Scope Z_scope.
Local Open Scope list_scope.

(** ** Characters and strings *)

Module Str.

Definition code (c : ascii) : Z := Z.of_N (N_of_ascii c).

(** The characters of [\s] below 256: tab, line feed, vertical tab, form
    feed, carriage return, space and the no-break space.  They are also
    the white space and line terminators that [String.prototype.trim] and
    [parseInt] drop. *)
Definition is_space (c : ascii) : bool :=
  let n := code c in
  ((9 <=? n) && (n <=? 13)) || (n =? 32) || (n =? 160).

Definition is_digit (c : ascii) : bool :=
  let n := code c in (48 <=? n) && (n <=? 57).

Definition is_upper (c : ascii) : bool :=
  let n := code c in (65 <=? n) && (n <=? 90).

Definition is_lower (c : ascii) : bool :=
  let n := code c in (97 <=? n) && (n <=? 122).

Definition is_alnum (c : ascii) : bool :=
  is_digit c || is_upper c || is_lower c.

Definition digit_value (c : ascii) : Z := code c - 48.

(** The capital letters below 256: A-Z, and 192-222 without the
    multiplication sign (215). *)
Definition is_capital (c : ascii) : bool :=
  let n := code c in
  is_upper c || ((192 <=? n) && (n <=? 222) && negb (n =? 215)).

(** [String.prototype.toLowerCase] on one character. *)
Definition lower (c : ascii) : ascii :=
  if is_capital c then ascii_of_N (N_of_ascii c + 32) else c.

(** Equality of two characters under the [i] flag.  The flag compares the
    capitals of the two characters; below 256 two characters have the same
    capital exactly when they have the same small letter (the capitals of
    181, 223 and 255 are no character below 256 or no single one, and these
    three match themselves only). *)
Definition eq_ci (c d : ascii) : bool := Ascii.eqb (lower c) (lower d).

Definition len (s : string) : Z := Z.of_nat (String.length s).

Definition is_empty (s : string) : bool :=
  match s with EmptyString => true | String _ _ => false end.

Fixpoint starts_with (p s : string) : bool :=
  match p, s with
  | EmptyString, _ => true
  | String a p', String b s' => Ascii.eqb a b && starts_with p' s'
  | String _ _, EmptyString => false
  end.

Fixpoint drop (n : nat) (s : string) : string :=
  match n, s with
  | O, _ => s
  | S _, EmptyString => EmptyString
  | S n', String _ s' => drop n' s'
  end.

Fixpoint exists_char (f : ascii -> bool) (s : string) : bool :=
  match s with
  | EmptyString => false
  | String c s' => f c || exists_char f s'
  end.

Fixpoint forall_char (f : ascii -> bool) (s : string) : bool :=
  match s with
  | EmptyString => true
  | String c s' => f c && forall_char f s'
  end.

End Str.

(** ** validator.js *)

Module Validator.

(** [ltrim(str)]: [str.replace(/^\s+/g, '')]. *)
Fixpoint ltrim (s : string) : string :=
  match s with
  | EmptyString => EmptyString
  | String c s' => if Str.is_space c then ltrim s' else s
  end.

(** [rtrim(str)]: walks back from the last character while it is a
    white space and keeps the prefix before. *)
Fixpoint rtrim (s : string) : string :=
  match s with
  | EmptyString => EmptyString
  | String c s' =>
      match rtrim s' with
      | EmptyString => if Str.is_space c then EmptyString else String c EmptyString
      | r => String c r
      end
  end.

(** [trim(str)] is [rtrim(ltrim(str))]. *)
Definition trim (s : string) : string := rtrim (ltrim s).

(** [isLength(str, {min, max})]; an absent bound is [None]. *)
Definition isLength (omin omax : option Z) (s : string) : bool :=
  let n := Str.len s in
  match omin with Some m => m <=? n | None => 0 <=? n end
  && match omax with Some m => n <=? m | None => true end.

(** The value of a run of decimal digits, most significant first. *)
Fixpoint digits_value (acc : Z) (s : string) : Z :=
  match s with
  | EmptyString => acc
  | String c s' => digits_value (10 * acc + Str.digit_value c) s'
  end.

(** The value of a non-empty run of decimal digits. *)
Definition unsigned_literal (d : string) : option Z :=
  if negb (Str.is_empty d) && Str.forall_char Str.is_digit d
  then Some (digits_value 0 d) else None.

(** The integer literals of [/^[-+]?[0-9]+$/] and their value. *)
Definition int_literal (s : string) : option Z :=
  match s with
  | EmptyString => None
  | String c d =>
      if Ascii.eqb c "+" then unsigned_literal d
      else if Ascii.eqb c "-" then option_map Z.opp (unsigned_literal d)
      else unsigned_literal s
  end.

(** [isInt(str, {min, max})]: the literal test, then the bounds that
    are given, compared on the number the string denotes. *)
Definition isInt (omin omax : option Z) (s : string) : bool :=
  match int_literal s with
  | None => false
  | Some v =>
      match omin with Some m => m <=? v | None => true end
      && match omax with Some m => v <=? m | None => true end
  end.

End Validator.

(** ** JavaScript primitives *)

Module JS.

Definition hex_value (c : ascii) : option Z :=
  let n := Str.code c in
  if Str.is_digit c then Some (n - 48)
  else if (65 <=? n) && (n <=? 70) then Some (n - 55)
  else if (97 <=? n) && (n <=? 102) then Some (n - 87)
  else None.

Definition dec_value (c : ascii) : option Z :=
  if Str.is_digit c then Some (Str.digit_value c) else None.

(** The longest prefix of digits of the radix, folded into a number;
    [None] when the prefix is empty. *)
Fixpoint digits_prefix (radix : Z) (value : ascii -> option Z)
         (acc : option Z) (s : string) : option Z :=
  match s with
  | EmptyString => acc
  | String c s' =>
      match value c with
      | None => acc
      | Some d =>
          digits_prefix radix value
            (Some (radix * match acc with Some a => a | None => 0 end + d)) s'
      end
  end.

Definition sign_and_rest (t : string) : Z * string :=
  match t with
  | EmptyString => (1, t)
  | String c r =>
      if Ascii.eqb c "-" then (-1, r)
      else if Ascii.eqb c "+" then (1, r)
      else (1, t)
  end.

Definition magnitude (u : string) : option Z :=
  if Str.starts_with "0x" u || Str.starts_with "0X" u
  then digits_prefix 16 hex_value None (Str.drop 2 u)
  else digits_prefix 10 dec_value None u.

(** The largest [n] such that every integer from [-n] to [n] is a
    double. *)
Definition max_safe : Z := 9007199254740992.

Definition safe (n : Z) : Prop := Z.abs n <= max_safe.

(** The double nearest to a natural number: a number of at most 53 bits
    is a double; of a longer one the bits after the 53rd are rounded away,
    to the nearest and, half way, to the even one.  (From [2^1024] on, where
    a double is [Infinity], this is not the number of the program.) *)
Definition round_magnitude (m : Z) : Z :=
  let e := Z.log2 m - 52 in
  if e <=? 0 then m
  else
    let q := Z.shiftr m e in
    let r := m - Z.shiftl q e in
    let half := Z.shiftl 1 (e - 1) in
    let up := (half <? r) || ((r =? half) && Z.odd q) in
    Z.shiftl (if up then q + 1 else q) e.

(** The double nearest to an integer. *)
Definition round (z : Z) : Z := Z.sgn z * round_magnitude (Z.abs z).

Arguments round_magnitude : simpl never.
Arguments round : simpl never.

(** [a - b] and [a * b] on doubles that are integers. *)
Definition sub (a b : Z) : Z := round (a - b).
Definition mul (a b : Z) : Z := round (a * b).

(** [parseInt(string)] without a radix: leading white space is dropped, a
    sign is read, a [0x] prefix selects radix 16, and the longest run of
    digits gives the number, as a double; [None] is NaN. *)
Definition parseInt (s : string) : option Z :=
  let '(sign, u) := sign_and_rest (Validator.ltrim s) in
  option_map (fun m => round (sign * m)) (magnitude u).

(** [parseInt(x) || d]: NaN and 0 are falsy. *)
Definition parseInt_or (x : option string) (d : Z) : Z :=
  match x with
  | None => d
  | Some s =>
      match parseInt s with
      | None => d
      | Some 0 => d
      | Some n => n
      end
  end.

End JS.

(** ** JSON values, as [express.json()] hands them to the routes *)

Inductive json : Type :=
| JNull
| JBool (b : bool)
| JNum (n : Z)
| JStr (s : string)
| JArr (items : list json)
| JObj (fields : list (string * json)).

(** One step of a property path: a key of an object or an index of an
    array. *)
Inductive seg : Type :=
| Key (k : string)
| Idx (i : nat).

Definition path := list seg.

Module Json.

Fixpoint lookup (k : string) (fs : list (string * json)) : option json :=
  match fs with
  | [] => None
  | (k', v) :: fs' => if String.eqb k k' then Some v else lookup k fs'
  end.

(** Replaces the value of [k], or appends the pair when [k] is new;
    [f] receives the previous value. *)
Fixpoint assign (k : string) (f : option json -> json)
         (fs : list (string * json)) : list (string * json) :=
  match fs with
  | [] => [(k, f None)]
  | (k', v) :: fs' =>
      if String.eqb k k' then (k', f (Some v)) :: fs'
      else (k', v) :: assign k f fs'
  end.

Fixpoint assign_index (i : nat) (f : option json -> json)
         (l : list json) : list json :=
  match i, l with
  | O, [] => [f None]
  | O, x :: l' => f (Some x) :: l'
  | S i', [] => JNull :: assign_index i' f []
  | S i', x :: l' => x :: assign_index i' f l'
  end.

(** A property read, [v[k]]; [None] is [undefined]. *)
Definition prop (s : seg) (v : json) : option json :=
  match s, v with
  | Key k, JObj fs => lookup k fs
  | Idx i, JArr l => nth_error l i
  | _, _ => None
  end.

(** lodash [_.get(v, p)]. *)
Fixpoint get (p : path) (v : json) : option json :=
  match p with
  | [] => Some v
  | s :: p' =>
      match prop s v with
      | Some w => get p' w
      | None => None
      end
  end.

Definition is_object (v : option json) : bool :=
  match v with
  | Some (JArr _) | Some (JObj _) => true
  | _ => false
  end.

(** The container lodash creates for a missing step of a path. *)
Definition fresh (p : path) : json :=
  match p with
  | Idx _ :: _ => JArr []
  | _ => JObj []
  end.

(** lodash [_.set(o, p, v)]: the steps of the path that are not objects
    are replaced by fresh containers.  A key set on an array (a named
    property, which JSON cannot show) leaves the array as it is. *)
Fixpoint set (p : path) (v : json) (o : json) : json :=
  match p with
  | [] => v
  | s :: p' =>
      let inner (old : option json) :=
        set p' v (match old with
                  | Some w => if is_object old then w else fresh p'
                  | None => fresh p'
                  end) in
      match s, o with
      | Key k, JObj fs => JObj (assign k inner fs)
      | Idx i, JArr l => JArr (assign_index i inner l)
      | _, _ => o
      end
  end.

(** JavaScript truthiness of a value of a request body. *)
Definition truthy (v : option json) : bool :=
  match v with
  | None | Some JNull | Some (JBool false) | Some (JNum 0) | Some (JStr "") => false
  | Some _ => true
  end.

(** [String(n)] for an integer of at most [2^53] in absolute value: its
    decimal digits, after a minus sign when it is negative. *)
Definition string_of_Z (n : Z) : string :=
  NilZero.string_of_int (Z.to_int n).

(** [String(v)]; an array is its elements joined by commas, [null]
    elements giving the empty string. *)
Fixpoint js_string (v : json) : string :=
  match v with
  | JNull => "null"
  | JBool true => "true"
  | JBool false => "false"
  | JNum n => string_of_Z n
  | JStr s => s
  | JArr l =>
      (fix join (l : list json) : string :=
         let el (x : json) :=
           match x with JNull => "" | _ => js_string x end in
         match l with
         | [] => ""
         | [x] => el x
         | x :: l' => (el x ++ "," ++ join l')%string
         end) l
  | JObj _ => "[object Object]"
  end.

(** Every number of the value is at most [2^53] in absolute value. *)
Fixpoint safe (v : json) : bool :=
  match v with
  | JNum n => Z.abs n <=? 9007199254740992
  | JArr l => forallb safe l
  | JObj fs => forallb (fun kv => let '(_, w) := kv in safe w) fs
  | _ => true
  end.

(** No key of the object holds a [.] or a [[]: lodash reads and writes
    a path such as [name.english] or [type[0]] under the key of that very
    name when the object has one, and along the path otherwise. *)
Definition no_path_key (v : json) : bool :=
  match v with
  | JObj fs =>
      forallb (fun kv =>
                 negb (Str.exists_char
                         (fun c => Ascii.eqb c "." || Ascii.eqb c "[") (fst kv)))
              fs
  | _ => true
  end.

End Json.

(** ** Requests *)

Inductive location : Type := Body | Params | Query.

(** [req.params], [req.query] and [req.body]; each is a JSON object. *)
Record request : Type := Request {
  req_params : json;
  req_query : json;
  req_body : json
}.

Definition at_location (l : location) (r : request) : json :=
  match l with
  | Body => req_body r
  | Params => req_params r
  | Query => req_query r
  end.

Definition with_location (l : location) (v : json) (r : request) : request :=
  match l with
  | Body => Request (req_params r) (req_query r) v
  | Params => Request v (req_query r) (req_body r)
  | Query => Request (req_params r) v (req_body r)
  end.

(** ** express-validator *)

Module ExpressValidator.

(** One step of a field selector such as ['name.english'] or ['type.*']. *)
Inductive fseg : Type :=
| FKey (k : string)
| FWild.

Definition field := list fseg.

(** An entry of [validationResult(req).array()]. *)
Record verror : Type := VError {
  err_location : location;
  err_path : path;
  err_value : option json;
  err_msg : string
}.

(** The items of a chain's stack. [isArray] is a custom validator: it
    receives the value itself, the standard ones its string form. *)
Inductive item : Type :=
| Sanitizer (f : string -> string)
| Standard (f : string -> bool) (msg : string)
| Custom (f : option json -> bool) (msg : string).

Record chain : Type := Chain {
  chain_location : location;
  chain_field : field;
  chain_optional : bool;
  chain_stack : list item
}.

(** A selected field of the request with its current value. *)
Record instance : Type := Instance {
  inst_path : path;
  inst_value : option json
}.

(** The string a standard validator or sanitizer receives: empty for
    [undefined] and [null], [String(value)] otherwise. *)
Definition to_string (v : option json) : string :=
  match v with
  | None | Some JNull => ""
  | Some w => Json.js_string w
  end.

Definition keys_of (v : option json) : list seg :=
  match v with
  | Some (JArr l) => map Idx (seq 0 (List.length l))
  | Some (JObj fs) => map (fun kv => Key (fst kv)) fs
  | _ => []
  end.

(** The paths a selector stands for in [root]: a wildcard expands to the
    keys of the object or array found there, and to nothing otherwise. *)
Fixpoint expand (root : json) (prefix : path) (f : field) : list path :=
  match f with
  | [] => [prefix]
  | FKey k :: f' => expand root (prefix ++ [Key k]) f'
  | FWild :: f' =>
      flat_map (fun s => expand root (prefix ++ [s]) f')
               (keys_of (Json.get prefix root))
  end.

(** The instances of a selector, each with the value [_.get] reads at its
    path.  (lodash reads a path such as [name.english] under the key of
    that very name when the object has one; the statements that depend on
    what is selected in a body are about bodies without such a key,
    [Json.no_path_key].) *)
Definition select (root : json) (f : field) : list instance :=
  map (fun p => Instance p (Json.get p root)) (expand root [] f).

(** [optional()] with its default options skips [undefined] only. *)
Definition required (opt : bool) (i : instance) : bool :=
  negb opt || match inst_value i with Some _ => true | None => false end.

(** The values an item is applied to: the elements of an array, or the
    value alone. *)
Definition values_of (v : option json) : list (option json) :=
  match v with
  | Some (JArr l) => map Some l
  | _ => [v]
  end.


Definition sanitize (f : string -> string) (v : option json) : json :=
  match v with
  | Some (JArr l) => JArr (map (fun x => JStr (f (to_string (Some x)))) l)
  | _ => JStr (f (to_string v))
  end.

(** One item on one instance.  An error holds the value that was judged,
    as it was then: of an array that a later sanitizer changes in place,
    the response shows the entries as changed, so that the statements on
    the errors of a whole request speak of their fields and messages
    ([Rules.of_error]). *)
Definition run_item (loc : location) (it : item) (i : instance)
  : instance * list verror :=
  match it with
  | Sanitizer f =>
      (Instance (inst_path i) (Some (sanitize f (inst_value i))), [])
  | Standard f msg =>
      (i, flat_map (fun x => if f (to_string x) then []
                             else [VError loc (inst_path i) x msg])
                   (values_of (inst_value i)))
  | Custom f msg =>
      (i, if f (inst_value i) then []
          else [VError loc (inst_path i) (inst_value i) msg])
  end.

(** A sanitized value is written back into the request with [_.set]. *)
Definition write_back (loc : location) (i : instance) (r : request) : request :=
  match inst_value i with
  | Some v => with_location loc (Json.set (inst_path i) v (at_location loc r)) r
  | None => r
  end.

Definition is_sanitizer (it : item) : bool :=
  match it with Sanitizer _ => true | _ => false end.

(** One item of the stack, over every instance the chain still holds. *)
Definition step (loc : location) (opt : bool)
           (st : request * list instance * list verror) (it : item)
  : request * list instance * list verror :=
  let '(r, insts, errs) := st in
  let results :=
    map (fun i => if required opt i then run_item loc it i else (i, [])) insts in
  let insts' := map fst results in
  let r' := if is_sanitizer it
            then fold_left (fun acc i => write_back loc i acc) insts' r
            else r in
  (r', insts', errs ++ flat_map snd results).

(** Running a chain as a middleware: the request with the sanitized values
    and the errors the chain recorded. *)
Definition run_chain (c : chain) (r : request) : request * list verror :=
  let loc := chain_location c in
  let '(r', _, errs) :=
    fold_left (step loc (chain_optional c)) (chain_stack c)
              (r, select (at_location loc r) (chain_field c), []) in
  (r', errs).

(** The chains of a route, run in order on the same request. *)
Fixpoint run_chains (cs : list chain) (r : request) : request * list verror :=
  match cs with
  | [] => (r, [])
  | c :: cs' =>
      let '(r1, e1) := run_chain c r in
      let '(r2, e2) := run_chains cs' r1 in
      (r2, e1 ++ e2)
  end.

(** *** Notions for reasoning about chains *)

(** The instance stands below the top-level key [k]. *)
Definition below (k : string) (i : instance) : Prop :=
  exists p, inst_path i = Key k :: p.



(** The three components of the state of a chain being run. *)
Definition st_request (st : request * list instance * list verror) := fst (fst st).
Definition st_instances (st : request * list instance * list verror) := snd (fst st).
Definition st_errors (st : request * list instance * list verror) := snd st.



(** A chain that cannot change the path parameters. *)
Definition keeps_params (c : chain) : Prop :=
  chain_location c <> Params
  \/ Forall (fun it => is_sanitizer it = false) (chain_stack c).

(** The chain cut after its first [k] items. *)
Definition truncate (k : nat) (c : chain) : chain :=
  Chain (chain_location c) (chain_field c) (chain_optional c)
        (firstn k (chain_stack c)).

(** The error [e] is recorded by one of the chains [cs], each run in its
    turn on the request the chains before it left. *)
Inductive records : list chain -> request -> verror -> Prop :=
| records_here c cs r e :
    In e (snd (run_chain c r)) -> records (c :: cs) r e
| records_later c cs r e :
    records cs (fst (run_chain c r)) e -> records (c :: cs) r e.

(** *** The chain builders the routes use *)

Definition default_message : string := "Invalid value".

Definition body (f : field) : chain := Chain Body f false [].
Definition param (f : field) : chain := Chain Params f false [].
Definition query (f : field) : chain := Chain Query f false [].

Definition push (it : item) (c : chain) : chain :=
  Chain (chain_location c) (chain_field c) (chain_optional c)
        (chain_stack c ++ [it]).

Definition optional (c : chain) : chain :=
  Chain (chain_location c) (chain_field c) true (chain_stack c).

Definition trim : chain -> chain := push (Sanitizer Validator.trim).

Definition isInt (omin omax : option Z) : chain -> chain :=
  push (Standard (Validator.isInt omin omax) default_message).

Definition isLength (omin omax : option Z) : chain -> chain :=
  push (Standard (Validator.isLength omin omax) default_message).

Definition array_within (omin omax : option Z) (v : option json) : bool :=
  match v with
  | Some (JArr l) =>
      let n := Z.of_nat (List.length l) in
      match omin with Some m => m <=? n | None => true end
      && match omax with Some m => n <=? m | None => true end
  | _ => false
  end.

Definition isArray (omin omax : option Z) : chain -> chain :=
  push (Custom (array_within omin omax) default_message).

Definition set_message (msg : string) (it : item) : item :=
  match it with
  | Sanitizer f => Sanitizer f
  | Standard f _ => Standard f msg
  | Custom f _ => Custom f msg
  end.

(** [withMessage] names the message of the last validator of the chain;
    the stack is given last item first. *)
Fixpoint name_last (msg : string) (rstack : list item) : list item :=
  match rstack with
  | [] => []
  | Sanitizer f :: before => Sanitizer f :: name_last msg before
  | it :: before => set_message msg it :: before
  end.

Definition withMessage (msg : string) (c : chain) : chain :=
  Chain (chain_location c) (chain_field c) (chain_optional c)
        (rev (name_last msg (rev (chain_stack c)))).

End ExpressValidator.

Notation "c '|>' f" := (f c) (at level 45, left associativity, only parsing).

(** ** Regular expressions: [new RegExp(pattern, 'i')]

    The patterns built from literal characters, [.], groups, [|] and the
    quantifiers [*], [+], [?] (greedy or lazy) are parsed and matched here.
    A pattern that uses another construct (a class, a counted repetition, an
    anchor, a letter or digit escape, a group modifier) is [Outside]: the
    routes leave it to the engine of the environment. *)

Module RegExp.

Inductive regex : Type :=
| Void
| Eps
| Chr (c : ascii)
| Dot
| Seq (r1 r2 : regex)
| Alt (r1 r2 : regex)
| Star (r : regex).

Fixpoint nullable (r : regex) : bool :=
  match r with
  | Void | Chr _ | Dot => false
  | Eps | Star _ => true
  | Seq a b => nullable a && nullable b
  | Alt a b => nullable a || nullable b
  end.

(** [.] matches every character except the line terminators. *)
Definition is_line_terminator (c : ascii) : bool :=
  (Str.code c =? 10) || (Str.code c =? 13).

(** What is left of [r] to match after it has read [d]; characters are
    compared without regard to case. *)
Fixpoint deriv (d : ascii) (r : regex) : regex :=
  match r with
  | Void | Eps => Void
  | Chr c => if Str.eq_ci c d then Eps else Void
  | Dot => if is_line_terminator d then Void else Eps
  | Seq a b =>
      if nullable a then Alt (Seq (deriv d a) b) (deriv d b)
      else Seq (deriv d a) b
  | Alt a b => Alt (deriv d a) (deriv d b)
  | Star a => Seq (deriv d a) (Star a)
  end.

(** [r] matches some prefix of [s]. *)
Fixpoint matches_prefix (r : regex) (s : string) : bool :=
  nullable r ||
  match s with
  | EmptyString => false
  | String c s' => matches_prefix (deriv c r) s'
  end.

(** [regexp.test(s)]: [r] matches somewhere in [s]. *)
Fixpoint test (r : regex) (s : string) : bool :=
  matches_prefix r s ||
  match s with
  | EmptyString => false
  | String _ s' => test r s'
  end.

(** *** The parser *)

Inductive outcome : Type :=
| Parsed (r : regex)
| SyntaxError
| Outside.

(** A group being read: its finished alternatives and the atoms of the
    current one, both last first. *)
Record frame : Type := Frame {
  fr_alts : list regex;
  fr_atoms : list regex
}.

(** What stands just before the next character. *)
Inductive prev : Type :=
| AtStart
| AfterOpen
| AfterAtom
| AfterQuantifier
| AfterLazy.

Record pstate : Type := PState {
  ps_current : frame;
  ps_outer : list frame;
  ps_escape : bool;
  ps_prev : prev
}.

Inductive progress : Type :=
| Next (st : pstate)
| Stop (o : outcome).

Definition seq_of (atoms : list regex) : regex := fold_right Seq Eps atoms.

Fixpoint alt_of (alts : list regex) : regex :=
  match alts with
  | [] => Void
  | [r] => r
  | r :: rs => Alt r (alt_of rs)
  end.

Definition close (f : frame) : regex :=
  alt_of (rev (seq_of (rev (fr_atoms f)) :: fr_alts f)).

Definition add_atom (a : regex) (st : pstate) : pstate :=
  PState (Frame (fr_alts (ps_current st)) (a :: fr_atoms (ps_current st)))
         (ps_outer st) false AfterAtom.

(** Applies a quantifier to the atom read last. *)
Definition quantify (q : regex -> regex) (st : pstate) : progress :=
  match ps_prev st, fr_atoms (ps_current st) with
  | AfterAtom, a :: atoms =>
      Next (PState (Frame (fr_alts (ps_current st)) (q a :: atoms))
                   (ps_outer st) false AfterQuantifier)
  | _, _ => Stop SyntaxError
  end.

Definition plus (r : regex) : regex := Seq r (Star r).
Definition opt (r : regex) : regex := Alt r Eps.


Definition read (st : pstate) (c : ascii) : progress :=
  if ps_escape st then
    if Str.is_alnum c then Stop Outside else Next (add_atom (Chr c) st)
  else
    match c with
    | "\"%char =>
        Next (PState (ps_current st) (ps_outer st) true (ps_prev st))
    | "("%char =>
        Next (PState (Frame [] []) (ps_current st :: ps_outer st) false AfterOpen)
    | ")"%char =>
        match ps_outer st with
        | [] => Stop SyntaxError
        | parent :: outer =>
            Next (add_atom (close (ps_current st))
                           (PState parent outer false AfterAtom))
        end
    | "|"%char =>
        Next (PState (Frame (seq_of (rev (fr_atoms (ps_current st)))
                               :: fr_alts (ps_current st)) [])
                     (ps_outer st) false AtStart)
    | "*"%char => quantify Star st
    | "+"%char => quantify plus st
    | "?"%char =>
        match ps_prev st with
        | AfterAtom => quantify opt st
        | AfterQuantifier =>
            Next (PState (ps_current st) (ps_outer st) false AfterLazy)
        | AfterOpen => Stop Outside
        | AtStart | AfterLazy => Stop SyntaxError
        end
    | "."%char => Next (add_atom Dot st)
    | "["%char | "]"%char | "{"%char | "}"%char | "^"%char | "$"%char =>
        Stop Outside
    | _ => Next (add_atom (Chr c) st)
    end.

Definition finish (st : pstate) : outcome :=
  if ps_escape st then SyntaxError
  else match ps_outer st with
       | [] => Parsed (close (ps_current st))
       | _ :: _ => SyntaxError
       end.

Fixpoint parse_from (st : pstate) (s : string) : outcome :=
  match s with
  | EmptyString => finish st
  | String c s' =>
      match read st c with
      | Next st' => parse_from st' s'
      | Stop o => o
      end
  end.

Definition parse (pattern : string) : outcome :=
  parse_from (PState (Frame [] []) [] false AtStart) pattern.

(** *** Matching without a pattern language: substrings up to case *)

Fixpoint prefix_ci (p s : string) : bool :=
  match p, s with
  | EmptyString, _ => true
  | String a p', String b s' => Str.eq_ci a b && prefix_ci p' s'
  | String _ _, EmptyString => false
  end.

(** [p] occurs in [s] when letter case is ignored. *)
Fixpoint contains_ci (p s : string) : bool :=
  prefix_ci p s ||
  match s with
  | EmptyString => false
  | String _ s' => contains_ci p s'
  end.




Fixpoint to_lower (s : string) : string :=
  match s with
  | EmptyString => EmptyString
  | String c s' => String (Str.lower c) (to_lower s')
  end.

End RegExp.

(** ** The collection behind the mongoose model [pokemon] *)

(** A stored document; [id] is the external key, a number. *)
Record pokemon : Type := Pokemon {
  pk_id : Z;
  pk_name : json;
  pk_type : json;
  pk_base : json;
  pk_image : json
}.

(** The update document of [findOneAndUpdate]: the top-level fields it
    sets. *)
Record update : Type := Update {
  up_name : option json;
  up_type : option json;
  up_base : option json;
  up_image : option json
}.

Module Store.

Definition collection := list pokemon.

(** The filters of the routes: on the external [id], as the request gives
    it, and on the names, by a pattern. *)
Inductive filter : Type :=
| ById (id : option json)
| ByName (pattern : string).

(** The calls a handler makes on the model, in order, with their
    arguments as the handler passes them. *)
Inductive op : Type :=
| Find (skip limit : Z)
| CountDocuments
| FindOne (f : filter)
| Save (id name type base image : option json)
| FindOneAndUpdate (f : filter) (u : update)
| FindOneAndDelete (f : filter).

(** [find({}).skip(s).limit(l)], for [s >= 0] and [l >= 1] as the list route
    calls it: documents come in natural order. *)
Definition find_page (skip limit : Z) (db : collection) : list pokemon :=
  firstn (Z.to_nat limit) (skipn (Z.to_nat skip) db).

Definition countDocuments (db : collection) : Z := Z.of_nat (List.length db).

(** [findOne(filter)]: the first document that passes the filter. *)
Definition findOne (f : pokemon -> bool) (db : collection) : option pokemon :=
  List.find f db.

Definition has_id (n : Z) (p : pokemon) : bool := pk_id p =? n.

(** [$set] of the fields of the update document; every other field of the
    document stays. *)
Definition apply_update (u : update) (p : pokemon) : pokemon :=
  Pokemon (pk_id p)
          (match up_name u with Some v => v | None => pk_name p end)
          (match up_type u with Some v => v | None => pk_type p end)
          (match up_base u with Some v => v | None => pk_base p end)
          (match up_image u with Some v => v | None => pk_image p end).

(** [findOneAndUpdate(filter, u, {new: true})]: the first document that
    passes the filter is updated in place and returned as updated. *)
Fixpoint findOneAndUpdate (f : pokemon -> bool) (u : update) (db : collection)
  : option pokemon * collection :=
  match db with
  | [] => (None, [])
  | p :: db' =>
      if f p then (Some (apply_update u p), apply_update u p :: db')
      else let '(r, db'') := findOneAndUpdate f u db' in (r, p :: db'')
  end.

(** [findOneAndDelete(filter)]: the first document that passes the filter
    is removed and returned. *)
Fixpoint findOneAndDelete (f : pokemon -> bool) (db : collection)
  : option pokemon * collection :=
  match db with
  | [] => (None, [])
  | p :: db' =>
      if f p then (Some p, db')
      else let '(r, db'') := findOneAndDelete f db' in (r, p :: db'')
  end.

End Store.

(** ** What the routes take from outside this file

    - [url_syntax]: the checks of validator.js's [isURL] that follow its
      first guard (protocol, host, port);
    - [regexp_engine]: [new RegExp(pattern, 'i')] on the patterns that are
      [RegExp.Outside]; [None] when the constructor throws;
    - [accepts_update], [accepts_document]: the verdict of the schema of
      [schema/pokemon.js] (casting, validators, indexes) on an update
      document and on a new document. *)
Record environment : Type := Environment {
  url_syntax : string -> bool;
  regexp_engine : string -> option (string -> bool);
  accepts_update : update -> bool;
  accepts_document : Store.collection -> pokemon -> bool
}.

(** ** Responses *)

Inductive js_error : Type :=
| RegExpSyntaxError (pattern : string)
| CastError
| SchemaError.

Inductive message : Type :=
| Literal (s : string)
| MessageOf (e : js_error).

Inductive payload : Type :=
| Document (p : pokemon)
| Page (data : list pokemon)
       (currentPage totalPages totalPokemons pokemonsPerPage : Z)
| ErrorJson (m : message)
| ValidationFailed (details : list ExpressValidator.verror)
| Deleted (p : pokemon)
| Text (m : message).

Record response : Type := Response {
  status : Z;
  sent : payload
}.

(** What serving a request gives: the response, the collection afterwards
    and the store operations issued. *)
Definition result : Type := response * Store.collection * list Store.op.

(** ** The application *)

Section App.

Variable E : environment.

Import ExpressValidator.

(** validator.js's [isURL]: the empty string and a string with a white space
    or an angle bracket are no URL; the rest is for [url_syntax]. *)
Definition isURL_guard (s : string) : bool :=
  negb (Str.is_empty s)
  && negb (Str.exists_char
             (fun c => Str.is_space c || Ascii.eqb c "<" || Ascii.eqb c ">") s).

Definition validator_isURL (s : string) : bool :=
  isURL_guard s && url_syntax E s.

Definition isURL : chain -> chain :=
  push (Standard validator_isURL default_message).

(** [handleValidation]: answers 400 with every recorded error, or calls
    [next]. *)
Definition handleValidation (errors : list verror) (db : Store.collection)
           (next : Store.collection -> result) : result :=
  match errors with
  | [] => next db
  | _ :: _ => (Response 400 (ValidationFailed errors), db, [])
  end.

(** [app.METHOD(path, validators, handleValidation, handler)]. *)
Definition serve (validators : list chain)
           (handler : request -> Store.collection -> result)
           (req : request) (db : Store.collection) : result :=
  let '(req', errors) := run_chains validators req in
  handleValidation errors db (handler req').

Definition not_found : response :=
  Response 404 (ErrorJson (Literal "Pokemon not found")).

(** The number mongoose casts a filter value on [id] to: the number
    itself, or the value of an integer literal.  Beyond [2^53] in absolute
    value the cast rounds to a double, which this definition leaves out:
    the statements on ids keep to [JS.safe] ones. *)
Definition cast_number (v : option json) : option Z :=
  match v with
  | Some (JNum n) => Some n
  | Some (JStr s) => Validator.int_literal s
  | _ => None
  end.

(** *** GET /pokemons *)

Definition list_validators : list chain :=
  [ query [FKey "page"] |> optional |> isInt (Some 1) None
      |> withMessage "page must be >= 1";
    query [FKey "limit"] |> optional |> isInt (Some 1) (Some 100)
      |> withMessage "limit must be between 1 and 100" ].

(** [Math.ceil(a / b)] for [b <> 0]; the division of doubles gives this
    integer when [a] is below [2^53] and [b] at most 100. *)
Definition ceil_div (a b : Z) : Z := - ((- a) / b).

Definition list_handler (req : request) (db : Store.collection) : result :=
  let q k := option_map Json.js_string (Json.get [Key k] (req_query req)) in
  let page := JS.parseInt_or (q "page") 1 in
  let limit := JS.parseInt_or (q "limit") 20 in
  let skip := JS.mul (JS.sub page 1) limit in
  let pokemons := Store.find_page skip limit db in
  let total := Store.countDocuments db in
  let totalPages := ceil_div total limit in
  (Response 200 (Page pokemons page totalPages total limit),
   db, [Store.Find skip limit; Store.CountDocuments]).

Definition GET_pokemons := serve list_validators list_handler.

(** The number a query parameter of the list route stands for: its default
    when the parameter is absent, the double nearest to the value of an
    integer literal. *)
Definition query_number (k : string) (default : Z) (req : request) : option Z :=
  match Json.get [Key k] (req_query req) with
  | None => Some default
  | Some (JStr s) => option_map JS.round (Validator.int_literal s)
  | Some _ => None
  end.

(** *** GET /pokemons/:id *)

Definition id_validators : list chain :=
  [ param [FKey "id"] |> isInt (Some 1) None
      |> withMessage "id must be a positive integer" ].

Definition server_error_text (e : js_error) : response :=
  Response 500 (Text (MessageOf e)).

Definition server_error_json (e : js_error) : response :=
  Response 500 (ErrorJson (MessageOf e)).

Definition get_handler (req : request) (db : Store.collection) : result :=
  let id := Json.get [Key "id"] (req_params req) in
  (match cast_number id with
   | None => server_error_text CastError
   | Some n =>
       match Store.findOne (Store.has_id n) db with
       | Some poke => Response 200 (Document poke)
       | None => not_found
       end
   end, db, [Store.FindOne (Store.ById id)]).

Definition GET_pokemons_id := serve id_validators get_handler.

(** *** GET /pokemons/search/:name *)

Definition search_validators : list chain :=
  [ param [FKey "name"] |> trim |> isLength (Some 1) (Some 50)
      |> withMessage "name must be 1-50 chars" ].

(** [new RegExp(pattern, 'i')]; [None] when it throws. *)
Definition new_RegExp (pattern : string) : option (string -> bool) :=
  match RegExp.parse pattern with
  | RegExp.Parsed r => Some (RegExp.test r)
  | RegExp.SyntaxError => None
  | RegExp.Outside => regexp_engine E pattern
  end.

(** [{ 'name.<language>': re }] on a document. *)
Definition name_matches (re : string -> bool) (language : string)
           (p : pokemon) : bool :=
  match Json.get [Key language] (pk_name p) with
  | Some (JStr s) => re s
  | _ => false
  end.

Definition search_filter (re : string -> bool) (p : pokemon) : bool :=
  name_matches re "english" p
  || name_matches re "french" p
  || name_matches re "japanese" p.

Definition search_handler (req : request) (db : Store.collection) : result :=
  let name :=
    match Json.get [Key "name"] (req_params req) with
    | Some v => Json.js_string v
    | None => ""
    end in
  match new_RegExp name with
  | None => (server_error_text (RegExpSyntaxError name), db, [])
  | Some re =>
      (match Store.findOne (search_filter re) db with
       | Some poke => Response 200 (Document poke)
       | None => not_found
       end, db, [Store.FindOne (Store.ByName name)])
  end.

Definition GET_pokemons_search_name := serve search_validators search_handler.


(** *** POST /pokemons *)

Definition stat (name : string) : chain :=
  body [FKey "base"; FKey name] |> isInt (Some 1) (Some 255).

Definition create_validators : list chain :=
  [ body [FKey "id"] |> isInt (Some 1) None
      |> withMessage "id must be a positive integer";
    body [FKey "name"; FKey "english"] |> trim |> isLength (Some 1) (Some 50);
    body [FKey "name"; FKey "french"] |> optional |> trim |> isLength None (Some 50);
    body [FKey "name"; FKey "japanese"] |> optional |> trim |> isLength None (Some 50);
    body [FKey "name"; FKey "chinese"] |> optional |> trim |> isLength None (Some 50);
    body [FKey "type"] |> isArray (Some 1) (Some 2);
    body [FKey "type"; FWild] |> trim |> isLength (Some 1) (Some 20);
    stat "HP";
    stat "Attack";
    stat "Defense";
    stat "SpecialAttack";
    stat "SpecialDefense";
    stat "Speed";
    body [FKey "image"] |> isURL |> withMessage "image must be a valid URL" ].

Definition create_handler (req : request) (db : Store.collection) : result :=
  let field k := Json.get [Key k] (req_body req) in
  let id := field "id" in
  let name := field "name" in
  let type := field "type" in
  let base := field "base" in
  let image := field "image" in
  if negb (Json.truthy id) || negb (Json.truthy name) || negb (Json.truthy type)
     || negb (Json.truthy base) || negb (Json.truthy image)
  then (Response 400 (ErrorJson (Literal "Missing required fields")), db, [])
  else
    let '(res, db') :=
      match cast_number id, name, type, base, image with
      | Some n, Some name, Some type, Some base, Some image =>
          let newPokemon := Pokemon n name type base image in
          if accepts_document E db newPokemon
          then (Response 201 (Document newPokemon), db ++ [newPokemon])
          else (server_error_json SchemaError, db)
      | _, _, _, _, _ => (server_error_json CastError, db)
      end in
    (res, db', [Store.Save id name type base image]).

Definition POST_pokemons := serve create_validators create_handler.

(** *** PUT /pokemons/:id *)

Definition optional_stat (name : string) : chain :=
  body [FKey "base"; FKey name] |> optional |> isInt (Some 1) (Some 255).

Definition update_validators : list chain :=
  [ param [FKey "id"] |> isInt (Some 1) None
      |> withMessage "id must be a positive integer";
    body [FKey "name"; FKey "english"] |> optional |> trim |> isLength (Some 1) (Some 50);
    body [FKey "name"; FKey "french"] |> optional |> trim |> isLength None (Some 50);
    body [FKey "name"; FKey "japanese"] |> optional |> trim |> isLength None (Some 50);
    body [FKey "name"; FKey "chinese"] |> optional |> trim |> isLength None (Some 50);
    body [FKey "type"] |> optional |> isArray (Some 1) (Some 2);
    body [FKey "type"; FWild] |> optional |> trim |> isLength (Some 1) (Some 20);
    optional_stat "HP";
    optional_stat "Attack";
    optional_stat "Defense";
    optional_stat "SpecialAttack";
    optional_stat "SpecialDefense";
    optional_stat "Speed";
    body [FKey "image"] |> optional |> trim |> isLength (Some 1) None ].

(** [...(x && { x })]: the field is set when its value is truthy. *)
Definition when_truthy (v : option json) : option json :=
  if Json.truthy v then v else None.

Definition update_of (b : json) : update :=
  Update (when_truthy (Json.get [Key "name"] b))
         (when_truthy (Json.get [Key "type"] b))
         (when_truthy (Json.get [Key "base"] b))
         (when_truthy (Json.get [Key "image"] b)).

Definition update_handler (req : request) (db : Store.collection) : result :=
  let u := update_of (req_body req) in
  let pokemonId := Json.get [Key "id"] (req_params req) in
  let '(res, db') :=
    match cast_number pokemonId with
    | None => (server_error_json CastError, db)
    | Some n =>
        if accepts_update E u then
          match Store.findOneAndUpdate (Store.has_id n) u db with
          | (Some poke, db') => (Response 200 (Document poke), db')
          | (None, _) => (not_found, db)
          end
        else (server_error_json SchemaError, db)
    end in
  (res, db', [Store.FindOneAndUpdate (Store.ById pokemonId) u]).

Definition PUT_pokemons_id := serve update_validators update_handler.

(** The top-level fields an update can set, and their value in a
    document. *)
Definition top_level_fields : list string := ["name"; "type"; "base"; "image"].

Definition field_of (f : string) (p : pokemon) : json :=
  if String.eqb f "name" then pk_name p
  else if String.eqb f "type" then pk_type p
  else if String.eqb f "base" then pk_base p
  else pk_image p.

(** The chains of update on the body, and the error of the chain on the
    path parameter. *)
Definition update_body_chains : list chain := tl update_validators.

Definition id_error (id : string) : list verror :=
  if Validator.isInt (Some 1) None id then []
  else [VError Params [Key "id"] (Some (JStr id)) "id must be a positive integer"].

(** *** DELETE /pokemons/:id *)

Definition delete_handler (req : request) (db : Store.collection) : result :=
  let id := Json.get [Key "id"] (req_params req) in
  let '(res, db') :=
    match cast_number id with
    | None => (server_error_json CastError, db)
    | Some n =>
        match Store.findOneAndDelete (Store.has_id n) db with
        | (Some poke, db') => (Response 200 (Deleted poke), db')
        | (None, _) => (not_found, db)
        end
    end in
  (res, db', [Store.FindOneAndDelete (Store.ById id)]).

Definition DELETE_pokemons_id := serve id_validators delete_handler.

(** *** The routes *)

Record route : Type := Route {
  route_validators : list chain;
  route_handler : request -> Store.collection -> result
}.

Definition routes : list route :=
  [ Route list_validators list_handler;
    Route id_validators get_handler;
    Route search_validators search_handler;
    Route create_validators create_handler;
    Route update_validators update_handler;
    Route id_validators delete_handler ].

Definition dispatch (rt : route) : request -> Store.collection -> result :=
  serve (route_validators rt) (route_handler rt).

End App.

Definition response_of (r : result) : response := fst (fst r).
Definition collection_of (r : result) : Store.collection := snd (fst r).
Definition operations_of (r : result) : list Store.op := snd r.

(** ** Sample data *)

(** An environment in which every URL that passes the guard of [isURL] is
    accepted, no pattern outside the parsed ones compiles, and the schema
    accepts every document. *)
Definition lenient : environment :=
  Environment (fun _ => true) (fun _ => None) (fun _ => true) (fun _ _ => true).

Definition names (english french japanese chinese : string) : json :=
  JObj [("english", JStr english); ("french", JStr french);
        ("japanese", JStr japanese); ("chinese", JStr chinese)].

Definition stats (hp attack defense spattack spdefense speed : Z) : json :=
  JObj [("HP", JNum hp); ("Attack", JNum attack); ("Defense", JNum defense);
        ("SpecialAttack", JNum spattack); ("SpecialDefense", JNum spdefense);
        ("Speed", JNum speed)].

Definition bulbasaur : pokemon :=
  Pokemon 1 (names "Bulbasaur" "Bulbizarre" "Fushigidane" "Miaowazhongzi")
          (JArr [JStr "Grass"; JStr "Poison"])
          (stats 45 49 49 65 65 45) (JStr "http://x/b.png").

Definition charmander : pokemon :=
  Pokemon 4 (names "Charmander" "Salameche" "Hitokage" "Xiaohuolong")
          (JArr [JStr "Fire"])
          (stats 39 52 43 60 50 65) (JStr "http://x/c.png").

Definition pikachu : pokemon :=
  Pokemon 25 (names "Pikachu" "Pikachu" "Pikachu" "Pikaqiu")
          (JArr [JStr "Electric"])
          (stats 35 55 40 50 50 90) (JStr "http://x/p.png").

Definition pokedex : Store.collection := [bulbasaur; charmander; pikachu].

(** A request with the given path parameters, query parameters and body. *)
Definition get_request (params query : list (string * string)) : request :=
  let strings := map (fun kv => (fst kv, JStr (snd kv))) in
  Request (JObj (strings params)) (JObj (strings query)) (JObj []).

Definition put_request (id : string) (body : json) : request :=
  Request (JObj [("id", JStr id)]) (JObj []) body.

Definition post_request (body : json) : request :=
  Request (JObj []) (JObj []) body.

(** ** Pages, new documents and removal, as the routes show them *)

(** The request [GET /pokemons?page=<page>&limit=<limit>]. *)
Definition list_request (page limit : Z) : request :=
  get_request [] [("page", Json.string_of_Z page); ("limit", Json.string_of_Z limit)].

(** The [data] of a response of the list route. *)
Definition data_of (r : result) : list pokemon :=
  match sent (response_of r) with
  | Page data _ _ _ _ => data
  | _ => []
  end.

(** The request [GET] or [DELETE /pokemons/<n>]. *)
Definition id_request (n : Z) : request :=
  get_request [("id", Json.string_of_Z n)] [].

(** [new pokemon({ id, name, type, base, image })] on the body the create
    handler reads: the document, when [id] casts to a number and the four
    other fields are there. *)
Definition new_document (b : json) : option pokemon :=
  match cast_number (Json.get [Key "id"] b), Json.get [Key "name"] b,
        Json.get [Key "type"] b, Json.get [Key "base"] b,
        Json.get [Key "image"] b with
  | Some n, Some name, Some type, Some base, Some image =>
      Some (Pokemon n name type base image)
  | _, _, _, _, _ => None
  end.

(** The body of a create request as its validators leave it. *)
Definition created_body (E : environment) (req : request) : json :=
  req_body (fst (ExpressValidator.run_chains (create_validators E) req)).

(** The [save] a create handler issues on a body. *)
Definition save_of (b : json) : Store.op :=
  Store.Save (Json.get [Key "id"] b) (Json.get [Key "name"] b)
             (Json.get [Key "type"] b) (Json.get [Key "base"] b)
             (Json.get [Key "image"] b).

(** The instance stands below the top-level key [k], at least one step
    down. *)
Definition deep (k : string) (i : ExpressValidator.instance) : Prop :=
  exists s p, ExpressValidator.inst_path i = Key k :: s :: p.

(** The body holds an object or an array under [k]. *)
Definition holds_object (k : string) (b : json) : Prop :=
  Json.is_object (Json.prop (Key k) b) = true.

(** A chain on the body that leaves the value under [k] an object when it
    is one: its field is below another key, or deeper than [k]. *)
Definition gentle (k : string) (c : ExpressValidator.chain) : Prop :=
  ExpressValidator.chain_location c = Body
  /\ exists k' rest,
       ExpressValidator.chain_field c = ExpressValidator.FKey k' :: rest
       /\ (k' <> k \/ exists f rest', rest = f :: rest').

(** A chain on a field of the body below another key than [k]. *)
Definition elsewhere (k : string) (c : ExpressValidator.chain) : Prop :=
  ExpressValidator.chain_location c = Body
  /\ exists k' rest,
       ExpressValidator.chain_field c = ExpressValidator.FKey k' :: rest /\ k' <> k.

(** A chain on a field of the body below [a] and another key than [b]. *)
Definition sibling (a b : string) (c : ExpressValidator.chain) : Prop :=
  ExpressValidator.chain_location c = Body
  /\ exists b' rest,
       ExpressValidator.chain_field c
       = ExpressValidator.FKey a :: ExpressValidator.FKey b' :: rest
       /\ b' <> b.

(** A chain without a sanitizer. *)
Definition validating (c : ExpressValidator.chain) : Prop :=
  Forall (fun it => ExpressValidator.is_sanitizer it = false)
         (ExpressValidator.chain_stack c).




(** What the validators of create let through as an [id] and as an
    [image]. *)
Definition valid_id (v : option json) : Prop :=
  Json.truthy v = true /\ forall n, cast_number v = Some n -> 1 <= n.

Definition valid_image (E : environment) (v : option json) : Prop :=
  v <> None
  /\ (Json.truthy v = false ->
      (v = Some (JBool false) /\ url_syntax E "false" = true)
      \/ (v = Some (JNum 0) /\ url_syntax E "0" = true)).

(** The body of a create request for Bulbasaur, its English name given
    with white space around. *)
(** The bodies on which the selection of fields and the printing of
    numbers are those of this file: no key that is itself a path, and
    numbers that a double holds and [String] prints with all their
    digits. *)
Definition plain_body (req : request) : Prop :=
  Json.safe (req_body req) = true /\ Json.no_path_key (req_body req) = true.

Definition bulbasaur_body : json :=
  JObj [("id", JNum 1); ("name", JObj [("english", JStr " Bulbasaur ")]);
        ("type", JArr [JStr "Grass"; JStr "Poison"]);
        ("base", stats 45 49 49 65 65 45); ("image", JStr "http://example.com/b.png")].

(** The document that request creates: the name is trimmed. *)
Definition bulbasaur_created : pokemon :=
  Pokemon 1 (JObj [("english", JStr "Bulbasaur")])
          (JArr [JStr "Grass"; JStr "Poison"])
          (stats 45 49 49 65 65 45) (JStr "http://example.com/b.png").


(** ** The CORS policy

    [allowedOrigins] and the [origin] callback given to [cors]. *)

Module Cors.

(** [s.split(sep)] for a separator of one character: the pieces between
    the separators, one empty piece for the empty string. *)
Fixpoint split (sep : ascii) (s : string) : list string :=
  match s with
  | EmptyString => [EmptyString]
  | String c s' =>
      if Ascii.eqb c sep then EmptyString :: split sep s'
      else match split sep s' with
           | piece :: pieces => String c piece :: pieces
           | [] => [String c EmptyString]
           end
  end.

(** [pieces.join(sep)]. *)
Fixpoint join (sep : ascii) (pieces : list string) : string :=
  match pieces with
  | [] => EmptyString
  | [piece] => piece
  | piece :: pieces' => (piece ++ String sep (join sep pieces'))%string
  end.

(** [origin.trim()]: on the characters below 128 [String.prototype.trim]
    strips what validator.js's [trim] strips. *)
Definition trim (s : string) : string := Validator.trim s.

(** [(process.env.CORS_ORIGINS || '').split(',').map(origin => origin.trim())
    .filter(Boolean)]; [None] is a variable that is not set. *)
Definition allowedOrigins (CORS_ORIGINS : option string) : list string :=
  filter (fun origin => negb (Str.is_empty origin))
         (map trim (split "," (match CORS_ORIGINS with
                               | Some s => s
                               | None => EmptyString
                               end))).

(** What the callback is called with: [(null, true)] or
    [new Error('Not allowed by CORS')]. *)
Inductive verdict : Type :=
| Allowed
| NotAllowedByCORS.

(** The [origin] function of the options of [cors]; [None] is a request
    without an [Origin] header. *)
Definition origin (allowed : list string) (o : option string) : verdict :=
  match o with
  | None => Allowed
  | Some origin =>
      if Str.is_empty origin then Allowed
      else
        let isLocalhost := Str.starts_with "http://localhost:" origin in
        let isAllowed := existsb (String.eqb origin) allowed in
        if isLocalhost || String.eqb origin "http://localhost:3000" || isAllowed
        then Allowed
        else NotAllowedByCORS
  end.

(** An entry of the allow-list as the parsing gives it back. *)
Definition clean (entry : string) : Prop :=
  entry <> EmptyString /\ trim entry = entry
  /\ Str.exists_char (Ascii.eqb ",") entry = false.

End Cors.

(** ** The import script

    [importData] of the second file gathered in [src/connect.js]: the records
    of [pokemons.json] get the image URLs of the deployed API, the collection
    is cleared and the records are inserted. *)

Module ImportScript.

Definition railwayUrl : string :=
  "https://pokemon-pokedex-production-b5c1.up.railway.app".

Definition localUrl : string := "http://localhost:3000".

(** [s.replace(pattern, replacement)] for a string pattern and a replacement
    without [$]: the first occurrence of the pattern is replaced. *)
Fixpoint replace (pattern replacement s : string) : string :=
  if Str.starts_with pattern s
  then (replacement ++ Str.drop (String.length pattern) s)%string
  else match s with
       | EmptyString => EmptyString
       | String c s' => String c (replace pattern replacement s')
       end.

(** [{ ...poke, image: poke.image.replace(localUrl, railwayUrl) }]; [None]
    when the expression throws: [poke] is [null], or [poke.image] is no
    string and has no [replace]. *)
Definition with_railway_image (poke : json) : option json :=
  match poke with
  | JObj fields =>
      match Json.lookup "image" fields with
      | Some (JStr image) =>
          Some (JObj (Json.assign "image"
                        (fun _ => JStr (replace localUrl railwayUrl image)) fields))
      | _ => None
      end
  | _ => None
  end.

(** [l.map(f)] for an [f] that may throw. *)
Fixpoint map_or_throw (f : json -> option json) (l : list json)
  : option (list json) :=
  match l with
  | [] => Some []
  | x :: l' =>
      match f x with
      | None => None
      | Some y => option_map (cons y) (map_or_throw f l')
      end
  end.

(** [updatedData]; only an array has [map]. *)
Definition updatedData (data : json) : option (list json) :=
  match data with
  | JArr records => map_or_throw with_railway_image records
  | _ => None
  end.

Section Script.

(** [pokemon.insertMany(docs)] on the cleared collection: the documents the
    collection holds afterwards and whether the call returned (the schema
    decides, and it is not in [src]). *)
Variable insertMany : list json -> Store.collection * bool.

(** [importData] on the parsed content of [pokemons.json]: the exit code
    of the process and the collection it leaves. *)
Definition importData (data : json) (db : Store.collection)
  : Z * Store.collection :=
  match updatedData data with
  | None => (1, db)
  | Some docs =>
      let '(stored, returned) := insertMany docs in
      (if returned then 0 else 1, stored)
  end.

End Script.

End ImportScript.

(** ** The validation rules, as the specification words them

    A second reading of the rules of section 4.1 of the specification,
    field by field, to be compared with what the chains of the routes
    record.  A rule speaks of a field that has the JSON type the rule
    gives it: a number for [id] and the statistics, a string for a name,
    an image and a parameter of the path or the query, an array of strings
    for [type].  A field that is there with another type is outside this
    reading ([typed] is then false). *)

Module Rules.

(** A violated field: where it stands, and the message. *)
Definition violation : Type := location * path * string.


Inductive presence : Type := Required | Optional.

Definition missing (pr : presence) : bool :=
  match pr with Required => true | Optional => false end.



Definition within (lo : Z) (hi : option Z) (n : Z) : bool :=
  (lo <=? n) && match hi with Some h => n <=? h | None => true end.

(** The text denotes an integer from [lo] to [hi]. *)
Definition integer_text (lo : Z) (hi : option Z) (s : string) : bool :=
  match Validator.int_literal s with
  | Some n => within lo hi n
  | None => false
  end.

(** Whether the rule is violated: an integer from [lo] to [hi]. *)
Definition number_rule (pr : presence) (lo : Z) (hi : option Z)
           (v : option json) : bool :=
  match v with
  | None => missing pr
  | Some (JNum n) => negb (within lo hi n)
  | Some _ => true
  end.

(** [lo] to [hi] characters once trimmed. *)
Definition text_rule (pr : presence) (lo : Z) (hi : option Z)
           (v : option json) : bool :=
  match v with
  | None => missing pr
  | Some (JStr s) => negb (within lo hi (Str.len (Validator.trim s)))
  | Some _ => true
  end.


(** An array of [lo] to [hi] entries. *)
Definition array_rule (pr : presence) (lo hi : Z) (v : option json) : bool :=
  match v with
  | None => missing pr
  | Some (JArr l) => negb (within lo (Some hi) (Z.of_nat (List.length l)))
  | Some _ => true
  end.

Definition when (violated : bool) (loc : location) (p : path) (msg : string)
  : list violation :=
  if violated then [(loc, p, msg)] else [].

(** Each entry of the array under [k], a text of [lo] to [hi] characters
    once trimmed; the entries are numbered from [i]. *)
Fixpoint entry_rules (k : string) (lo hi : Z) (i : nat) (l : list json)
  : list violation :=
  match l with
  | [] => []
  | x :: l' =>
      when (text_rule Required lo (Some hi) (Some x)) Body [Key k; Idx i]
           "Invalid value"
      ++ entry_rules k lo hi (S i) l'
  end.

Definition entries_rule (k : string) (lo hi : Z) (v : option json)
  : list violation :=
  match v with
  | Some (JArr l) => entry_rules k lo hi 0 l
  | _ => []
  end.

Section Body.

Variable b : json.

Definition name (language : string) : option json :=
  Json.get [Key "name"; Key language] b.

Definition statistic (s : string) : option json :=
  Json.get [Key "base"; Key s] b.

Definition statistics : list string :=
  ["HP"; "Attack"; "Defense"; "SpecialAttack"; "SpecialDefense"; "Speed"].

(** The rules of create and update share these: the names, the type and
    its entries, the six statistics.  [pr] says whether the English name,
    the type and the statistics are required. *)
Definition shared (pr : presence) : list violation :=
  when (text_rule pr 1 (Some 50) (name "english")) Body
       [Key "name"; Key "english"] "Invalid value"
  ++ when (text_rule Optional 0 (Some 50) (name "french")) Body
          [Key "name"; Key "french"] "Invalid value"
  ++ when (text_rule Optional 0 (Some 50) (name "japanese")) Body
          [Key "name"; Key "japanese"] "Invalid value"
  ++ when (text_rule Optional 0 (Some 50) (name "chinese")) Body
          [Key "name"; Key "chinese"] "Invalid value"
  ++ when (array_rule pr 1 2 (Json.get [Key "type"] b)) Body [Key "type"]
          "Invalid value"
  ++ entries_rule "type" 1 20 (Json.get [Key "type"] b)
  ++ flat_map (fun s => when (number_rule pr 1 (Some 255) (statistic s)) Body
                             [Key "base"; Key s] "Invalid value")
              statistics.


(** Update: the [id] of the path a positive integer, the shared rules with
    every field optional, [image] a text that is not empty once trimmed. *)
Definition update (id : string) : list violation :=
  when (negb (integer_text 1 None id)) Params [Key "id"]
       "id must be a positive integer"
  ++ shared Optional
  ++ when (text_rule Optional 1 None (Json.get [Key "image"] b)) Body
          [Key "image"] "Invalid value".





End Body.




End Rules.

(** * Properties *)

(** ** The model on sample inputs *)

Example trim_ex : Validator.trim "  char " = "char". Proof. reflexivity. Qed.
Example isInt_ex : Validator.isInt (Some 1) (Some 100) "007" = true. Proof. reflexivity. Qed.
Example parseInt_ex : JS.parseInt " -0x1F" = Some (-31). Proof. reflexivity. Qed.

Example get_ex :
  Json.get [Key "name"; Key "english"]
    (JObj [("id", JNum 4); ("name", JObj [("english", JStr "Charmander")])])
  = Some (JStr "Charmander").
Proof. reflexivity. Qed.

Example set_ex :
  Json.set [Key "name"; Key "english"] (JStr "") (JObj [("id", JNum 4)])
  = JObj [("id", JNum 4); ("name", JObj [("english", JStr "")])].
Proof. reflexivity. Qed.

Example js_string_ex :
  Json.js_string (JArr [JNum 1; JNull; JStr "a"; JArr [JNum (-2); JNum 3]]) = "1,,a,-2,3".
Proof. reflexivity. Qed.

Example parse_char : RegExp.parse "char"
  = RegExp.Parsed (RegExp.Seq (RegExp.Chr "c") (RegExp.Seq (RegExp.Chr "h")
      (RegExp.Seq (RegExp.Chr "a") (RegExp.Seq (RegExp.Chr "r") RegExp.Eps)))).
Proof. reflexivity. Qed.

Example parse_open : RegExp.parse "(" = RegExp.SyntaxError.
Proof. reflexivity. Qed.

Example parse_star : RegExp.parse "*a" = RegExp.SyntaxError.
Proof. reflexivity. Qed.

Example parse_class : RegExp.parse "[a-z]" = RegExp.Outside.
Proof. reflexivity. Qed.

Example test_group :
  match RegExp.parse "(bulba|ivy)sau+r?" with
  | RegExp.Parsed r =>
      (RegExp.test r "Ivysaur", RegExp.test r "BULBASAUUU", RegExp.test r "Venusaur")
  | _ => (false, false, false)
  end = (true, true, false).
Proof. vm_compute. reflexivity. Qed.

(** ** Integer literals and [parseInt] *)

Lemma digit_not_space c : Str.is_digit c = true -> Str.is_space c = false.
Proof.
  unfold Str.is_digit, Str.is_space. intros H.
  apply andb_true_iff in H as [H1 H2].
  apply Z.leb_le in H1. apply Z.leb_le in H2.
  apply orb_false_iff; split; [apply orb_false_iff; split|].
  - apply andb_false_iff. right. apply Z.leb_gt. lia.
  - apply Z.eqb_neq. lia.
  - apply Z.eqb_neq. lia.
Qed.

(** ** Doubles *)

Lemma round_magnitude_safe m :
  0 <= m <= JS.max_safe -> JS.round_magnitude m = m.
Proof.
  intros [H0 H]. unfold JS.max_safe in H.
  destruct (Z.eq_dec m 9007199254740992) as [->|Hne]; [reflexivity|].
  unfold JS.round_magnitude.
  destruct (Z.eq_dec m 0) as [->|Hz]; [reflexivity|].
  assert (Hlog : Z.log2 m < 53).
  { apply Z.log2_lt_pow2; [lia|]. change (2 ^ 53) with 9007199254740992. lia. }
  destruct (Z.leb_spec (Z.log2 m - 52) 0); [reflexivity|lia].
Qed.

Lemma round_safe n : JS.safe n -> JS.round n = n.
Proof.
  unfold JS.safe, JS.round. intros H.
  rewrite round_magnitude_safe by (split; [apply Z.abs_nonneg|exact H]).
  rewrite Z.mul_comm. apply Z.abs_sgn.
Qed.

Lemma safe_between n : 0 <= n <= JS.max_safe -> JS.safe n.
Proof. unfold JS.safe. intros H. rewrite Z.abs_eq; lia. Qed.

Lemma round_between n : 0 <= n <= JS.max_safe -> JS.round n = n.
Proof. intros H. apply round_safe, safe_between, H. Qed.

Lemma round_magnitude_lower m :
  0 <= m ->
  0 <= JS.round_magnitude m
  /\ (1 <= m -> 1 <= JS.round_magnitude m)
  /\ (JS.max_safe < m -> JS.max_safe <= JS.round_magnitude m).
Proof.
  intros H0. unfold JS.round_magnitude, JS.max_safe.
  destruct (Z.leb_spec (Z.log2 m - 52) 0) as [_|He]; [lia|].
  set (e := Z.log2 m - 52) in *.
  assert (Hm : 0 < m) by (destruct (Z.eq_dec m 0) as [->|]; [discriminate He|lia]).
  assert (Hp : 1 <= 2 ^ (e - 1)).
  { assert (0 < 2 ^ (e - 1)) by (apply Z.pow_pos_nonneg; lia). lia. }
  assert (He2 : 2 ^ e = 2 * 2 ^ (e - 1)).
  { replace e with (Z.succ (e - 1)) at 1 by lia. apply Z.pow_succ_r. lia. }
  assert (Hq : 4503599627370496 <= Z.shiftr m e).
  { rewrite Z.shiftr_div_pow2 by lia.
    apply Z.div_le_lower_bound; [lia|].
    assert (Hl : 2 ^ Z.log2 m <= m) by (apply Z.log2_spec; lia).
    replace (Z.log2 m) with (52 + e) in Hl by (unfold e; lia).
    rewrite Z.pow_add_r in Hl by lia.
    change (2 ^ 52) with 4503599627370496 in Hl. lia. }
  destruct ((Z.shiftl 1 (e - 1) <? m - Z.shiftl (Z.shiftr m e) e)
            || ((m - Z.shiftl (Z.shiftr m e) e =? Z.shiftl 1 (e - 1))
                && Z.odd (Z.shiftr m e)));
    rewrite Z.shiftl_mul_pow2 by lia; nia.
Qed.

Lemma round_positive n : 1 <= n -> 1 <= JS.round n.
Proof.
  intros H. unfold JS.round.
  rewrite Z.sgn_pos, Z.abs_eq, Z.mul_1_l by lia.
  apply round_magnitude_lower; lia.
Qed.

Lemma round_nonpositive n : n <= 0 -> JS.round n <= 0.
Proof.
  intros H. unfold JS.round.
  pose proof (round_magnitude_lower (Z.abs n) (Z.abs_nonneg n)) as (Hm & _ & _).
  destruct (Z.eq_dec n 0) as [->|Hn]; [reflexivity|].
  rewrite Z.sgn_neg by lia. lia.
Qed.

(** A double below [2^53] in absolute value is the double of itself
    only. *)
Lemma round_below n : Z.abs (JS.round n) < JS.max_safe -> JS.round n = n.
Proof.
  intros H. apply round_safe. unfold JS.safe.
  destruct (Z.le_gt_cases (Z.abs n) JS.max_safe) as [Hle|Hgt]; [exact Hle|].
  exfalso. unfold JS.round in H.
  pose proof (round_magnitude_lower (Z.abs n) (Z.abs_nonneg n)) as (Hm & _ & Hbig).
  specialize (Hbig Hgt).
  rewrite Z.abs_mul, (Z.abs_eq (JS.round_magnitude _)) in H by exact Hm.
  assert (Hs : Z.abs (Z.sgn n) = 1).
  { unfold JS.max_safe in Hgt. destruct n; [discriminate Hgt|reflexivity|reflexivity]. }
  rewrite Hs in H. lia.
Qed.

Lemma digit_not_char c d :
  Str.is_digit d = false -> Str.is_digit c = true -> Ascii.eqb c d = false.
Proof.
  intros Hd Hc. destruct (Ascii.eqb_spec c d) as [->|]; congruence.
Qed.

Lemma digits_prefix_digits d a :
  Str.forall_char Str.is_digit d = true ->
  JS.digits_prefix 10 JS.dec_value (Some a) d = Some (Validator.digits_value a d).
Proof.
  revert a. induction d as [|c d IH]; intros a H; simpl in *.
  - reflexivity.
  - apply andb_true_iff in H as [Hc Hd].
    unfold JS.dec_value. rewrite Hc. apply IH, Hd.
Qed.

Lemma digits_no_hex_prefix x u :
  Str.is_digit x = false ->
  Str.forall_char Str.is_digit u = true ->
  Str.starts_with (String "0" (String x EmptyString)) u = false.
Proof.
  intros Hx Hu. destruct u as [|c [|b d]]; simpl.
  - reflexivity.
  - apply andb_false_r.
  - simpl in Hu. apply andb_true_iff in Hu as [_ Hu].
    apply andb_true_iff in Hu as [Hb _].
    rewrite (Ascii.eqb_sym x b), (digit_not_char b x Hx Hb).
    apply andb_false_r.
Qed.

Lemma magnitude_unsigned d n :
  Validator.unsigned_literal d = Some n -> JS.magnitude d = Some n.
Proof.
  unfold Validator.unsigned_literal, JS.magnitude.
  destruct (Str.forall_char Str.is_digit d) eqn:Hd;
    [|rewrite andb_false_r; discriminate].
  rewrite !digits_no_hex_prefix by (reflexivity || assumption).
  destruct d as [|c d]; [discriminate|]. simpl in *.
  intros [= <-].
  apply andb_true_iff in Hd as [Hc Hd].
  unfold JS.dec_value at 1. rewrite Hc.
  now rewrite digits_prefix_digits.
Qed.

Lemma unsigned_literal_first c d n :
  Validator.unsigned_literal (String c d) = Some n -> Str.is_digit c = true.
Proof.
  unfold Validator.unsigned_literal. simpl.
  destruct (Str.is_digit c); [reflexivity|discriminate].
Qed.

(** On an integer literal [parseInt] gives the double nearest to the
    number [isInt] compares. *)
Lemma parseInt_literal s n :
  Validator.int_literal s = Some n -> JS.parseInt s = Some (JS.round n).
Proof.
  destruct s as [|c d]; [discriminate|].
  unfold Validator.int_literal, JS.parseInt.
  destruct (Ascii.eqb_spec c "+") as [->|Hplus].
  - intros H. simpl. rewrite (magnitude_unsigned _ _ H). cbn [option_map].
    destruct n; reflexivity.
  - destruct (Ascii.eqb_spec c "-") as [->|Hminus].
    + destruct (Validator.unsigned_literal d) as [m|] eqn:Hm; [|discriminate].
      intros [= <-]. simpl. rewrite (magnitude_unsigned _ _ Hm). cbn [option_map].
      destruct m; reflexivity.
    + intros H. pose proof (unsigned_literal_first _ _ _ H) as Hc.
      simpl. rewrite (digit_not_space _ Hc).
      unfold JS.sign_and_rest.
      destruct (Ascii.eqb_spec c "-") as [|_]; [contradiction|].
      destruct (Ascii.eqb_spec c "+") as [|_]; [contradiction|].
      rewrite (magnitude_unsigned _ _ H). cbn [option_map].
      destruct n; reflexivity.
Qed.

Lemma parseInt_or_literal s n d :
  Validator.int_literal s = Some n -> 1 <= n ->
  JS.parseInt_or (Some s) d = JS.round n.
Proof.
  intros H Hn. unfold JS.parseInt_or. rewrite (parseInt_literal _ _ H).
  pose proof (round_positive n Hn) as Hr.
  destruct (JS.round n); [lia| |]; reflexivity.
Qed.

Lemma isInt_spec omin omax s :
  Validator.isInt omin omax s = true <->
  exists n, Validator.int_literal s = Some n
            /\ match omin with Some m => m <= n | None => True end
            /\ match omax with Some m => n <= m | None => True end.
Proof.
  unfold Validator.isInt. destruct (Validator.int_literal s) as [v|].
  - rewrite andb_true_iff. split.
    + intros [H1 H2]. exists v. split; [reflexivity|].
      destruct omin, omax; repeat split; try apply Z.leb_le; auto.
    + intros (n & [= <-] & H1 & H2).
      destruct omin, omax; repeat split; try apply Z.leb_le; auto.
  - split; [discriminate|]. intros (n & H & _). discriminate.
Qed.

(** *** Decimal numerals *)

Lemma digits_value_uint d : forall d',
  Validator.digits_value (Z.of_N (Unsigned.of_lu d')) (NilEmpty.string_of_uint d)
  = Z.of_N (Unsigned.of_lu (Decimal.revapp d d')).
Proof.
  induction d; intros d';
    cbn [NilEmpty.string_of_uint Validator.digits_value Decimal.revapp];
    try reflexivity;
    rewrite <- IHd; f_equal; cbn [Unsigned.of_lu];
    unfold Str.digit_value, Str.code; cbn [N_of_ascii N_of_digits]; lia.
Qed.

Lemma uint_digits d : Str.forall_char Str.is_digit (NilEmpty.string_of_uint d) = true.
Proof. induction d; cbn [NilEmpty.string_of_uint Str.forall_char]; auto. Qed.

Lemma unsigned_literal_uint d :
  d <> Decimal.Nil ->
  Validator.unsigned_literal (NilEmpty.string_of_uint d) = Some (Z.of_N (Pos.of_uint d)).
Proof.
  intros Hd. unfold Validator.unsigned_literal. rewrite uint_digits.
  replace (Str.is_empty (NilEmpty.string_of_uint d)) with false
    by (destruct d; try reflexivity; contradiction).
  cbn [negb andb]. f_equal.
  rewrite Unsigned.of_uint_alt.
  exact (digits_value_uint d Decimal.Nil).
Qed.

(** The decimal numeral of a natural number is an integer literal of that
    value. *)
Lemma int_literal_string_of_Z n :
  0 <= n -> Validator.int_literal (Json.string_of_Z n) = Some n.
Proof.
  destruct n as [|p|p]; intros Hn; [reflexivity| |lia].
  unfold Json.string_of_Z. cbn [Z.to_int NilZero.string_of_int].
  pose proof (Unsigned.to_uint_nonnil p) as Hnil.
  pose proof (unsigned_literal_uint (Pos.to_uint p) Hnil) as Hlit.
  rewrite Unsigned.of_to in Hlit. cbn [Z.of_N] in Hlit.
  replace (NilZero.string_of_uint (Pos.to_uint p))
    with (NilEmpty.string_of_uint (Pos.to_uint p))
    by (destruct (Pos.to_uint p); try reflexivity; contradiction).
  destruct (NilEmpty.string_of_uint (Pos.to_uint p)) as [|c d] eqn:Hs;
    [discriminate|].
  pose proof (unsigned_literal_first c d (Z.pos p) Hlit) as Hc.
  unfold Validator.int_literal.
  rewrite (digit_not_char c "+" eq_refl Hc), (digit_not_char c "-" eq_refl Hc).
  exact Hlit.
Qed.

(** ** Reading and writing properties *)

Lemma lookup_assign_same k f fs :
  Json.lookup k (Json.assign k f fs) = Some (f (Json.lookup k fs)).
Proof.
  induction fs as [|[k' v] fs IH]; simpl.
  - now rewrite String.eqb_refl.
  - destruct (String.eqb k k') eqn:Hk; simpl; rewrite Hk; auto.
Qed.

Lemma lookup_assign_other k k' f fs :
  k <> k' -> Json.lookup k' (Json.assign k f fs) = Json.lookup k' fs.
Proof.
  intros Hne. induction fs as [|[k0 v] fs IH]; simpl.
  - destruct (String.eqb_spec k' k); [congruence|reflexivity].
  - destruct (String.eqb_spec k k0) as [->|]; simpl.
    + destruct (String.eqb_spec k' k0); [congruence|reflexivity].
    + now rewrite IH.
Qed.

Lemma nth_assign_index_same i f l :
  nth_error (Json.assign_index i f l) i = Some (f (nth_error l i)).
Proof.
  revert l. induction i as [|i IH]; intros [|x l]; simpl; auto.
  rewrite IH. now destruct i.
Qed.

(** A write below the key [k] leaves every other key of the object. *)
Lemma prop_set_other k f p v o :
  f <> k ->
  Json.prop (Key f) (Json.set (Key k :: p) v o) = Json.prop (Key f) o.
Proof.
  intros Hne. destruct o; simpl; try reflexivity.
  apply lookup_assign_other. congruence.
Qed.

(** Reading back a write to a path that was there. *)
Lemma get_set_same p v o :
  Json.get p o <> None -> Json.get p (Json.set p v o) = Some v.
Proof.
  revert o. induction p as [|s p IH]; intros o H; [reflexivity|].
  cbn [Json.get] in H.
  destruct (Json.prop s o) as [w|] eqn:Hw; [|contradiction].
  assert (Hin : Json.get p
            (Json.set p v
               (if Json.is_object (Some w) then w else Json.fresh p)) = Some v).
  { destruct (Json.is_object (Some w)) eqn:Hobj; [now apply IH|].
    destruct p as [|s' p]; [reflexivity|].
    exfalso. apply H. cbn [Json.get].
    destruct s', w; simpl in *; congruence. }
  destruct s as [k|i], o; simpl in Hw; try discriminate; cbn [Json.set Json.get Json.prop].
  - rewrite lookup_assign_same, Hw. exact Hin.
  - rewrite nth_assign_index_same, Hw. exact Hin.
Qed.


(** ** Validation chains *)

Section ChainFacts.

Import ExpressValidator.

Lemma at_with_same l v r : at_location l (with_location l v r) = v.
Proof. now destruct l. Qed.

Lemma at_with_other l l' v r :
  l <> l' -> at_location l' (with_location l v r) = at_location l' r.
Proof. destruct l, l'; intros H; try reflexivity; contradiction. Qed.

Lemma run_item_path loc it i : inst_path (fst (run_item loc it i)) = inst_path i.
Proof. now destruct it. Qed.


Lemma write_back_other loc loc' i r :
  loc <> loc' -> at_location loc' (write_back loc i r) = at_location loc' r.
Proof.
  intros H. unfold write_back. destruct (inst_value i); [|reflexivity].
  now apply at_with_other.
Qed.

Lemma write_back_frame loc k f i r :
  below k i -> f <> k ->
  Json.prop (Key f) (at_location loc (write_back loc i r))
  = Json.prop (Key f) (at_location loc r).
Proof.
  intros [p Hp] Hne. unfold write_back. destruct (inst_value i); [|reflexivity].
  rewrite at_with_same, Hp. now apply prop_set_other.
Qed.


Lemma fold_write_back_other loc loc' insts r :
  loc <> loc' ->
  at_location loc' (fold_left (fun acc i => write_back loc i acc) insts r)
  = at_location loc' r.
Proof.
  intros H. revert r.
  induction insts as [|i insts IH]; intros r; cbn [fold_left]; auto.
  rewrite IH. now apply write_back_other.
Qed.

Lemma fold_write_back_frame loc k f insts r :
  Forall (below k) insts -> f <> k ->
  Json.prop (Key f)
    (at_location loc (fold_left (fun acc i => write_back loc i acc) insts r))
  = Json.prop (Key f) (at_location loc r).
Proof.
  intros Hall Hne. revert r.
  induction Hall as [|i insts Hi _ IH]; intros r; cbn [fold_left]; auto.
  rewrite IH. now apply write_back_frame with (k := k).
Qed.


Lemma step_below loc opt it st k :
  Forall (below k) (st_instances st) ->
  Forall (below k) (st_instances (step loc opt st it)).
Proof.
  destruct st as [[r insts] errs]. unfold st_instances. simpl.
  intros Hall. rewrite map_map. apply Forall_map.
  eapply Forall_impl; [|exact Hall].
  intros i [p Hp]. exists p.
  destruct (required opt i); simpl; [now rewrite run_item_path|exact Hp].
Qed.

Lemma step_frame loc opt it st k f :
  Forall (below k) (st_instances st) -> f <> k ->
  Json.prop (Key f) (at_location loc (st_request (step loc opt st it)))
  = Json.prop (Key f) (at_location loc (st_request st)).
Proof.
  intros Hall Hne. pose proof (step_below loc opt it st k Hall) as Hall'.
  destruct st as [[r insts] errs].
  unfold st_request, st_instances in *. simpl in *.
  destruct (is_sanitizer it); simpl; [|reflexivity].
  now apply fold_write_back_frame with (k := k).
Qed.

Lemma step_other loc loc' opt it st :
  loc <> loc' ->
  at_location loc' (st_request (step loc opt st it))
  = at_location loc' (st_request st).
Proof.
  intros Hne. destruct st as [[r insts] errs]. unfold st_request. simpl.
  destruct (is_sanitizer it); simpl; [|reflexivity].
  now apply fold_write_back_other.
Qed.

Lemma steps_frame loc opt stack st k f :
  Forall (below k) (st_instances st) -> f <> k ->
  Json.prop (Key f)
    (at_location loc (st_request (fold_left (step loc opt) stack st)))
  = Json.prop (Key f) (at_location loc (st_request st)).
Proof.
  intros Hall Hne. revert st Hall.
  induction stack as [|it stack IH]; intros st Hall; cbn [fold_left]; auto.
  rewrite IH by now apply step_below.
  now apply step_frame with (k := k).
Qed.

Lemma steps_other loc loc' opt stack st :
  loc <> loc' ->
  at_location loc' (st_request (fold_left (step loc opt) stack st))
  = at_location loc' (st_request st).
Proof.
  intros Hne. revert st.
  induction stack as [|it stack IH]; intros st; cbn [fold_left]; auto.
  rewrite IH. now apply step_other.
Qed.

Lemma run_chain_unfold c r :
  run_chain c r =
  (let st := fold_left (step (chain_location c) (chain_optional c)) (chain_stack c)
               (r, select (at_location (chain_location c) r) (chain_field c), []) in
   (st_request st, st_errors st)).
Proof.
  unfold run_chain.
  destruct (fold_left _ _ _) as [[r' insts] errs]. reflexivity.
Qed.

Lemma expand_prefix root f : forall prefix p,
  In p (expand root prefix f) -> exists q, p = prefix ++ q.
Proof.
  induction f as [|[k|] f IH]; intros prefix p Hin; simpl in Hin.
  - destruct Hin as [<-|[]]. exists []. now rewrite app_nil_r.
  - apply IH in Hin as [q ->]. exists (Key k :: q). now rewrite <- app_assoc.
  - apply in_flat_map in Hin as (s & _ & Hin).
    apply IH in Hin as [q ->]. exists (s :: q). now rewrite <- app_assoc.
Qed.

Lemma select_below root k f : Forall (below k) (select root (FKey k :: f)).
Proof.
  unfold select. apply Forall_map, Forall_forall. intros p Hin.
  simpl in Hin. apply expand_prefix in Hin as [q ->]. now exists q.
Qed.


(** A chain on a field below [k] leaves the other top-level keys of its
    location, and the other locations. *)
Lemma run_chain_frame c r k rest f :
  chain_field c = FKey k :: rest -> f <> k ->
  Json.prop (Key f) (at_location (chain_location c) (fst (run_chain c r)))
  = Json.prop (Key f) (at_location (chain_location c) r).
Proof.
  intros Hf Hne. rewrite run_chain_unfold. cbn [fst].
  rewrite steps_frame with (k := k); auto.
  unfold st_instances. simpl. rewrite Hf. apply select_below.
Qed.

Lemma run_chain_other c r loc' :
  chain_location c <> loc' ->
  at_location loc' (fst (run_chain c r)) = at_location loc' r.
Proof.
  intros Hne. rewrite run_chain_unfold. cbn [fst].
  now rewrite steps_other.
Qed.







End ChainFacts.

(** ** The list route *)

Section ListFacts.

Import ExpressValidator.

(** A chain with one standard validator on a top-level key. *)
Lemma run_chain_validator loc k opt f msg r :
  run_chain (Chain loc [FKey k] opt [Standard f msg]) r
  = (r, let v := Json.get [Key k] (at_location loc r) in
        if required opt (Instance [Key k] v)
        then flat_map (fun x => if f (to_string x) then []
                                else [VError loc [Key k] x msg])
                      (values_of v)
        else []).
Proof.
  unfold run_chain, select. cbn [chain_location chain_field chain_optional chain_stack
    expand app map fold_left step is_sanitizer].
  destruct (required opt _); cbn [fst snd map flat_map app run_item inst_value inst_path];
    now rewrite ?app_nil_r.
Qed.

Lemma list_validators_eq :
  list_validators
  = [Chain Query [FKey "page"] true
       [Standard (Validator.isInt (Some 1) None) "page must be >= 1"];
     Chain Query [FKey "limit"] true
       [Standard (Validator.isInt (Some 1) (Some 100))
          "limit must be between 1 and 100"]].
Proof. reflexivity. Qed.

(** The errors of a chain of the list route on a parameter that is absent
    or a string. *)
Lemma query_chain_errors k f msg r (v : option string) :
  Json.get [Key k] (req_query r) = option_map JStr v ->
  run_chain (Chain Query [FKey k] true [Standard f msg]) r
  = (r, match v with
        | None => []
        | Some s => if f s then [] else [VError Query [Key k] (Some (JStr s)) msg]
        end).
Proof.
  intros H. rewrite run_chain_validator. cbn [at_location]. rewrite H.
  destruct v as [s|]; cbn; [|reflexivity].
  destruct (f s); reflexivity.
Qed.

Lemma list_validation r (page limit : option string) :
  Json.get [Key "page"] (req_query r) = option_map JStr page ->
  Json.get [Key "limit"] (req_query r) = option_map JStr limit ->
  run_chains list_validators r
  = (r, match page with
        | None => []
        | Some s => if Validator.isInt (Some 1) None s then []
                    else [VError Query [Key "page"] (Some (JStr s)) "page must be >= 1"]
        end ++
        match limit with
        | None => []
        | Some s => if Validator.isInt (Some 1) (Some 100) s then []
                    else [VError Query [Key "limit"] (Some (JStr s))
                                 "limit must be between 1 and 100"]
        end).
Proof.
  intros Hp Hl. rewrite list_validators_eq. cbn [run_chains].
  rewrite (query_chain_errors _ _ _ _ _ Hp), (query_chain_errors _ _ _ _ _ Hl).
  now rewrite app_nil_r.
Qed.

End ListFacts.

Lemma ceil_div_bounds a b :
  0 < b -> (ceil_div a b - 1) * b < a <= ceil_div a b * b.
Proof.
  intros Hb. unfold ceil_div.
  pose proof (Z.mul_div_le (- a) b Hb).
  pose proof (Z.mul_succ_div_gt (- a) b Hb).
  nia.
Qed.

Lemma find_page_length skip limit db :
  0 <= limit -> Z.of_nat (List.length (Store.find_page skip limit db)) <= limit.
Proof.
  intros H. unfold Store.find_page.
  pose proof (firstn_le_length (Z.to_nat limit) (skipn (Z.to_nat skip) db)). lia.
Qed.

Lemma query_number_string k d req n :
  query_number k d req = Some n ->
  exists v : option string,
    Json.get [Key k] (req_query req) = option_map JStr v
    /\ match v with
       | None => n = d
       | Some s => exists m, Validator.int_literal s = Some m /\ n = JS.round m
       end.
Proof.
  unfold query_number.
  destruct (Json.get [Key k] (req_query req)) as [[| | |s| |]|]; try discriminate.
  - destruct (Validator.int_literal s) as [m|] eqn:Hm; [|discriminate].
    intros [= <-]. exists (Some s). split; [reflexivity|]. now exists m.
  - intros [= <-]. now exists None.
Qed.

Lemma round_at_least_one m : 1 <= JS.round m -> 1 <= m.
Proof.
  intros H. destruct (Z.le_gt_cases m 0) as [Hm|Hm]; [|lia].
  pose proof (round_nonpositive m Hm). lia.
Qed.

Lemma parseInt_or_query k d req n :
  query_number k d req = Some n -> 1 <= n ->
  JS.parseInt_or (option_map Json.js_string (Json.get [Key k] (req_query req))) d = n.
Proof.
  intros H Hn. apply query_number_string in H as ([s|] & -> & Hv); simpl.
  - destruct Hv as (m & Hm & ->). apply parseInt_or_literal; [exact Hm|].
    now apply round_at_least_one.
  - subst. unfold JS.parseInt_or. reflexivity.
Qed.

(** What the list route answers to a request whose parameters pass: the
    numbers are those of [parseInt], and the documents to skip are counted
    on doubles. *)
Lemma list_route_doubles req db page limit :
  query_number "page" 1 req = Some page ->
  query_number "limit" 20 req = Some limit ->
  1 <= page -> 1 <= limit <= 100 ->
  GET_pokemons req db
  = (Response 200 (Page (Store.find_page (JS.mul (JS.sub page 1) limit) limit db)
                        page
                        (ceil_div (Store.countDocuments db) limit)
                        (Store.countDocuments db) limit),
     db, [Store.Find (JS.mul (JS.sub page 1) limit) limit; Store.CountDocuments]).
Proof.
  intros Hp Hl Hpage Hlimit.
  destruct (query_number_string _ _ _ _ Hp) as (vp & Hvp & Hpv).
  destruct (query_number_string _ _ _ _ Hl) as (vl & Hvl & Hlv).
  unfold GET_pokemons, serve. rewrite (list_validation _ _ _ Hvp Hvl).
  assert (Hno : forall omax (v : option string) n msg k,
             match v with None => True | Some s => Validator.int_literal s = Some n end ->
             1 <= n -> match omax with Some m => n <= m | None => True end ->
             match v with
             | None => []
             | Some s => if Validator.isInt (Some 1) omax s then []
                         else [ExpressValidator.VError Query [Key k] (Some (JStr s)) msg]
             end = []).
  { intros omax [s|] n msg k Hs H1 H2; [|reflexivity].
    replace (Validator.isInt (Some 1) omax s) with true; [reflexivity|].
    symmetry. apply isInt_spec. exists n. auto. }
  assert (Hvp' : exists mp,
             match vp with None => True | Some s => Validator.int_literal s = Some mp end
             /\ 1 <= mp).
  { destruct vp as [s|]; [|exists 1; split; [exact I|lia]].
    destruct Hpv as (m & Hm & ->). exists m. split; [exact Hm|].
    now apply round_at_least_one. }
  assert (Hvl' : exists ml,
             match vl with None => True | Some s => Validator.int_literal s = Some ml end
             /\ 1 <= ml <= 100).
  { destruct vl as [s|]; [|exists 1; split; [exact I|lia]].
    destruct Hlv as (m & Hm & Hr). exists m. split; [exact Hm|].
    assert (JS.round m = m) as Heq.
    { apply round_below. rewrite <- Hr. unfold JS.max_safe. lia. }
    lia. }
  destruct Hvp' as (mp & Hmp & Hmp1). destruct Hvl' as (ml & Hml & Hml1).
  rewrite (Hno None vp mp), (Hno (Some 100) vl ml); auto; try lia.
  cbn [app handleValidation]. unfold list_handler.
  rewrite (parseInt_or_query _ _ _ _ Hp), (parseInt_or_query _ _ _ _ Hl) by lia.
  reflexivity.
Qed.

(** Up to [2^53] the doubles are the integers. *)
Lemma list_route_accepted req db page limit :
  query_number "page" 1 req = Some page ->
  query_number "limit" 20 req = Some limit ->
  1 <= page -> 1 <= limit <= 100 ->
  page * limit <= JS.max_safe ->
  GET_pokemons req db
  = (Response 200 (Page (Store.find_page ((page - 1) * limit) limit db) page
                        (ceil_div (Store.countDocuments db) limit)
                        (Store.countDocuments db) limit),
     db, [Store.Find ((page - 1) * limit) limit; Store.CountDocuments]).
Proof.
  intros Hp Hl Hpage Hlimit Hsafe.
  rewrite (list_route_doubles req db page limit Hp Hl Hpage Hlimit).
  unfold JS.mul, JS.sub.
  rewrite (round_between (page - 1)) by (unfold JS.max_safe in *; nia).
  rewrite (round_between ((page - 1) * limit)) by (unfold JS.max_safe in *; nia).
  reflexivity.
Qed.

Lemma find_page_beyond skip limit db :
  Z.of_nat (List.length db) <= skip -> Store.find_page skip limit db = [].
Proof.
  intros H. unfold Store.find_page.
  rewrite skipn_all2 by lia. apply firstn_nil.
Qed.

Lemma query_number_numeral k d n params query :
  0 <= n <= JS.max_safe ->
  query_number k d (get_request params ((k, Json.string_of_Z n) :: query)) = Some n.
Proof.
  intros Hn. unfold query_number, get_request.
  cbn [req_query map fst snd Json.get Json.prop Json.lookup].
  rewrite String.eqb_refl, int_literal_string_of_Z by lia.
  cbn [option_map]. now rewrite round_between.
Qed.

Lemma query_number_skip k k' d v params query :
  k <> k' ->
  query_number k d (get_request params ((k', v) :: query))
  = query_number k d (get_request params query).
Proof.
  intros Hne. unfold query_number, get_request.
  cbn [req_query map fst snd Json.get Json.prop Json.lookup].
  destruct (String.eqb_spec k k'); [contradiction|reflexivity].
Qed.

(** C4. For every page >= 1 and limit in [1,100] with [page * limit] at
    most [2^53], the list route, on the request
    [?page=<page>&limit=<limit>] and on any request whose parameters,
    supplied as integer literals or left to their defaults, denote these
    numbers, skips exactly [(page-1)*limit] documents, returns at most
    [limit] of them, and reports the pagination summary [currentPage],
    [totalPages], [totalPokemons], [pokemonsPerPage], in which
    [totalPages] is the ceiling of [total/limit]: the one integer [n] with
    [(n-1)*limit < total <= n*limit]. *)
Theorem list_pagination :
  forall (db : Store.collection) (page limit : Z),
    1 <= page -> 1 <= limit <= 100 -> page * limit <= JS.max_safe ->
    exists data totalPages total,
      data = firstn (Z.to_nat limit) (skipn (Z.to_nat ((page - 1) * limit)) db)
      /\ Z.of_nat (List.length data) <= limit
      /\ total = Z.of_nat (List.length db)
      /\ (totalPages - 1) * limit < total <= totalPages * limit
      /\ (forall req,
            query_number "page" 1 req = Some page ->
            query_number "limit" 20 req = Some limit ->
            GET_pokemons req db
            = (Response 200 (Page data page totalPages total limit), db,
               [Store.Find ((page - 1) * limit) limit; Store.CountDocuments]))
      /\ GET_pokemons
           (get_request [] [("page", Json.string_of_Z page);
                            ("limit", Json.string_of_Z limit)]) db
         = (Response 200 (Page data page totalPages total limit), db,
            [Store.Find ((page - 1) * limit) limit; Store.CountDocuments]).
Proof.
  intros db page limit Hpage Hlimit Hsafe.
  assert (Hp : page <= JS.max_safe) by nia.
  exists (Store.find_page ((page - 1) * limit) limit db),
         (ceil_div (Store.countDocuments db) limit),
         (Store.countDocuments db).
  split; [reflexivity|].
  split; [apply find_page_length; lia|].
  split; [reflexivity|].
  split; [apply ceil_div_bounds; lia|].
  split.
  - intros req Hqp Hql. now apply list_route_accepted.
  - apply list_route_accepted; auto.
    + apply query_number_numeral. lia.
    + rewrite query_number_skip by discriminate.
      apply query_number_numeral. unfold JS.max_safe. lia.
Qed.

Lemma list_pagination_witness :
  exists data totalPages total,
    data = [pikachu]
    /\ Z.of_nat (List.length data) <= 2
    /\ total = 3
    /\ (totalPages - 1) * 2 < total <= totalPages * 2
    /\ (forall req,
          query_number "page" 1 req = Some 2 ->
          query_number "limit" 20 req = Some 2 ->
          GET_pokemons req pokedex
          = (Response 200 (Page data 2 totalPages total 2), pokedex,
             [Store.Find 2 2; Store.CountDocuments]))
    /\ GET_pokemons (get_request [] [("page", "2"); ("limit", "2")]) pokedex
       = (Response 200 (Page data 2 totalPages total 2), pokedex,
          [Store.Find 2 2; Store.CountDocuments]).
Proof.
  exact (list_pagination pokedex 2 2 ltac:(lia) ltac:(lia)
           ltac:(vm_compute; discriminate)).
Defined.

(** C4, beyond [2^53]. A page is read by [parseInt], which gives a double:
    the request [?page=9007199254740993&limit=1] is served as page
    9007199254740992, and 9007199254740991 documents are skipped, not the
    9007199254740992 that [(page-1)*limit] is. *)
Lemma list_rounded_page_counterexample :
  1 <= 9007199254740993
  /\ GET_pokemons
       (get_request [] [("page", "9007199254740993"); ("limit", "1")]) pokedex
     = (Response 200 (Page [] 9007199254740992 3 3 1), pokedex,
        [Store.Find 9007199254740991 1; Store.CountDocuments])
  /\ (9007199254740993 - 1) * 1 = 9007199254740992.
Proof.
  split; [lia|]. split; [|reflexivity].
  rewrite (list_route_doubles _ pokedex 9007199254740992 1);
    [|vm_compute; reflexivity|vm_compute; reflexivity|lia|lia].
  change (JS.mul (JS.sub 9007199254740992 1) 1) with 9007199254740991.
  rewrite find_page_beyond by (change (List.length pokedex) with 3%nat; lia).
  reflexivity.
Qed.

(** C5. In the list route [page] and [limit] are optional: a request is
    accepted exactly when [page], if supplied, is an integer literal of
    value at least 1 and [limit], if supplied, is one of value 1 to 100; an
    accepted request is served with page 1 when [page] is absent and 20
    documents per page when [limit] is absent (the response is given for
    the pages with [page * limit] at most [2^53], where the numbers of the
    route are exact); any other request, and [limit=0] in particular, is
    answered 400. *)
Theorem list_parameters :
  forall (req : request) (db : Store.collection) (page limit : option string),
    Json.get [Key "page"] (req_query req) = option_map JStr page ->
    Json.get [Key "limit"] (req_query req) = option_map JStr limit ->
    let accepted := snd (ExpressValidator.run_chains list_validators req) = [] in
    (accepted <->
       match page with
       | None => True
       | Some s => exists n, Validator.int_literal s = Some n /\ 1 <= n
       end
       /\ match limit with
          | None => True
          | Some s => exists n, Validator.int_literal s = Some n /\ 1 <= n <= 100
          end)
    /\ (accepted ->
        exists p l,
          query_number "page" 1 req = Some p
          /\ query_number "limit" 20 req = Some l
          /\ 1 <= p /\ 1 <= l <= 100
          /\ (page = None -> p = 1)
          /\ (limit = None -> l = 20)
          /\ (p * l <= JS.max_safe ->
              exists data totalPages total,
                GET_pokemons req db
                = (Response 200 (Page data p totalPages total l), db,
                   [Store.Find ((p - 1) * l) l; Store.CountDocuments])))
    /\ (~ accepted -> status (fst (fst (GET_pokemons req db))) = 400)
    /\ (limit = Some "0" -> status (fst (fst (GET_pokemons req db))) = 400).
Proof.
  intros req db page limit Hp Hl accepted.
  assert (Hiff : accepted <->
       match page with
       | None => True
       | Some s => exists n, Validator.int_literal s = Some n /\ 1 <= n
       end
       /\ match limit with
          | None => True
          | Some s => exists n, Validator.int_literal s = Some n /\ 1 <= n <= 100
          end).
  { unfold accepted. rewrite (list_validation _ _ _ Hp Hl). cbn [snd].
    split.
    - intros H. apply app_eq_nil in H as [H1 H2]. split.
      + destruct page as [s|]; [|exact I].
        destruct (Validator.isInt (Some 1) None s) eqn:Hs; [|discriminate].
        apply isInt_spec in Hs as (n & Hn & Hmin & _). eauto.
      + destruct limit as [s|]; [|exact I].
        destruct (Validator.isInt (Some 1) (Some 100) s) eqn:Hs; [|discriminate].
        apply isInt_spec in Hs as (n & Hn & Hmin & Hmax). eauto.
    - intros [H1 H2].
      assert (Hpage : match page with
                      | None => true
                      | Some s => Validator.isInt (Some 1) None s
                      end = true).
      { destruct page as [s|]; [|reflexivity].
        destruct H1 as (n & Hn & Hmin). apply isInt_spec. exists n. auto. }
      assert (Hlimit : match limit with
                       | None => true
                       | Some s => Validator.isInt (Some 1) (Some 100) s
                       end = true).
      { destruct limit as [s|]; [|reflexivity].
        destruct H2 as (n & Hn & Hmin & Hmax). apply isInt_spec. exists n. auto. }
      destruct page, limit; try rewrite Hpage; try rewrite Hlimit; reflexivity. }
  assert (Hrejected : ~ accepted -> status (fst (fst (GET_pokemons req db))) = 400).
  { unfold accepted, GET_pokemons, serve.
    destruct (ExpressValidator.run_chains list_validators req) as [req' errors].
    cbn [snd]. destruct errors; [contradiction|reflexivity]. }
  split; [exact Hiff|]. split; [|split; [exact Hrejected|]].
  - intros Hacc. apply Hiff in Hacc as [H1 H2].
    assert (Hqp : exists p, query_number "page" 1 req = Some p /\ 1 <= p
                            /\ (page = None -> p = 1)).
    { unfold query_number. rewrite Hp. destruct page as [s|]; cbn [option_map].
      - destruct H1 as (n & Hn & Hmin). exists (JS.round n). rewrite Hn.
        repeat split; [now apply round_positive|discriminate].
      - exists 1. repeat split; auto. lia. }
    assert (Hql : exists l, query_number "limit" 20 req = Some l /\ 1 <= l <= 100
                            /\ (limit = None -> l = 20)).
    { unfold query_number. rewrite Hl. destruct limit as [s|]; cbn [option_map].
      - destruct H2 as (n & Hn & Hmin). exists n. rewrite Hn. cbn [option_map].
        rewrite round_between by (unfold JS.max_safe; lia).
        repeat split; auto; try lia. discriminate.
      - exists 20. repeat split; auto; lia. }
    destruct Hqp as (p & Hqp & Hp1 & Hpd), Hql as (l & Hql & Hl1 & Hld).
    exists p, l. repeat split; auto; try lia.
    intros Hsafe.
    exists (Store.find_page ((p - 1) * l) l db),
           (ceil_div (Store.countDocuments db) l), (Store.countDocuments db).
    now apply list_route_accepted.
  - intros ->. apply Hrejected. intros Hacc. apply Hiff in Hacc as [_ (n & Hn & H)].
    cbv in Hn. injection Hn as <-. lia.
Qed.

Lemma list_parameters_witness :
  status (fst (fst (GET_pokemons (get_request [] [("limit", "0")]) pokedex))) = 400
  /\ exists data totalPages total,
       GET_pokemons (get_request [] []) pokedex
       = (Response 200 (Page data 1 totalPages total 20), pokedex,
          [Store.Find 0 20; Store.CountDocuments]).
Proof.
  split.
  - apply (list_parameters (get_request [] [("limit", "0")]) pokedex
             None (Some "0") eq_refl eq_refl). reflexivity.
  - destruct (list_parameters (get_request [] []) pokedex None None eq_refl eq_refl)
      as (Hiff & Hacc & _).
    destruct (Hacc (proj2 Hiff (conj I I)))
      as (p & l & _ & _ & _ & _ & Hp & Hl & Hserved).
    rewrite (Hp eq_refl), (Hl eq_refl) in Hserved.
    exact (Hserved ltac:(vm_compute; discriminate)).
Defined.

(** ** Patterns *)

Section RegExpFacts.

Import RegExp.











Lemma eq_ci_lower a b : Str.eq_ci a b = true <-> Str.lower a = Str.lower b.
Proof. unfold Str.eq_ci. apply Ascii.eqb_eq. Qed.

Lemma prefix_ci_spec p : forall s,
  prefix_ci p s = true <->
  exists v w, s = (v ++ w)%string /\ to_lower v = to_lower p.
Proof.
  induction p as [|a p IH]; intros s.
  - split; [|reflexivity]. intros _. now exists EmptyString, s.
  - destruct s as [|b s]; simpl.
    + split; [discriminate|]. intros (v & w & Hs & Hv).
      destruct v; simpl in *; discriminate.
    + rewrite andb_true_iff, eq_ci_lower, IH. split.
      * intros (Hab & v & w & -> & Hv). exists (String b v), w.
        simpl. split; [reflexivity|]. now rewrite Hv, Hab.
      * intros (v & w & Hs & Hv). destruct v as [|b' v]; [discriminate|].
        simpl in *. injection Hs as -> ->. injection Hv as Hb Hv.
        split; [now symmetry|]. now exists v, w.
Qed.

(** [contains_ci p s] holds exactly when a piece of [s] equals [p] once
    both are put in lower case. *)
Lemma contains_ci_spec p s :
  contains_ci p s = true <->
  exists u v w, s = (u ++ v ++ w)%string /\ to_lower v = to_lower p.
Proof.
  induction s as [|b s IH]; simpl.
  - rewrite orb_false_r, prefix_ci_spec. split.
    + intros (v & w & Hs & Hv). now exists EmptyString, v, w.
    + intros (u & v & w & Hs & Hv). destruct u; [|discriminate].
      now exists v, w.
  - rewrite orb_true_iff, IH, prefix_ci_spec. split.
    + intros [(v & w & Hs & Hv)|(u & v & w & -> & Hv)].
      * now exists EmptyString, v, w.
      * now exists (String b u), v, w.
    + intros (u & v & w & Hs & Hv). destruct u as [|b' u].
      * left. now exists v, w.
      * right. simpl in Hs. injection Hs as -> ->. now exists u, v, w.
Qed.

End RegExpFacts.

(** ** The search route *)

Section SearchFacts.

Import ExpressValidator.

Lemma get_key k o : Json.get [Key k] o = Json.prop (Key k) o.
Proof. cbn [Json.get]. now destruct (Json.prop (Key k) o). Qed.

(** A chain that sanitizes and then validates a top-level key holding a
    string. *)
Lemma run_chain_sanitize_validate loc k opt g f msg r s :
  Json.get [Key k] (at_location loc r) = Some (JStr s) ->
  run_chain (Chain loc [FKey k] opt [Sanitizer g; Standard f msg]) r
  = (with_location loc (Json.set [Key k] (JStr (g s)) (at_location loc r)) r,
     if f (g s) then [] else [VError loc [Key k] (Some (JStr (g s))) msg]).
Proof.
  intros H. unfold run_chain, select.
  cbn [chain_location chain_field chain_optional chain_stack expand app map
       fold_left step is_sanitizer].
  rewrite H. unfold required. cbn [inst_value]. rewrite orb_true_r.
  cbn [fst snd map flat_map app run_item inst_value inst_path fold_left
       write_back sanitize values_of to_string Json.js_string].
  rewrite orb_true_r.
  cbn [fst snd map flat_map app run_item inst_value inst_path fold_left
       write_back sanitize values_of to_string Json.js_string].
  destruct (f (g s)); reflexivity.
Qed.





Lemma isLength_spec lo hi s :
  Validator.isLength (Some lo) (Some hi) s = true <-> lo <= Str.len s <= hi.
Proof.
  unfold Validator.isLength. rewrite andb_true_iff, !Z.leb_le. tauto.
Qed.




(** The first element that passes a filter. *)
Lemma find_first (f : pokemon -> bool) db p :
  List.find f db = Some p ->
  exists before after,
    db = before ++ p :: after /\ f p = true
    /\ Forall (fun q => f q = false) before.
Proof.
  induction db as [|q db IH]; simpl; [discriminate|].
  destruct (f q) eqn:Hq.
  - intros [= <-]. now exists [], db.
  - intros H. apply IH in H as (before & after & -> & Hp & Hall).
    exists (q :: before), after. auto.
Qed.

(** The search route on a request whose name passes validation. *)
Lemma search_route E req db raw :
  Json.get [Key "name"] (req_params req) = Some (JStr raw) ->
  1 <= Str.len (Validator.trim raw) <= 50 ->
  GET_pokemons_search_name E req db
  = search_handler E
      (Request (Json.set [Key "name"] (JStr (Validator.trim raw)) (req_params req))
               (req_query req) (req_body req)) db.
Proof.
  intros Hname Hlen. unfold GET_pokemons_search_name, serve.
  change search_validators
    with [Chain Params [FKey "name"] false
            [Sanitizer Validator.trim;
             Standard (Validator.isLength (Some 1) (Some 50)) "name must be 1-50 chars"]].
  cbn [run_chains].
  rewrite (run_chain_sanitize_validate Params "name" false _ _ _ req raw Hname).
  apply isLength_spec in Hlen. rewrite Hlen. reflexivity.
Qed.

Lemma search_handler_name E req db t :
  Json.get [Key "name"] (req_params req) = Some (JStr t) ->
  search_handler E req db
  = match new_RegExp E t with
    | None => (server_error_text (RegExpSyntaxError t), db, [])
    | Some re =>
        (match Store.findOne (search_filter re) db with
         | Some poke => Response 200 (Document poke)
         | None => not_found
         end, db, [Store.FindOne (Store.ByName t)])
    end.
Proof. intros H. unfold search_handler. now rewrite H. Qed.

End SearchFacts.




(** C9. The name is taken as a pattern. A name that passes validation and
    is no well-formed pattern makes [new RegExp] throw, and the route
    answers 500 without a query: so does the name [(], of length 1. The
    name [.] matches any character, so that it finds Pikachu, none of whose
    names contains a dot; [P.ka] finds it too. *)
Theorem search_name_is_a_pattern :
  (forall E req db raw,
     Json.get [Key "name"] (req_params req) = Some (JStr raw) ->
     1 <= Str.len (Validator.trim raw) <= 50 ->
     RegExp.parse (Validator.trim raw) = RegExp.SyntaxError ->
     GET_pokemons_search_name E req db
     = (Response 500 (Text (MessageOf (RegExpSyntaxError (Validator.trim raw)))),
        db, []))
  /\ (1 <= Str.len "(" <= 50
      /\ RegExp.parse "(" = RegExp.SyntaxError
      /\ forall E db,
           GET_pokemons_search_name E (get_request [("name", "(")] []) db
           = (Response 500 (Text (MessageOf (RegExpSyntaxError "("))), db, []))
  /\ (forall E,
        GET_pokemons_search_name E (get_request [("name", ".")] []) [pikachu]
        = (Response 200 (Document pikachu), [pikachu], [Store.FindOne (Store.ByName ".")]))
  /\ (forall E,
        GET_pokemons_search_name E (get_request [("name", "P.ka")] []) [bulbasaur; pikachu]
        = (Response 200 (Document pikachu), [bulbasaur; pikachu],
           [Store.FindOne (Store.ByName "P.ka")]))
  /\ search_filter (RegExp.contains_ci ".") pikachu = false
  /\ search_filter (RegExp.contains_ci "P.ka") pikachu = false.
Proof.
  assert (Hthrows : forall E req db raw,
     Json.get [Key "name"] (req_params req) = Some (JStr raw) ->
     1 <= Str.len (Validator.trim raw) <= 50 ->
     RegExp.parse (Validator.trim raw) = RegExp.SyntaxError ->
     GET_pokemons_search_name E req db
     = (Response 500 (Text (MessageOf (RegExpSyntaxError (Validator.trim raw)))),
        db, [])).
  { intros E req db raw Hname Hlen Hparse.
    rewrite (search_route E req db raw Hname Hlen).
    rewrite (search_handler_name E _ db (Validator.trim raw)).
    - unfold new_RegExp. now rewrite Hparse.
    - cbn [req_params]. apply get_set_same. rewrite Hname. discriminate. }
  split; [exact Hthrows|].
  split; [split; [cbv; split; discriminate|split; [reflexivity|]]|].
  - intros E db.
    exact (Hthrows E (get_request [("name", "(")] []) db "(" eq_refl
             ltac:(cbv; split; discriminate) eq_refl).
  - repeat split.
Qed.

(** ** Validation before the handler *)

Section ValidationFacts.

Import ExpressValidator.

Lemma run_chains_cons c cs r :
  run_chains (c :: cs) r
  = (fst (run_chains cs (fst (run_chain c r))),
     snd (run_chain c r) ++ snd (run_chains cs (fst (run_chain c r)))).
Proof.
  cbn [run_chains]. destruct (run_chain c r) as [r1 e1]. cbn [fst snd].
  destruct (run_chains cs r1) as [r2 e2]. reflexivity.
Qed.

Lemma records_collected cs : forall r e,
  records cs r e <-> In e (snd (run_chains cs r)).
Proof.
  induction cs as [|c cs IH]; intros r e.
  - split; [inversion 1|intros []].
  - rewrite run_chains_cons. cbn [snd]. rewrite in_app_iff, <- IH. split.
    + inversion 1; subst; auto.
    + intros [H|H]; [now apply records_here|now apply records_later].
Qed.

Lemma serve_rejects validators handler req db :
  snd (run_chains validators req) <> [] ->
  serve validators handler req db
  = (Response 400 (ValidationFailed (snd (run_chains validators req))), db, []).
Proof.
  unfold serve. destruct (run_chains validators req) as [req' errors].
  cbn [snd]. destruct errors; [contradiction|reflexivity].
Qed.

Lemma serve_accepts validators handler req db :
  snd (run_chains validators req) = [] ->
  serve validators handler req db
  = handler (fst (run_chains validators req)) db.
Proof.
  unfold serve. destruct (run_chains validators req) as [req' errors].
  cbn [snd fst]. now intros ->.
Qed.

Lemma step_errors loc opt st it :
  exists more, st_errors (step loc opt st it) = st_errors st ++ more.
Proof. destruct st as [[r insts] errs]. unfold st_errors. simpl. eauto. Qed.

Lemma steps_errors loc opt stack : forall st,
  exists more, st_errors (fold_left (step loc opt) stack st) = st_errors st ++ more.
Proof.
  induction stack as [|it stack IH]; intros st; cbn [fold_left].
  - exists []. now rewrite app_nil_r.
  - destruct (IH (step loc opt st it)) as [more Hmore].
    destruct (step_errors loc opt st it) as [more' Hmore'].
    exists (more' ++ more). now rewrite Hmore, Hmore', app_assoc.
Qed.

(** The errors of the first items of a chain stay, whatever the items after
    them record. *)
Lemma run_chain_truncate k c r :
  exists more, snd (run_chain c r) = snd (run_chain (truncate k c) r) ++ more.
Proof.
  rewrite !run_chain_unfold. unfold truncate.
  cbn [snd chain_location chain_field chain_optional chain_stack].
  destruct (steps_errors (chain_location c) (chain_optional c)
              (skipn k (chain_stack c))
              (fold_left (step (chain_location c) (chain_optional c))
                 (firstn k (chain_stack c))
                 (r, select (at_location (chain_location c) r) (chain_field c), [])))
    as [more Hmore].
  exists more. now rewrite <- Hmore, <- fold_left_app, firstn_skipn.
Qed.

End ValidationFacts.

(** ** Responses 400 and the store *)

Section RejectionFacts.

Variable E : environment.

Ltac handler_cases :=
  repeat match goal with
         | |- context [cast_number ?x] => destruct (cast_number x)
         | |- context [accepts_update ?e ?u] => destruct (accepts_update e u)
         | |- context [accepts_document ?e ?d ?p] => destruct (accepts_document e d p)
         | |- context [Store.findOne ?f ?d] => destruct (Store.findOne f d)
         | |- context [Store.findOneAndUpdate ?f ?u ?d] =>
             destruct (Store.findOneAndUpdate f u d) as [[?|] ?]
         | |- context [Store.findOneAndDelete ?f ?d] =>
             destruct (Store.findOneAndDelete f d) as [[?|] ?]
         | |- context [new_RegExp ?e ?p] => destruct (new_RegExp e p)
         end;
  cbn; intros H; try discriminate H; auto.

Lemma list_handler_400 req db :
  status (response_of (list_handler req db)) = 400 ->
  operations_of (list_handler req db) = [] /\ collection_of (list_handler req db) = db.
Proof. unfold list_handler. cbn. discriminate. Qed.

Lemma get_handler_400 req db :
  status (response_of (get_handler req db)) = 400 ->
  operations_of (get_handler req db) = [] /\ collection_of (get_handler req db) = db.
Proof. unfold get_handler, response_of, operations_of, collection_of. handler_cases. Qed.

Lemma search_handler_400 req db :
  status (response_of (search_handler E req db)) = 400 ->
  operations_of (search_handler E req db) = []
  /\ collection_of (search_handler E req db) = db.
Proof.
  unfold search_handler, response_of, operations_of, collection_of. handler_cases.
Qed.

Lemma create_handler_400 req db :
  status (response_of (create_handler E req db)) = 400 ->
  operations_of (create_handler E req db) = []
  /\ collection_of (create_handler E req db) = db.
Proof.
  unfold create_handler, response_of, operations_of, collection_of.
  destruct (negb _ || _ || _ || _ || _); [cbn; auto|].
  destruct (cast_number _);
    repeat match goal with
           | |- context [match Json.get ?p ?b with _ => _ end] =>
               destruct (Json.get p b)
           end;
    handler_cases.
Qed.

Lemma update_handler_400 req db :
  status (response_of (update_handler E req db)) = 400 ->
  operations_of (update_handler E req db) = []
  /\ collection_of (update_handler E req db) = db.
Proof.
  unfold update_handler, response_of, operations_of, collection_of. handler_cases.
Qed.

Lemma delete_handler_400 req db :
  status (response_of (delete_handler req db)) = 400 ->
  operations_of (delete_handler req db) = []
  /\ collection_of (delete_handler req db) = db.
Proof.
  unfold delete_handler, response_of, operations_of, collection_of. handler_cases.
Qed.

Lemma route_handler_400 rt req db :
  In rt (routes E) ->
  status (response_of (route_handler rt req db)) = 400 ->
  operations_of (route_handler rt req db) = []
  /\ collection_of (route_handler rt req db) = db.
Proof.
  unfold routes. cbn [In].
  intros [<-|[<-|[<-|[<-|[<-|[<-|[]]]]]]]; cbn [route_handler].
  - apply list_handler_400.
  - apply get_handler_400.
  - apply search_handler_400.
  - apply create_handler_400.
  - apply update_handler_400.
  - apply delete_handler_400.
Qed.

End RejectionFacts.

(** C7. In each of the six routes a request that fails validation is
    answered 400 by [handleValidation] with no store operation issued and
    the collection as it was; more generally a route that answers 400 has
    issued no store operation and has left the collection as it was. *)
Theorem validation_failure_touches_no_store :
  forall (E : environment) (rt : route) (req : request) (db : Store.collection),
    In rt (routes E) ->
    (snd (ExpressValidator.run_chains (route_validators rt) req) <> [] ->
     dispatch rt req db
     = (Response 400
          (ValidationFailed (snd (ExpressValidator.run_chains (route_validators rt) req))),
        db, []))
    /\ (status (response_of (dispatch rt req db)) = 400 ->
        operations_of (dispatch rt req db) = []
        /\ collection_of (dispatch rt req db) = db).
Proof.
  intros E rt req db Hin. split.
  - intros H. unfold dispatch. now apply serve_rejects.
  - unfold dispatch.
    destruct (ExpressValidator.run_chains (route_validators rt) req) as [req' errors] eqn:Hrun.
    destruct errors as [|e errors].
    + rewrite serve_accepts by now rewrite Hrun.
      rewrite Hrun. cbn [fst]. now apply route_handler_400 with (E := E).
    + rewrite serve_rejects by (rewrite Hrun; discriminate).
      intros _. split; reflexivity.
Qed.

Lemma PUT_is_dispatch E :
  PUT_pokemons_id E = dispatch (Route update_validators (update_handler E)).
Proof. unfold PUT_pokemons_id, dispatch. cbn [route_validators route_handler]. reflexivity. Qed.

Lemma validation_failure_touches_no_store_witness :
  exists details,
    PUT_pokemons_id lenient (put_request "0" (JObj [("type", JNull)])) pokedex
    = (Response 400 (ValidationFailed details), pokedex, [])
    /\ List.length details = 2%nat.
Proof.
  exists (snd (ExpressValidator.run_chains
                 (route_validators (Route update_validators (update_handler lenient)))
                 (put_request "0" (JObj [("type", JNull)])))).
  split.
  - rewrite PUT_is_dispatch.
    apply (validation_failure_touches_no_store lenient
             (Route update_validators (update_handler lenient))
             (put_request "0" (JObj [("type", JNull)])) pokedex).
    + unfold routes. do 4 right. left. reflexivity.
    + vm_compute. discriminate.
  - vm_compute. reflexivity.
Defined.

(** ** The update route *)

Section StoreFacts.

Variable f : pokemon -> bool.

Lemma apply_update_id u p : pk_id (Store.apply_update u p) = pk_id p.
Proof. reflexivity. Qed.

Lemma apply_update_empty p : Store.apply_update (Update None None None None) p = p.
Proof. now destruct p. Qed.

Lemma findOneAndUpdate_ids u db :
  map pk_id (snd (Store.findOneAndUpdate f u db)) = map pk_id db.
Proof.
  induction db as [|p db IH]; simpl; [reflexivity|].
  destruct (f p); simpl; [reflexivity|].
  destruct (Store.findOneAndUpdate f u db) as [r db']. simpl in *. now rewrite IH.
Qed.

Lemma findOneAndUpdate_found u db old :
  Store.findOne f db = Some old ->
  exists before after,
    db = before ++ old :: after
    /\ Forall (fun q => f q = false) before
    /\ Store.findOneAndUpdate f u db
       = (Some (Store.apply_update u old),
          before ++ Store.apply_update u old :: after).
Proof.
  unfold Store.findOne. induction db as [|p db IH]; simpl; [discriminate|].
  destruct (f p) eqn:Hp.
  - intros [= <-]. now exists [], db.
  - intros H. destruct (IH H) as (before & after & -> & Hall & Heq).
    exists (p :: before), after. rewrite Heq. auto.
Qed.

Lemma findOneAndUpdate_none u db :
  Store.findOne f db = None -> Store.findOneAndUpdate f u db = (None, db).
Proof.
  unfold Store.findOne. induction db as [|p db IH]; simpl; [reflexivity|].
  destruct (f p); [discriminate|]. intros H. now rewrite (IH H).
Qed.

End StoreFacts.

Section UpdateFacts.

Import ExpressValidator.

Variable E : environment.

Lemma steps_no_sanitizer loc opt stack : forall st,
  Forall (fun it => is_sanitizer it = false) stack ->
  st_request (fold_left (step loc opt) stack st) = st_request st.
Proof.
  induction stack as [|it stack IH]; intros st Hall; cbn [fold_left]; auto.
  inversion Hall as [|? ? Hit Hstack]; subst. rewrite IH by exact Hstack.
  destruct st as [[r insts] errs]. unfold st_request, step. now rewrite Hit.
Qed.

Lemma run_chain_keeps_params c r :
  keeps_params c -> req_params (fst (run_chain c r)) = req_params r.
Proof.
  intros [Hloc|Hstack].
  - exact (run_chain_other c r Params Hloc).
  - rewrite run_chain_unfold. cbn [fst]. now rewrite steps_no_sanitizer.
Qed.

Lemma run_chains_keep_params cs : forall r,
  Forall keeps_params cs -> req_params (fst (run_chains cs r)) = req_params r.
Proof.
  induction cs as [|c cs IH]; intros r Hall; [reflexivity|].
  inversion Hall as [|? ? Hc Hcs]; subst.
  rewrite run_chains_cons. cbn [fst]. rewrite IH by exact Hcs.
  now apply run_chain_keeps_params.
Qed.



Lemma update_validators_keep_params : Forall keeps_params update_validators.
Proof.
  unfold update_validators.
  repeat (constructor;
          [first [left; discriminate
                 |right; repeat constructor]|]).
  constructor.
Qed.


(** The update chains leave the path parameters as they are. *)
Lemma update_chains_params req :
  req_params (fst (run_chains update_validators req)) = req_params req.
Proof. apply run_chains_keep_params, update_validators_keep_params. Qed.


Lemma update_of_field b p f :
  In f top_level_fields ->
  field_of f (Store.apply_update (update_of b) p)
  = match when_truthy (Json.get [Key f] b) with
    | Some v => v
    | None => field_of f p
    end.
Proof.
  unfold top_level_fields. cbn [In].
  intros [<-|[<-|[<-|[<-|[]]]]]; reflexivity.
Qed.

(** The update handler on a document that is there. *)
Lemma update_handler_found req db n old :
  cast_number (Json.get [Key "id"] (req_params req)) = Some n ->
  accepts_update E (update_of (req_body req)) = true ->
  Store.findOne (Store.has_id n) db = Some old ->
  exists before after,
    db = before ++ old :: after
    /\ Forall (fun q => Store.has_id n q = false) before
    /\ update_handler E req db
       = (Response 200 (Document (Store.apply_update (update_of (req_body req)) old)),
          before ++ Store.apply_update (update_of (req_body req)) old :: after,
          [Store.FindOneAndUpdate (Store.ById (Json.get [Key "id"] (req_params req)))
             (update_of (req_body req))]).
Proof.
  intros Hid Hacc Hfind.
  destruct (findOneAndUpdate_found (Store.has_id n) (update_of (req_body req)) db old Hfind)
    as (before & after & Hdb & Hall & Heq).
  exists before, after. split; [exact Hdb|]. split; [exact Hall|].
  unfold update_handler. now rewrite Hid, Hacc, Heq.
Qed.

End UpdateFacts.

(** C8. An update never changes an [id]: whatever the request, the
    collection after it holds the same ids at the same places, and a
    document the route returns is the update of the first document with the
    id of the path, with that same id; an [id] field of the body plays no
    part. *)
Theorem update_keeps_id :
  forall (E : environment) (req : request) (db : Store.collection),
    map pk_id (collection_of (PUT_pokemons_id E req db)) = map pk_id db
    /\ (forall p,
          sent (response_of (PUT_pokemons_id E req db)) = Document p ->
          exists old u,
            Store.findOne (Store.has_id (pk_id p)) db = Some old
            /\ p = Store.apply_update u old
            /\ pk_id p = pk_id old
            /\ In p (collection_of (PUT_pokemons_id E req db))).
Proof.
  intros E req db. unfold PUT_pokemons_id, serve.
  destruct (ExpressValidator.run_chains update_validators req) as [req' errors].
  destruct errors as [|e errors]; cbn [handleValidation].
  2: { split; [reflexivity|]. cbn. discriminate. }
  unfold update_handler.
  destruct (cast_number (Json.get [Key "id"] (req_params req'))) as [n|].
  2: { split; [reflexivity|]. cbn. discriminate. }
  destruct (accepts_update E (update_of (req_body req'))).
  2: { split; [reflexivity|]. cbn. discriminate. }
  destruct (Store.findOne (Store.has_id n) db) as [old|] eqn:Hfind.
  - destruct (findOneAndUpdate_found (Store.has_id n) (update_of (req_body req')) db old Hfind)
      as (before & after & Hdb & Hall & Heq).
    rewrite Heq. unfold collection_of, response_of. cbn [fst snd sent].
    split.
    + rewrite Hdb, !map_app. reflexivity.
    + intros p [= <-].
      assert (Hid : pk_id old = n).
      { apply find_some in Hfind as [_ H]. now apply Z.eqb_eq in H. }
      exists old, (update_of (req_body req')).
      rewrite apply_update_id, Hid. repeat split; auto.
      apply in_or_app. right. now left.
  - rewrite (findOneAndUpdate_none _ _ _ Hfind).
    split; [reflexivity|]. cbn. discriminate.
Qed.

(** An update whose body carries an [id]: the document keeps its own. *)
Example update_with_id_in_body :
  PUT_pokemons_id lenient
    (put_request "4" (JObj [("id", JNum 7); ("image", JStr "http://x/y.png")]))
    pokedex
  = (Response 200
       (Document (Pokemon 4 (pk_name charmander) (pk_type charmander)
                          (pk_base charmander) (JStr "http://x/y.png"))),
     [bulbasaur;
      Pokemon 4 (pk_name charmander) (pk_type charmander) (pk_base charmander)
              (JStr "http://x/y.png");
      pikachu],
     [Store.FindOneAndUpdate (Store.ById (Some (JStr "4"))) (Update None None None (Some (JStr "http://x/y.png")))]).
Proof. vm_compute. reflexivity. Qed.




Section UpdateValidation.

Import ExpressValidator.

(** The validation of an update: the chain on the path parameter, then the
    chains on the body. *)
Lemma update_validation req id :
  Json.get [Key "id"] (req_params req) = Some (JStr id) ->
  run_chains update_validators req
  = (fst (run_chains update_body_chains req),
     id_error id ++ snd (run_chains update_body_chains req)).
Proof.
  intros Hid. unfold update_validators, update_body_chains. cbn [tl].
  rewrite run_chains_cons.
  change (param [FKey "id"] |> isInt (Some 1) None
            |> withMessage "id must be a positive integer")
    with (Chain Params [FKey "id"] false
            [Standard (Validator.isInt (Some 1) None) "id must be a positive integer"]).
  rewrite run_chain_validator. cbn [fst snd at_location]. rewrite Hid.
  cbn [required negb orb inst_value values_of flat_map to_string Json.js_string].
  unfold id_error. destruct (Validator.isInt (Some 1) None id); reflexivity.
Qed.

Lemma falsy_cases v :
  Json.truthy (Some v) = false ->
  v = JNull \/ v = JBool false \/ v = JNum 0 \/ v = JStr "".
Proof.
  destruct v as [|[]|[]|[]| |]; simpl; try discriminate; auto.
Qed.

End UpdateValidation.

Section FalsyFacts.

Import ExpressValidator.

Variable E : environment.

Lemma findOneAndUpdate_empty f db old :
  Store.findOne f db = Some old ->
  Store.findOneAndUpdate f (Update None None None None) db = (Some old, db).
Proof.
  intros H.
  destruct (findOneAndUpdate_found f (Update None None None None) db old H)
    as (before & after & -> & _ & Heq).
  now rewrite Heq, apply_update_empty.
Qed.

Lemma id_error_valid id n :
  Validator.int_literal id = Some n -> 1 <= n -> id_error id = [].
Proof.
  intros H Hn. unfold id_error.
  replace (Validator.isInt (Some 1) None id) with true; [reflexivity|].
  symmetry. apply isInt_spec. exists n. auto.
Qed.

(** An update whose body chains record nothing and leave the body [b]. *)
Lemma update_route_accepted id n b db :
  Validator.int_literal id = Some n -> 1 <= n ->
  run_chains update_body_chains (put_request id b) = (put_request id b, []) ->
  PUT_pokemons_id E (put_request id b) db
  = update_handler E (put_request id b) db.
Proof.
  intros Hid Hn Hbody. unfold PUT_pokemons_id, serve.
  rewrite (update_validation (put_request id b) id eq_refl).
  rewrite Hbody, (id_error_valid id n Hid Hn). reflexivity.
Qed.

(** An update whose body chains record errors. *)
Lemma update_route_rejected id n b db errors :
  Validator.int_literal id = Some n -> 1 <= n ->
  snd (run_chains update_body_chains (put_request id b)) = errors ->
  errors <> [] ->
  PUT_pokemons_id E (put_request id b) db
  = (Response 400 (ValidationFailed errors), db, []).
Proof.
  intros Hid Hn Hbody Hne. unfold PUT_pokemons_id, serve.
  rewrite (update_validation (put_request id b) id eq_refl).
  rewrite Hbody, (id_error_valid id n Hid Hn). cbn [app].
  destruct errors; [contradiction|reflexivity].
Qed.

Lemma update_handler_nothing_to_set id n b db old :
  Validator.int_literal id = Some n ->
  update_of b = Update None None None None ->
  accepts_update E (Update None None None None) = true ->
  Store.findOne (Store.has_id n) db = Some old ->
  update_handler E (put_request id b) db
  = (Response 200 (Document old), db,
     [Store.FindOneAndUpdate (Store.ById (Some (JStr id)))
          (Update None None None None)]).
Proof.
  intros Hid Hb Hacc Hfind. unfold update_handler.
  cbn [put_request req_params req_body Json.get Json.prop Json.lookup String.eqb
       Ascii.eqb Bool.eqb cast_number].
  rewrite Hid, Hb, Hacc. now rewrite (findOneAndUpdate_empty _ _ _ Hfind).
Qed.

(** An update whose body chains record nothing and leave the body [b']. *)
Lemma update_route_sanitized id n b b' db :
  Validator.int_literal id = Some n -> 1 <= n ->
  run_chains update_body_chains (put_request id b) = (put_request id b', []) ->
  PUT_pokemons_id E (put_request id b) db
  = update_handler E (put_request id b') db.
Proof.
  intros Hid Hn Hbody. unfold PUT_pokemons_id, serve.
  rewrite (update_validation (put_request id b) id eq_refl).
  rewrite Hbody, (id_error_valid id n Hid Hn). reflexivity.
Qed.

Lemma update_handler_sets_image id n b db old image :
  Validator.int_literal id = Some n ->
  update_of b = Update None None None (Some image) ->
  accepts_update E (Update None None None (Some image)) = true ->
  Store.findOne (Store.has_id n) db = Some old ->
  exists before after,
    db = before ++ old :: after
    /\ Forall (fun q => pk_id q <> n) before
    /\ update_handler E (put_request id b) db
       = (Response 200
            (Document (Pokemon (pk_id old) (pk_name old) (pk_type old)
                               (pk_base old) image)),
          before
          ++ Pokemon (pk_id old) (pk_name old) (pk_type old) (pk_base old) image
          :: after,
          [Store.FindOneAndUpdate (Store.ById (Some (JStr id)))
             (Update None None None (Some image))]).
Proof.
  intros Hid Hb Hacc Hfind.
  destruct (findOneAndUpdate_found (Store.has_id n)
              (Update None None None (Some image)) db old Hfind)
    as (before & after & Hdb & Hbefore & Heq).
  exists before, after. split; [exact Hdb|].
  split.
  { eapply Forall_impl; [|exact Hbefore].
    intros q Hq. unfold Store.has_id in Hq. apply Z.eqb_neq in Hq. exact Hq. }
  unfold update_handler.
  cbn [put_request req_params req_body Json.get Json.prop Json.lookup String.eqb
       Ascii.eqb Bool.eqb cast_number].
  rewrite Hid, Hb, Hacc, Heq. reflexivity.
Qed.

End FalsyFacts.

(** C10, as the code has it. The update handler sets a top-level field
    only when its value, in the body as the validators leave it, is truthy.
    For a document that is there and a schema that accepts the update: a
    body that supplies nothing but a falsy value for [name] or for [base]
    is answered 200 with the document unchanged; a falsy [type], and an
    [image] that is [null] or the empty string, are rejected by the
    validators with 400, which leaves the document unchanged too; an
    [image] that is [false] or [0] is answered 200 and the image of the
    document becomes the text "false" or "0", which [trim] has made of it. *)
Theorem update_falsy_fields :
  forall (E : environment) (id : string) (n : Z)
         (db : Store.collection) (old : pokemon),
    Validator.int_literal id = Some n -> 1 <= n ->
    Store.findOne (Store.has_id n) db = Some old ->
    accepts_update E (Update None None None None) = true ->
    (forall f v,
       In f ["name"; "base"] -> Json.truthy (Some v) = false ->
       PUT_pokemons_id E (put_request id (JObj [(f, v)])) db
       = (Response 200 (Document old), db,
          [Store.FindOneAndUpdate (Store.ById (Some (JStr id)))
          (Update None None None None)]))
    /\ (forall v,
          Json.truthy (Some v) = false ->
          PUT_pokemons_id E (put_request id (JObj [("type", v)])) db
          = (Response 400
               (ValidationFailed
                  [ExpressValidator.VError Body [Key "type"] (Some v) "Invalid value"]),
             db, []))
    /\ (forall v,
          v = JNull \/ v = JStr "" ->
          PUT_pokemons_id E (put_request id (JObj [("image", v)])) db
          = (Response 400
               (ValidationFailed
                  [ExpressValidator.VError Body [Key "image"] (Some (JStr ""))
                     "Invalid value"]),
             db, []))
    /\ (forall v text,
          (v = JBool false /\ text = "false") \/ (v = JNum 0 /\ text = "0") ->
          accepts_update E (Update None None None (Some (JStr text))) = true ->
          exists before after,
            db = before ++ old :: after
            /\ Forall (fun q => pk_id q <> n) before
            /\ PUT_pokemons_id E (put_request id (JObj [("image", v)])) db
               = (Response 200
                    (Document (Pokemon (pk_id old) (pk_name old) (pk_type old)
                                       (pk_base old) (JStr text))),
                  before
                  ++ Pokemon (pk_id old) (pk_name old) (pk_type old)
                             (pk_base old) (JStr text)
                  :: after,
                  [Store.FindOneAndUpdate (Store.ById (Some (JStr id)))
                     (Update None None None (Some (JStr text)))]))
    /\ (forall b p f,
          In f top_level_fields ->
          Json.truthy (Json.get [Key f] b) = false ->
          field_of f (Store.apply_update (update_of b) p) = field_of f p).
Proof.
  intros E id n db old Hid Hn Hfind Hacc.
  split; [|split; [|split; [|split]]].
  - intros f v Hf Hv.
    assert (Hcases : (f = "name" \/ f = "base")
                     /\ (v = JNull \/ v = JBool false \/ v = JNum 0 \/ v = JStr "")).
    { split; [cbn in Hf; intuition|now apply falsy_cases]. }
    destruct Hcases as [[-> | ->] [-> | [-> | [-> | ->]]]];
      (rewrite (update_route_accepted E id n _ db Hid Hn) by (vm_compute; reflexivity);
       now apply update_handler_nothing_to_set with (n := n)).
  - intros v Hv.
    destruct (falsy_cases v Hv) as [-> | [-> | [-> | ->]]];
      apply (update_route_rejected E id n _ db _ Hid Hn);
      first [vm_compute; reflexivity | discriminate].
  - intros v [-> | ->];
      apply (update_route_rejected E id n _ db _ Hid Hn);
      first [vm_compute; reflexivity | discriminate].
  - intros v text [[-> ->] | [-> ->]] Himage.
    + rewrite (update_route_sanitized E id n _ (JObj [("image", JStr "false")]) db
                 Hid Hn) by (vm_compute; reflexivity).
      now apply update_handler_sets_image.
    + rewrite (update_route_sanitized E id n _ (JObj [("image", JStr "0")]) db
                 Hid Hn) by (vm_compute; reflexivity).
      now apply update_handler_sets_image.
  - intros b p f Hf Hv. rewrite (update_of_field b p f Hf).
    unfold when_truthy. now rewrite Hv.
Qed.

Lemma update_falsy_fields_witness :
  PUT_pokemons_id lenient (put_request "4" (JObj [("name", JNull)])) pokedex
  = (Response 200 (Document charmander), pokedex,
     [Store.FindOneAndUpdate (Store.ById (Some (JStr "4"))) (Update None None None None)])
  /\ PUT_pokemons_id lenient (put_request "4" (JObj [("base", JNum 0)])) pokedex
     = (Response 200 (Document charmander), pokedex,
        [Store.FindOneAndUpdate (Store.ById (Some (JStr "4"))) (Update None None None None)])
  /\ PUT_pokemons_id lenient (put_request "4" (JObj [("type", JNull)])) pokedex
     = (Response 400
          (ValidationFailed
             [ExpressValidator.VError Body [Key "type"] (Some JNull) "Invalid value"]),
        pokedex, [])
  /\ PUT_pokemons_id lenient (put_request "4" (JObj [("image", JNull)])) pokedex
     = (Response 400
          (ValidationFailed
             [ExpressValidator.VError Body [Key "image"] (Some (JStr "")) "Invalid value"]),
        pokedex, [])
  /\ exists before after,
       pokedex = before ++ charmander :: after
       /\ Forall (fun q => pk_id q <> 4) before
       /\ PUT_pokemons_id lenient (put_request "4" (JObj [("image", JBool false)]))
            pokedex
          = (Response 200
               (Document (Pokemon 4 (pk_name charmander) (pk_type charmander)
                                  (pk_base charmander) (JStr "false"))),
             before
             ++ Pokemon 4 (pk_name charmander) (pk_type charmander)
                        (pk_base charmander) (JStr "false")
             :: after,
             [Store.FindOneAndUpdate (Store.ById (Some (JStr "4")))
                (Update None None None (Some (JStr "false")))]).
Proof.
  destruct (update_falsy_fields lenient "4" 4 pokedex charmander
              eq_refl ltac:(lia) eq_refl eq_refl)
    as (Hkeep & Htype & Himage & Hfalse & _).
  split; [|split; [|split; [|split]]].
  - apply (Hkeep "name" JNull); [now left|reflexivity].
  - apply (Hkeep "base" (JNum 0)); [right; now left|reflexivity].
  - apply (Htype JNull). reflexivity.
  - apply (Himage JNull). now left.
  - exact (Hfalse (JBool false) "false" (or_introl (conj eq_refl eq_refl)) eq_refl).
Defined.

(** C10 fails as stated: a body that supplies [type] as [null] is answered
    400, not 200. *)
Lemma update_null_type_counterexample :
  PUT_pokemons_id lenient (put_request "4" (JObj [("type", JNull)])) pokedex
  = (Response 400
       (ValidationFailed
          [ExpressValidator.VError Body [Key "type"] (Some JNull) "Invalid value"]),
     pokedex, [])
  /\ Json.get [Key "type"] (JObj [("type", JNull)]) = Some JNull
  /\ Json.truthy (Some JNull) = false
  /\ Store.findOne (Store.has_id 4) pokedex = Some charmander.
Proof. repeat split; vm_compute; reflexivity. Qed.

(** ** The validators of update and of create *)

Section ConstraintFacts.

Import ExpressValidator.




Lemma isLength_min lo s :
  Validator.isLength (Some lo) None s = true <-> lo <= Str.len s.
Proof.
  unfold Validator.isLength. rewrite andb_true_r. apply Z.leb_le.
Qed.

End ConstraintFacts.



(** * Further properties of the routes *)

(** ** The routes on one document: lookup and removal *)

Section IdRoutes.

Import ExpressValidator.

Lemma id_validation req s :
  Json.get [Key "id"] (req_params req) = Some (JStr s) ->
  run_chains id_validators req = (req, id_error s).
Proof.
  intros Hid. unfold id_validators. cbn [run_chains].
  change (param [FKey "id"] |> isInt (Some 1) None
            |> withMessage "id must be a positive integer")
    with (Chain Params [FKey "id"] false
            [Standard (Validator.isInt (Some 1) None) "id must be a positive integer"]).
  rewrite run_chain_validator. cbn [fst snd at_location]. rewrite Hid.
  cbn [required negb orb inst_value values_of flat_map to_string Json.js_string].
  unfold id_error. destruct (Validator.isInt (Some 1) None s); reflexivity.
Qed.

Lemma id_route_accepted handler req db s n :
  Json.get [Key "id"] (req_params req) = Some (JStr s) ->
  Validator.int_literal s = Some n -> 1 <= n ->
  serve id_validators handler req db = handler req db.
Proof.
  intros Hid Hs Hn. unfold serve. rewrite (id_validation _ _ Hid).
  rewrite (id_error_valid _ _ Hs Hn). reflexivity.
Qed.

Lemma id_route_rejected handler req db s :
  Json.get [Key "id"] (req_params req) = Some (JStr s) ->
  Validator.isInt (Some 1) None s = false ->
  serve id_validators handler req db
  = (Response 400
       (ValidationFailed
          [VError Params [Key "id"] (Some (JStr s)) "id must be a positive integer"]),
     db, []).
Proof.
  intros Hid Hs. unfold serve. rewrite (id_validation _ _ Hid).
  unfold id_error. rewrite Hs. reflexivity.
Qed.

Lemma isInt_positive s :
  Validator.isInt (Some 1) None s = true ->
  exists n, Validator.int_literal s = Some n /\ 1 <= n.
Proof.
  intros H. apply isInt_spec in H. destruct H as (n & Hn & H1 & _). eauto.
Qed.

Lemma has_id_false n q : Store.has_id n q = false <-> pk_id q <> n.
Proof. unfold Store.has_id. apply Z.eqb_neq. Qed.

Lemma has_id_true n q : Store.has_id n q = true <-> pk_id q = n.
Proof. unfold Store.has_id. apply Z.eqb_eq. Qed.

Lemma other_ids n (l : Store.collection) :
  Forall (fun q => Store.has_id n q = false) l -> Forall (fun q => pk_id q <> n) l.
Proof. apply Forall_impl. intros q. apply has_id_false. Qed.

Lemma find_skip (f : pokemon -> bool) before l :
  Forall (fun q => f q = false) before -> List.find f (before ++ l) = List.find f l.
Proof.
  induction 1 as [|q before Hq _ IH]; [reflexivity|]. cbn. rewrite Hq. exact IH.
Qed.

Lemma findOneAndDelete_skip (f : pokemon -> bool) before l :
  Forall (fun q => f q = false) before ->
  Store.findOneAndDelete f (before ++ l)
  = (fst (Store.findOneAndDelete f l), before ++ snd (Store.findOneAndDelete f l)).
Proof.
  induction 1 as [|q before Hq _ IH]; cbn.
  - destruct (Store.findOneAndDelete f l); reflexivity.
  - rewrite Hq, IH. reflexivity.
Qed.

Lemma findOneAndDelete_found (f : pokemon -> bool) db p :
  Store.findOne f db = Some p ->
  exists before after,
    db = before ++ p :: after
    /\ Forall (fun q => f q = false) before
    /\ Store.findOneAndDelete f db = (Some p, before ++ after).
Proof.
  intros H. destruct (find_first _ _ _ H) as (before & after & Hdb & Hp & Hbefore).
  exists before, after. split; [exact Hdb|]. split; [exact Hbefore|].
  rewrite Hdb, (findOneAndDelete_skip _ _ _ Hbefore). cbn. rewrite Hp. reflexivity.
Qed.

Lemma findOneAndDelete_none (f : pokemon -> bool) db :
  Store.findOne f db = None -> Store.findOneAndDelete f db = (None, db).
Proof.
  unfold Store.findOne. induction db as [|q db IH]; cbn; [reflexivity|].
  destruct (f q); [discriminate|]. intros H. rewrite (IH H). reflexivity.
Qed.

Lemma find_none_forall (f : pokemon -> bool) l :
  Forall (fun q => f q = false) l -> List.find f l = None.
Proof.
  induction 1 as [|q l Hq _ IH]; [reflexivity|]. cbn. rewrite Hq. exact IH.
Qed.

(** With distinct ids, no document but the first found has the id. *)
Lemma unique_id_elsewhere n before p after :
  NoDup (map pk_id (before ++ p :: after)) -> pk_id p = n ->
  Forall (fun q => Store.has_id n q = false) (before ++ after).
Proof.
  intros Hnd Hp. rewrite map_app in Hnd. cbn [map] in Hnd.
  apply NoDup_remove_2 in Hnd. apply Forall_forall. intros q Hq.
  apply has_id_false. intros Heq. apply Hnd. rewrite <- map_app.
  rewrite Hp, <- Heq. apply in_map. exact Hq.
Qed.

Lemma get_handler_result req db s n :
  Json.get [Key "id"] (req_params req) = Some (JStr s) ->
  Validator.int_literal s = Some n ->
  get_handler req db
  = (match List.find (Store.has_id n) db with
     | Some poke => Response 200 (Document poke)
     | None => not_found
     end, db, [Store.FindOne (Store.ById (Some (JStr s)))]).
Proof.
  intros Hid Hs. unfold get_handler. rewrite Hid. cbn [cast_number]. rewrite Hs.
  reflexivity.
Qed.

Lemma delete_handler_result req db s n :
  Json.get [Key "id"] (req_params req) = Some (JStr s) ->
  Validator.int_literal s = Some n ->
  delete_handler req db
  = (match Store.findOneAndDelete (Store.has_id n) db with
     | (Some poke, db') => (Response 200 (Deleted poke), db')
     | (None, _) => (not_found, db)
     end, [Store.FindOneAndDelete (Store.ById (Some (JStr s)))]).
Proof.
  intros Hid Hs. unfold delete_handler. rewrite Hid. cbn [cast_number]. rewrite Hs.
  destruct (Store.findOneAndDelete (Store.has_id n) db) as [[poke|] db']; reflexivity.
Qed.

End IdRoutes.

(** X1. [GET /pokemons/:id], the store answering. When the id of the path
    is an integer literal (a sign and leading zeros allowed) that denotes
    [n] with [1 <= n <= 2^53], the answer is 200 with the first document
    whose [id] is [n], or 404 when there is none; an id that is no integer
    literal of value at least 1 is answered 400 without a query.  The
    route never changes the collection. *)
Theorem get_by_id_route :
  forall (req : request) (db : Store.collection) (s : string),
    Json.get [Key "id"] (req_params req) = Some (JStr s) ->
    (forall n, Validator.int_literal s = Some n -> 1 <= n <= JS.max_safe ->
       GET_pokemons_id req db
       = (match List.find (Store.has_id n) db with
          | Some poke => Response 200 (Document poke)
          | None => Response 404 (ErrorJson (Literal "Pokemon not found"))
          end, db, [Store.FindOne (Store.ById (Some (JStr s)))]))
    /\ (Validator.isInt (Some 1) None s = false ->
        GET_pokemons_id req db
        = (Response 400
             (ValidationFailed
                [ExpressValidator.VError Params [Key "id"] (Some (JStr s))
                   "id must be a positive integer"]),
           db, []))
    /\ (forall n poke,
          Validator.int_literal s = Some n -> n <= JS.max_safe ->
          sent (response_of (GET_pokemons_id req db)) = Document poke ->
          pk_id poke = n
          /\ exists before after,
               db = before ++ poke :: after
               /\ Forall (fun q => pk_id q <> n) before)
    /\ collection_of (GET_pokemons_id req db) = db.
Proof.
  intros req db s Hid.
  assert (Hok : forall n, Validator.int_literal s = Some n -> 1 <= n ->
            GET_pokemons_id req db
            = (match List.find (Store.has_id n) db with
               | Some poke => Response 200 (Document poke)
               | None => not_found
               end, db, [Store.FindOne (Store.ById (Some (JStr s)))])).
  { intros n Hs Hn. unfold GET_pokemons_id.
    rewrite (id_route_accepted _ _ _ _ _ Hid Hs Hn).
    apply get_handler_result; assumption. }
  assert (Hko : Validator.isInt (Some 1) None s = false ->
            GET_pokemons_id req db
            = (Response 400
                 (ValidationFailed
                    [ExpressValidator.VError Params [Key "id"] (Some (JStr s))
                       "id must be a positive integer"]),
               db, [])).
  { intros Hs. unfold GET_pokemons_id. apply id_route_rejected; assumption. }
  split; [intros n Hs Hn; apply Hok; [exact Hs|lia]|]. split; [exact Hko|].
  destruct (Validator.isInt (Some 1) None s) eqn:Hs.
  - destruct (isInt_positive _ Hs) as (n & Hlit & Hn).
    rewrite (Hok n Hlit Hn). unfold response_of, collection_of. cbn [fst snd].
    destruct (List.find (Store.has_id n) db) as [p|] eqn:Hfind.
    + split; [|reflexivity].
      intros m poke Hm _ Hsent. cbn in Hsent. injection Hsent as <-.
      rewrite Hlit in Hm. injection Hm as <-.
      destruct (find_first _ _ _ Hfind) as (before & after & Hdb & Hp & Hbefore).
      apply has_id_true in Hp. split; [exact Hp|].
      exists before, after. split; [exact Hdb|].
      rewrite <- Hp. apply other_ids. rewrite Hp. exact Hbefore.
    + split; [|reflexivity].
      intros m poke _ _ Hsent. discriminate Hsent.
  - rewrite (Hko eq_refl). unfold response_of, collection_of. cbn [fst snd].
    split; [|reflexivity].
    intros m poke _ _ Hsent. discriminate Hsent.
Qed.

Lemma get_by_id_route_witness :
  GET_pokemons_id (get_request [("id", "+004")] []) pokedex
  = (Response 200 (Document charmander), pokedex,
     [Store.FindOne (Store.ById (Some (JStr "+004")))]).
Proof.
  exact (proj1 (get_by_id_route (get_request [("id", "+004")] []) pokedex "+004"
                  eq_refl) 4 eq_refl ltac:(vm_compute; split; discriminate)).
Defined.

(** X2. [DELETE /pokemons/:id], the store answering. For an id of the
    path that denotes [n] with [1 <= n <= 2^53], the route removes the
    first document whose [id] is [n] and answers 200 with it, every other
    document keeping its place; when no document has that id it answers
    404 and the collection is as it was.  An id that is no integer literal
    of value at least 1 is answered 400 without a store operation. *)
Theorem delete_route :
  forall (req : request) (db : Store.collection) (s : string),
    Json.get [Key "id"] (req_params req) = Some (JStr s) ->
    (forall n poke,
       Validator.int_literal s = Some n -> 1 <= n <= JS.max_safe ->
       List.find (Store.has_id n) db = Some poke ->
       exists before after,
         db = before ++ poke :: after
         /\ Forall (fun q => pk_id q <> n) before
         /\ pk_id poke = n
         /\ DELETE_pokemons_id req db
            = (Response 200 (Deleted poke), before ++ after,
               [Store.FindOneAndDelete (Store.ById (Some (JStr s)))]))
    /\ (forall n,
          Validator.int_literal s = Some n -> 1 <= n <= JS.max_safe ->
          List.find (Store.has_id n) db = None ->
          DELETE_pokemons_id req db
          = (Response 404 (ErrorJson (Literal "Pokemon not found")), db,
             [Store.FindOneAndDelete (Store.ById (Some (JStr s)))]))
    /\ (Validator.isInt (Some 1) None s = false ->
        DELETE_pokemons_id req db
        = (Response 400
             (ValidationFailed
                [ExpressValidator.VError Params [Key "id"] (Some (JStr s))
                   "id must be a positive integer"]),
           db, [])).
Proof.
  intros req db s Hid. split; [|split].
  - intros n poke Hs Hn Hfind.
    destruct (findOneAndDelete_found _ _ _ Hfind)
      as (before & after & Hdb & Hbefore & Hdel).
    exists before, after. split; [exact Hdb|]. split; [apply other_ids; exact Hbefore|].
    split; [apply has_id_true; apply (find_some _ _ Hfind)|].
    unfold DELETE_pokemons_id.
    rewrite (id_route_accepted _ _ _ _ _ Hid Hs (proj1 Hn)).
    rewrite (delete_handler_result _ _ _ _ Hid Hs), Hdel. reflexivity.
  - intros n Hs Hn Hfind.
    unfold DELETE_pokemons_id.
    rewrite (id_route_accepted _ _ _ _ _ Hid Hs (proj1 Hn)).
    rewrite (delete_handler_result _ _ _ _ Hid Hs).
    rewrite (findOneAndDelete_none _ _ Hfind). reflexivity.
  - intros Hs. unfold DELETE_pokemons_id. apply id_route_rejected; assumption.
Qed.

Lemma delete_route_witness :
  exists before after,
    pokedex = before ++ charmander :: after
    /\ Forall (fun q => pk_id q <> 4) before
    /\ pk_id charmander = 4
    /\ DELETE_pokemons_id (get_request [("id", "4")] []) pokedex
       = (Response 200 (Deleted charmander), before ++ after,
          [Store.FindOneAndDelete (Store.ById (Some (JStr "4")))]).
Proof.
  exact (proj1 (delete_route (get_request [("id", "4")] []) pokedex "4" eq_refl)
           4 charmander eq_refl ltac:(vm_compute; split; discriminate) eq_refl).
Defined.

(** X3. Deleting is final when ids are distinct: after a [DELETE] of an
    existing id has answered 200, the collection has one document less, holds
    exactly the documents with another id, and a [GET] or a second [DELETE]
    of that id is answered 404 and changes nothing. *)
Theorem delete_then_lookup :
  forall (req : request) (db : Store.collection) (s : string) (n : Z)
         (poke : pokemon),
    Json.get [Key "id"] (req_params req) = Some (JStr s) ->
    Validator.int_literal s = Some n -> 1 <= n ->
    NoDup (map pk_id db) ->
    List.find (Store.has_id n) db = Some poke ->
    let db' := collection_of (DELETE_pokemons_id req db) in
    response_of (DELETE_pokemons_id req db) = Response 200 (Deleted poke)
    /\ S (List.length db') = List.length db
    /\ (forall q, In q db' <-> In q db /\ pk_id q <> n)
    /\ GET_pokemons_id req db'
       = (Response 404 (ErrorJson (Literal "Pokemon not found")), db',
          [Store.FindOne (Store.ById (Some (JStr s)))])
    /\ DELETE_pokemons_id req db'
       = (Response 404 (ErrorJson (Literal "Pokemon not found")), db',
          [Store.FindOneAndDelete (Store.ById (Some (JStr s)))]).
Proof.
  intros req db s n poke Hid Hs Hn Hnd Hfind db'.
  destruct (findOneAndDelete_found _ _ _ Hfind)
    as (before & after & Hdb & Hbefore & Hdel).
  assert (Hp : pk_id poke = n) by (apply has_id_true; apply (find_some _ _ Hfind)).
  assert (Hroute : DELETE_pokemons_id req db
                   = (Response 200 (Deleted poke), before ++ after,
                      [Store.FindOneAndDelete (Store.ById (Some (JStr s)))])).
  { unfold DELETE_pokemons_id. rewrite (id_route_accepted _ _ _ _ _ Hid Hs Hn).
    rewrite (delete_handler_result _ _ _ _ Hid Hs), Hdel. reflexivity. }
  assert (Hrest : Forall (fun q => Store.has_id n q = false) (before ++ after)).
  { apply unique_id_elsewhere with (p := poke); [rewrite <- Hdb; exact Hnd|exact Hp]. }
  subst db'. rewrite Hroute. unfold response_of, collection_of. cbn [fst snd].
  split; [reflexivity|]. split.
  { rewrite Hdb, !length_app. cbn [List.length]. lia. }
  split.
  { intros q. rewrite Hdb. rewrite !in_app_iff. cbn [In]. split.
    - intros Hq. split; [tauto|].
      apply has_id_false. rewrite Forall_forall in Hrest. apply Hrest.
      apply in_app_iff. exact Hq.
    - intros [[Hq|[Hq|Hq]] Hne]; [tauto| |tauto].
      subst q. contradiction. }
  split.
  - unfold GET_pokemons_id. rewrite (id_route_accepted _ _ _ _ _ Hid Hs Hn).
    rewrite (get_handler_result _ _ _ _ Hid Hs).
    rewrite (find_none_forall _ _ Hrest). reflexivity.
  - unfold DELETE_pokemons_id. rewrite (id_route_accepted _ _ _ _ _ Hid Hs Hn).
    rewrite (delete_handler_result _ _ _ _ Hid Hs).
    rewrite (findOneAndDelete_none _ _ (find_none_forall _ _ Hrest)). reflexivity.
Qed.

Lemma delete_then_lookup_witness :
  response_of (DELETE_pokemons_id (get_request [("id", "4")] []) pokedex)
  = Response 200 (Deleted charmander)
  /\ GET_pokemons_id (get_request [("id", "4")] []) [bulbasaur; pikachu]
     = (Response 404 (ErrorJson (Literal "Pokemon not found")), [bulbasaur; pikachu],
        [Store.FindOne (Store.ById (Some (JStr "4")))]).
Proof.
  pose proof (delete_then_lookup (get_request [("id", "4")] []) pokedex "4" 4
                charmander eq_refl eq_refl ltac:(lia)
                ltac:(repeat constructor; cbn; intuition discriminate) eq_refl) as H.
  split; [exact (proj1 H)|exact (proj1 (proj2 (proj2 (proj2 H))))].
Defined.

(** ** The pages of the list route *)

Lemma firstn_add {A : Type} (a b : nat) (l : list A) :
  firstn (a + b) l = firstn a l ++ firstn b (skipn a l).
Proof.
  revert l. induction a as [|a IH]; intros l; [reflexivity|].
  destruct l as [|x l]; cbn.
  - rewrite firstn_nil. reflexivity.
  - rewrite IH. reflexivity.
Qed.

Lemma pages_concat {A : Type} (size n : nat) (l : list A) :
  List.concat (map (fun k => firstn size (skipn (k * size) l)) (seq 0 n))
  = firstn (n * size) l.
Proof.
  induction n as [|n IH]; [reflexivity|].
  rewrite seq_S, map_app, concat_app, IH. cbn [map List.concat Nat.add].
  rewrite app_nil_r. rewrite <- firstn_add. f_equal. lia.
Qed.

Lemma list_request_page db page limit :
  1 <= page -> 1 <= limit <= 100 -> page * limit <= JS.max_safe ->
  GET_pokemons (list_request page limit) db
  = (Response 200 (Page (Store.find_page ((page - 1) * limit) limit db) page
                        (ceil_div (Store.countDocuments db) limit)
                        (Store.countDocuments db) limit),
     db, [Store.Find ((page - 1) * limit) limit; Store.CountDocuments]).
Proof.
  intros Hpage Hlimit Hsafe. apply list_route_accepted; try assumption.
  - apply query_number_numeral. nia.
  - unfold list_request. rewrite query_number_skip by discriminate.
    apply query_number_numeral. unfold JS.max_safe. lia.
Qed.

(** X4. The pages of [GET /pokemons] cover the collection: for a limit in
    [1, 100] and a collection of at most [2^53 - 100] documents, the [data]
    of the pages 1 to [totalPages], one after the other, are the whole
    collection in its order, each document once; every page before the
    last holds [limit] documents; a page after the last, with
    [page * limit] at most [2^53], is answered 200 with an empty [data]. *)
Theorem list_pages_cover :
  forall (db : Store.collection) (limit : Z),
    1 <= limit <= 100 ->
    Store.countDocuments db + 100 <= JS.max_safe ->
    let totalPages := ceil_div (Store.countDocuments db) limit in
    List.concat (map (fun k => data_of (GET_pokemons (list_request (Z.of_nat k + 1) limit) db))
                (seq 0 (Z.to_nat totalPages)))
    = db
    /\ (forall page,
          1 <= page < totalPages ->
          Z.of_nat (List.length (data_of (GET_pokemons (list_request page limit) db)))
          = limit)
    /\ (forall page,
          totalPages < page -> page * limit <= JS.max_safe ->
          GET_pokemons (list_request page limit) db
          = (Response 200 (Page [] page totalPages (Store.countDocuments db) limit),
             db, [Store.Find ((page - 1) * limit) limit; Store.CountDocuments])).
Proof.
  intros db limit Hlimit Hsize totalPages.
  pose proof (ceil_div_bounds (Store.countDocuments db) limit ltac:(lia)) as Hb.
  fold totalPages in Hb. unfold Store.countDocuments in Hb, Hsize.
  assert (Htotal : 0 <= totalPages) by nia.
  split; [|split].
  - rewrite (map_ext_in _ (fun k => firstn (Z.to_nat limit)
                                      (skipn (k * Z.to_nat limit) db))).
    + rewrite pages_concat. apply firstn_all2. nia.
    + intros k Hk. apply in_seq in Hk.
      rewrite list_request_page by nia.
      unfold data_of, response_of. cbn [fst sent]. unfold Store.find_page.
      do 2 f_equal. nia.
  - intros page Hpage. rewrite list_request_page by nia.
    unfold data_of, response_of. cbn [fst sent]. unfold Store.find_page.
    rewrite length_firstn, length_skipn. nia.
  - intros page Hpage Hsafe. rewrite list_request_page by lia.
    unfold Store.find_page. rewrite skipn_all2 by nia.
    rewrite firstn_nil. reflexivity.
Qed.

Lemma list_pages_cover_witness :
  List.concat (map (fun k => data_of (GET_pokemons (list_request (Z.of_nat k + 1) 2) pokedex))
              (seq 0 2))
  = pokedex.
Proof.
  exact (proj1 (list_pages_cover pokedex 2 ltac:(lia)
                  ltac:(vm_compute; discriminate))).
Defined.

(** ** White space around a name *)

Section TrimFacts.

Import Validator.

Lemma ltrim_split s :
  exists l, s = (l ++ ltrim s)%string /\ Str.forall_char Str.is_space l = true.
Proof.
  induction s as [|c s IH]; cbn.
  - exists EmptyString. split; reflexivity.
  - destruct (Str.is_space c) eqn:Hc.
    + destruct IH as (l & Hs & Hl). exists (String c l). cbn. rewrite Hc, Hl.
      split; [f_equal; exact Hs|reflexivity].
    + exists EmptyString. split; reflexivity.
Qed.

Lemma rtrim_split s :
  exists r, s = (rtrim s ++ r)%string /\ Str.forall_char Str.is_space r = true.
Proof.
  induction s as [|c s IH]; cbn.
  - exists EmptyString. split; reflexivity.
  - destruct IH as (r & Hs & Hr). destruct (rtrim s) as [|d t] eqn:Ht.
    + cbn in Hs. subst r. destruct (Str.is_space c) eqn:Hc.
      * exists (String c s). cbn. rewrite Hc, Hr. split; reflexivity.
      * exists s. split; [reflexivity|exact Hr].
    + exists r. split; [cbn; f_equal; exact Hs|exact Hr].
Qed.

Lemma ltrim_head s :
  match ltrim s with
  | EmptyString => True
  | String c _ => Str.is_space c = false
  end.
Proof.
  induction s as [|c s IH]; cbn; [exact I|].
  destruct (Str.is_space c) eqn:Hc; [exact IH|exact Hc].
Qed.

Lemma rtrim_keeps_head c s :
  Str.is_space c = false -> exists t, rtrim (String c s) = String c t.
Proof.
  intros Hc. cbn. rewrite Hc. destruct (rtrim s); eauto.
Qed.

Lemma rtrim_idempotent s : rtrim (rtrim s) = rtrim s.
Proof.
  induction s as [|c s IH]; [reflexivity|]. cbn.
  destruct (rtrim s) as [|d t] eqn:Ht.
  - destruct (Str.is_space c) eqn:Hc; [reflexivity|]. cbn. rewrite Hc. reflexivity.
  - change (rtrim (String c (String d t))) with
      (match rtrim (String d t) with
       | EmptyString => if Str.is_space c then EmptyString else String c EmptyString
       | r => String c r
       end).
    rewrite IH. reflexivity.
Qed.

Lemma ltrim_fixed s :
  match s with EmptyString => True | String c _ => Str.is_space c = false end ->
  ltrim s = s.
Proof. destruct s as [|c s]; cbn; [reflexivity|]. intros ->. reflexivity. Qed.

(** [trim] is idempotent. *)
Lemma trim_idempotent s : trim (trim s) = trim s.
Proof.
  unfold trim. pose proof (ltrim_head s) as Hhead.
  destruct (ltrim s) as [|c t] eqn:Hl; [reflexivity|].
  destruct (rtrim_keeps_head c t Hhead) as (t' & Ht). rewrite Ht.
  rewrite (ltrim_fixed (String c t')) by exact Hhead.
  rewrite <- Ht. apply rtrim_idempotent.
Qed.

Lemma ltrim_spaces s : Str.forall_char Str.is_space s = true -> ltrim s = EmptyString.
Proof.
  induction s as [|c s IH]; cbn; [reflexivity|].
  destruct (Str.is_space c); [exact IH|discriminate].
Qed.

Lemma trim_spaces s : Str.forall_char Str.is_space s = true -> trim s = EmptyString.
Proof. intros H. unfold trim. rewrite (ltrim_spaces _ H). reflexivity. Qed.

(** [trim s] is [s] without a run of white space at each end. *)
Lemma trim_split s :
  exists l r,
    s = (l ++ trim s ++ r)%string
    /\ Str.forall_char Str.is_space l = true
    /\ Str.forall_char Str.is_space r = true.
Proof.
  destruct (ltrim_split s) as (l & Hs & Hl).
  destruct (rtrim_split (ltrim s)) as (r & Ht & Hr).
  exists l, r. unfold trim. rewrite <- Ht. auto.
Qed.

End TrimFacts.

Section SearchValidation.

Import ExpressValidator.

Variable E : environment.

Lemma search_validation raw :
  run_chains search_validators (get_request [("name", raw)] [])
  = (get_request [("name", Validator.trim raw)] [],
     if Validator.isLength (Some 1) (Some 50) (Validator.trim raw) then []
     else [VError Params [Key "name"] (Some (JStr (Validator.trim raw)))
             "name must be 1-50 chars"]).
Proof.
  change search_validators
    with [Chain Params [FKey "name"] false
            [Sanitizer Validator.trim;
             Standard (Validator.isLength (Some 1) (Some 50)) "name must be 1-50 chars"]].
  cbn [run_chains].
  rewrite (run_chain_sanitize_validate Params "name" false _ _ _
             (get_request [("name", raw)] []) raw eq_refl).
  rewrite app_nil_r. reflexivity.
Qed.

End SearchValidation.

(** X5. [GET /pokemons/search/:name] validates the name as trimmed. The
    request is accepted exactly when the name without the white space at
    its ends has 1 to 50 characters, and the handler then receives that
    trimmed name; otherwise the answer is 400 without a query, as for a name
    of white space only.  White space around the name changes nothing: the
    name and the trimmed name get the same answer. *)
Theorem search_name_validation :
  forall (E : environment) (db : Store.collection) (raw : string),
    let name := Validator.trim raw in
    (1 <= Str.len name <= 50 ->
     GET_pokemons_search_name E (get_request [("name", raw)] []) db
     = search_handler E (get_request [("name", name)] []) db)
    /\ (Str.len name < 1 \/ 50 < Str.len name ->
        GET_pokemons_search_name E (get_request [("name", raw)] []) db
        = (Response 400
             (ValidationFailed
                [ExpressValidator.VError Params [Key "name"] (Some (JStr name))
                   "name must be 1-50 chars"]),
           db, []))
    /\ GET_pokemons_search_name E (get_request [("name", name)] []) db
       = GET_pokemons_search_name E (get_request [("name", raw)] []) db
    /\ (Str.forall_char Str.is_space raw = true ->
        status (response_of (GET_pokemons_search_name E (get_request [("name", raw)] []) db))
        = 400)
    /\ (exists l r,
          raw = (l ++ name ++ r)%string
          /\ Str.forall_char Str.is_space l = true
          /\ Str.forall_char Str.is_space r = true).
Proof.
  intros E db raw name.
  assert (Hok : 1 <= Str.len name <= 50 ->
                GET_pokemons_search_name E (get_request [("name", raw)] []) db
                = search_handler E (get_request [("name", name)] []) db).
  { intros Hlen. unfold GET_pokemons_search_name, serve. rewrite search_validation.
    apply isLength_spec in Hlen. fold name. rewrite Hlen. reflexivity. }
  assert (Hko : Str.len name < 1 \/ 50 < Str.len name ->
                GET_pokemons_search_name E (get_request [("name", raw)] []) db
                = (Response 400
                     (ValidationFailed
                        [ExpressValidator.VError Params [Key "name"] (Some (JStr name))
                           "name must be 1-50 chars"]),
                   db, [])).
  { intros Hlen. unfold GET_pokemons_search_name, serve. rewrite search_validation.
    fold name. destruct (Validator.isLength (Some 1) (Some 50) name) eqn:Hl.
    - apply isLength_spec in Hl. lia.
    - reflexivity. }
  split; [exact Hok|]. split; [exact Hko|]. split; [|split].
  - clear Hok Hko. subst name. unfold GET_pokemons_search_name, serve.
    rewrite !search_validation, trim_idempotent. reflexivity.
  - intros Hspaces. rewrite Hko; [reflexivity|].
    left. unfold name. rewrite (trim_spaces _ Hspaces). cbn. lia.
  - apply trim_split.
Qed.

(** ** What a request leaves of the collection *)

Section Effects.

Variable E : environment.

Lemma apply_update_idempotent u p :
  Store.apply_update u (Store.apply_update u p) = Store.apply_update u p.
Proof.
  destruct u as [[?|] [?|] [?|] [?|]]; destruct p; reflexivity.
Qed.

Lemma findOneAndUpdate_skip (f : pokemon -> bool) u before l :
  Forall (fun q => f q = false) before ->
  Store.findOneAndUpdate f u (before ++ l)
  = (fst (Store.findOneAndUpdate f u l),
     before ++ snd (Store.findOneAndUpdate f u l)).
Proof.
  induction 1 as [|q before Hq _ IH]; cbn.
  - destruct (Store.findOneAndUpdate f u l); reflexivity.
  - rewrite Hq, IH. reflexivity.
Qed.

Lemma update_handler_again req db :
  update_handler E req (collection_of (update_handler E req db))
  = update_handler E req db.
Proof.
  unfold update_handler, collection_of.
  destruct (cast_number (Json.get [Key "id"] (req_params req))) as [n|];
    [|reflexivity].
  destruct (accepts_update E (update_of (req_body req))); [|reflexivity].
  destruct (Store.findOne (Store.has_id n) db) as [old|] eqn:Hfind.
  - destruct (findOneAndUpdate_found (Store.has_id n) (update_of (req_body req))
                db old Hfind) as (before & after & Hdb & Hbefore & Hupd).
    rewrite Hupd. cbn [fst snd].
    rewrite (findOneAndUpdate_skip _ _ _ _ Hbefore). cbn [Store.findOneAndUpdate].
    assert (Hid : Store.has_id n (Store.apply_update (update_of (req_body req)) old)
                  = true).
    { unfold Store.has_id. rewrite apply_update_id.
      apply (find_some _ _ Hfind). }
    rewrite Hid. cbn [fst snd]. rewrite apply_update_idempotent. reflexivity.
  - rewrite (findOneAndUpdate_none _ _ _ Hfind). cbn [fst snd].
    rewrite (findOneAndUpdate_none _ _ _ Hfind). reflexivity.
Qed.

Lemma create_handler_result req db :
  create_handler E req db
  = let b := req_body req in
    if negb (Json.truthy (Json.get [Key "id"] b))
       || negb (Json.truthy (Json.get [Key "name"] b))
       || negb (Json.truthy (Json.get [Key "type"] b))
       || negb (Json.truthy (Json.get [Key "base"] b))
       || negb (Json.truthy (Json.get [Key "image"] b))
    then (Response 400 (ErrorJson (Literal "Missing required fields")), db, [])
    else
      match new_document b with
      | Some newPokemon =>
          if accepts_document E db newPokemon
          then (Response 201 (Document newPokemon), db ++ [newPokemon], [save_of b])
          else (server_error_json SchemaError, db, [save_of b])
      | None => (server_error_json CastError, db, [save_of b])
      end.
Proof.
  unfold create_handler, new_document, save_of. cbv zeta.
  destruct (negb _ || _ || _ || _ || _); [reflexivity|].
  destruct (cast_number _);
    repeat match goal with
           | |- context [match Json.get ?p ?b with _ => _ end] =>
               destruct (Json.get p b)
           end;
    try reflexivity.
  destruct (accepts_document E db _); reflexivity.
Qed.

End Effects.

(** X6. [PUT /pokemons/:id] is idempotent: sending the same request again,
    on the collection the first one left, gives the same response and leaves
    that collection as it is. *)
Theorem update_idempotent :
  forall (E : environment) (req : request) (db : Store.collection),
    PUT_pokemons_id E req (collection_of (PUT_pokemons_id E req db))
    = PUT_pokemons_id E req db.
Proof.
  intros E req db. unfold PUT_pokemons_id, serve.
  destruct (ExpressValidator.run_chains update_validators req) as [req' errors].
  destruct errors as [|e errors]; [|reflexivity].
  cbn [handleValidation]. apply update_handler_again.
Qed.

(** X7. Only a success changes the collection. The three [GET] routes
    leave it as it is whatever the request; [POST] changes it only when it
    answers 201, and then by one document added after all the others;
    [PUT] and [DELETE] change it only when they answer 200, [PUT] keeping
    the number of documents and [DELETE] removing one. *)
Theorem only_success_changes_the_collection :
  forall (E : environment) (req : request) (db : Store.collection),
    collection_of (GET_pokemons req db) = db
    /\ collection_of (GET_pokemons_id req db) = db
    /\ collection_of (GET_pokemons_search_name E req db) = db
    /\ (status (response_of (POST_pokemons E req db)) <> 201 ->
        collection_of (POST_pokemons E req db) = db)
    /\ (status (response_of (POST_pokemons E req db)) = 201 ->
        exists newPokemon,
          sent (response_of (POST_pokemons E req db)) = Document newPokemon
          /\ collection_of (POST_pokemons E req db) = db ++ [newPokemon])
    /\ (status (response_of (PUT_pokemons_id E req db)) <> 200 ->
        collection_of (PUT_pokemons_id E req db) = db)
    /\ List.length (collection_of (PUT_pokemons_id E req db)) = List.length db
    /\ (status (response_of (DELETE_pokemons_id req db)) <> 200 ->
        collection_of (DELETE_pokemons_id req db) = db)
    /\ (status (response_of (DELETE_pokemons_id req db)) = 200 ->
        S (List.length (collection_of (DELETE_pokemons_id req db))) = List.length db).
Proof.
  intros E req db.
  assert (Hserve : forall validators handler,
            (forall r, collection_of (handler r db) = db) ->
            collection_of (serve validators handler req db) = db).
  { intros validators handler Hh. unfold serve.
    destruct (ExpressValidator.run_chains validators req) as [req' [|e errors]];
      [apply Hh|reflexivity]. }
  assert (Hcases : forall validators handler (P : result -> Prop),
            P (Response 400
                 (ValidationFailed (snd (ExpressValidator.run_chains validators req))),
               db, []) ->
            (forall r, P (handler r db)) ->
            P (serve validators handler req db)).
  { intros validators handler P H400 Hh. unfold serve.
    destruct (ExpressValidator.run_chains validators req) as [req' [|e errors]];
      [apply Hh|exact H400]. }
  split; [apply Hserve; reflexivity|].
  split; [apply Hserve; reflexivity|].
  split.
  { apply Hserve. intros r. unfold search_handler.
    destruct (new_RegExp E _); reflexivity. }
  split.
  { unfold POST_pokemons. apply Hcases; [reflexivity|].
    intros r. rewrite create_handler_result. cbv zeta.
    destruct (negb _ || _ || _ || _ || _); [reflexivity|].
    destruct (new_document (req_body r)) as [p|]; [|reflexivity].
    destruct (accepts_document E db p); [|reflexivity].
    intros H. exfalso. apply H. reflexivity. }
  split.
  { unfold POST_pokemons. apply Hcases; [discriminate|].
    intros r. rewrite create_handler_result. cbv zeta.
    destruct (negb _ || _ || _ || _ || _); [discriminate|].
    destruct (new_document (req_body r)) as [p|]; [|discriminate].
    destruct (accepts_document E db p); [|discriminate].
    intros _. exists p. split; reflexivity. }
  split.
  { unfold PUT_pokemons_id. apply Hcases; [reflexivity|].
    intros r. unfold update_handler.
    destruct (cast_number _) as [n|]; [|reflexivity].
    destruct (accepts_update E _); [|reflexivity].
    destruct (Store.findOneAndUpdate _ _ db) as [[p|] db']; [|reflexivity].
    intros H. exfalso. apply H. reflexivity. }
  split.
  { unfold PUT_pokemons_id. apply Hcases; [reflexivity|].
    intros r. unfold update_handler.
    destruct (cast_number _) as [n|]; [|reflexivity].
    destruct (accepts_update E _); [|reflexivity].
    pose proof (findOneAndUpdate_ids (Store.has_id n) (update_of (req_body r)) db)
      as Hids.
    destruct (Store.findOneAndUpdate _ _ db) as [[p|] db']; [|reflexivity].
    unfold collection_of. cbn [fst snd] in *.
    rewrite <- (length_map pk_id db'), Hids. apply length_map. }
  split.
  { unfold DELETE_pokemons_id. apply Hcases; [reflexivity|].
    intros r. unfold delete_handler.
    destruct (cast_number _) as [n|]; [|reflexivity].
    destruct (Store.findOneAndDelete _ db) as [[p|] db']; [|reflexivity].
    intros H. exfalso. apply H. reflexivity. }
  unfold DELETE_pokemons_id. apply Hcases; [discriminate|].
  intros r. unfold delete_handler.
  destruct (cast_number _) as [n|]; [|discriminate].
  destruct (Store.findOneAndDelete (Store.has_id n) db) as [[p|] db'] eqn:Hdel;
    [|discriminate].
  intros _. unfold collection_of. cbn [fst snd].
  destruct (Store.findOne (Store.has_id n) db) as [q|] eqn:Hfind.
  - destruct (findOneAndDelete_found _ _ _ Hfind)
      as (before & after & Hdb & _ & Hdel').
    rewrite Hdel' in Hdel. injection Hdel as _ <-.
    rewrite Hdb, !length_app. cbn [List.length]. lia.
  - rewrite (findOneAndDelete_none _ _ Hfind) in Hdel. discriminate Hdel.
Qed.

(** ** Creation *)

Section CreateFacts.

Import ExpressValidator.

Variable E : environment.

Lemma create_validators_eq :
  create_validators E
  = [ Chain Body [FKey "id"] false
        [Standard (Validator.isInt (Some 1) None) "id must be a positive integer"];
      Chain Body [FKey "name"; FKey "english"] false
        [Sanitizer Validator.trim;
         Standard (Validator.isLength (Some 1) (Some 50)) "Invalid value"];
      Chain Body [FKey "name"; FKey "french"] true
        [Sanitizer Validator.trim;
         Standard (Validator.isLength None (Some 50)) "Invalid value"];
      Chain Body [FKey "name"; FKey "japanese"] true
        [Sanitizer Validator.trim;
         Standard (Validator.isLength None (Some 50)) "Invalid value"];
      Chain Body [FKey "name"; FKey "chinese"] true
        [Sanitizer Validator.trim;
         Standard (Validator.isLength None (Some 50)) "Invalid value"];
      Chain Body [FKey "type"] false
        [Custom (array_within (Some 1) (Some 2)) "Invalid value"];
      Chain Body [FKey "type"; FWild] false
        [Sanitizer Validator.trim;
         Standard (Validator.isLength (Some 1) (Some 20)) "Invalid value"];
      Chain Body [FKey "base"; FKey "HP"] false
        [Standard (Validator.isInt (Some 1) (Some 255)) "Invalid value"];
      Chain Body [FKey "base"; FKey "Attack"] false
        [Standard (Validator.isInt (Some 1) (Some 255)) "Invalid value"];
      Chain Body [FKey "base"; FKey "Defense"] false
        [Standard (Validator.isInt (Some 1) (Some 255)) "Invalid value"];
      Chain Body [FKey "base"; FKey "SpecialAttack"] false
        [Standard (Validator.isInt (Some 1) (Some 255)) "Invalid value"];
      Chain Body [FKey "base"; FKey "SpecialDefense"] false
        [Standard (Validator.isInt (Some 1) (Some 255)) "Invalid value"];
      Chain Body [FKey "base"; FKey "Speed"] false
        [Standard (Validator.isInt (Some 1) (Some 255)) "Invalid value"];
      Chain Body [FKey "image"] false
        [Standard (validator_isURL E) "image must be a valid URL"] ].
Proof. reflexivity. Qed.

Lemma two_keys_errors a b f msg r :
  snd (run_chain (Chain Body [FKey a; FKey b] false [Standard f msg]) r)
  = flat_map (fun x => if f (to_string x) then []
                       else [VError Body [Key a; Key b] x msg])
             (values_of (Json.get [Key a; Key b] (req_body r))).
Proof.
  unfold run_chain, select. cbn -[Json.get].
  rewrite app_nil_r. reflexivity.
Qed.

Lemma two_keys_sanitized_errors a b g f msg r :
  snd (run_chain (Chain Body [FKey a; FKey b] false [Sanitizer g; Standard f msg]) r)
  = flat_map (fun x => if f (to_string x) then []
                       else [VError Body [Key a; Key b] x msg])
             (values_of (Some (sanitize g (Json.get [Key a; Key b] (req_body r))))).
Proof.
  unfold run_chain, select. cbn -[Json.get Json.set sanitize].
  rewrite app_nil_r. reflexivity.
Qed.

Lemma int_literal_numeral n : Validator.int_literal (Json.string_of_Z n) = Some n.
Proof.
  destruct n as [|p|p]; [reflexivity|apply int_literal_string_of_Z; lia|].
  unfold Json.string_of_Z. cbn [Z.to_int NilZero.string_of_int].
  pose proof (Unsigned.to_uint_nonnil p) as Hnil.
  pose proof (unsigned_literal_uint (Pos.to_uint p) Hnil) as Hlit.
  rewrite Unsigned.of_to in Hlit. cbn [Z.of_N] in Hlit.
  replace (NilZero.string_of_uint (Pos.to_uint p))
    with (NilEmpty.string_of_uint (Pos.to_uint p))
    by (destruct (Pos.to_uint p); try reflexivity; contradiction).
  cbn [Validator.int_literal]. rewrite Hlit. reflexivity.
Qed.

Lemma run_chain_no_sanitizer c r :
  Forall (fun it => is_sanitizer it = false) (chain_stack c) ->
  fst (run_chain c r) = r.
Proof.
  intros H. rewrite run_chain_unfold. cbn [fst].
  rewrite steps_no_sanitizer by exact H. reflexivity.
Qed.

Lemma custom_errors k f msg r :
  snd (run_chain (Chain Body [FKey k] false [Custom f msg]) r)
  = if f (Json.get [Key k] (req_body r)) then []
    else [VError Body [Key k] (Json.get [Key k] (req_body r)) msg].
Proof.
  unfold run_chain, select. cbn -[Json.get].
  rewrite app_nil_r. reflexivity.
Qed.

(** *** Objects stay objects under the sanitizers *)

Lemma set_keeps_object k s p v o :
  holds_object k o -> holds_object k (Json.set (Key k :: s :: p) v o).
Proof.
  unfold holds_object. destruct o as [| | | | |fs]; try discriminate.
  cbn [Json.prop]. intros H. cbn [Json.set Json.prop].
  rewrite lookup_assign_same.
  destruct (Json.lookup k fs) as [[| | | |l|fs']|]; try discriminate;
    cbn [Json.is_object]; destruct s; reflexivity.
Qed.

Lemma write_back_keeps_object loc k i r :
  deep k i -> holds_object k (at_location loc r) ->
  holds_object k (at_location loc (write_back loc i r)).
Proof.
  intros (s & p & Hp) H. unfold write_back.
  destruct (inst_value i); [|exact H].
  rewrite at_with_same, Hp. apply set_keeps_object. exact H.
Qed.

Lemma fold_write_back_keeps_object loc k insts : forall r,
  Forall (deep k) insts -> holds_object k (at_location loc r) ->
  holds_object k
    (at_location loc (fold_left (fun acc i => write_back loc i acc) insts r)).
Proof.
  induction insts as [|i insts IH]; intros r Hall H; cbn [fold_left]; [exact H|].
  inversion Hall as [|? ? Hi Hrest]; subst.
  apply IH; [exact Hrest|]. apply write_back_keeps_object; assumption.
Qed.

Lemma step_deep loc opt it st k :
  Forall (deep k) (st_instances st) ->
  Forall (deep k) (st_instances (step loc opt st it)).
Proof.
  destruct st as [[r insts] errs]. unfold st_instances. simpl.
  intros Hall. rewrite map_map. apply Forall_map.
  eapply Forall_impl; [|exact Hall].
  intros i (s & p & Hp). exists s, p.
  destruct (required opt i); simpl; [now rewrite run_item_path|exact Hp].
Qed.

Lemma step_keeps_object loc opt it st k :
  Forall (deep k) (st_instances st) ->
  holds_object k (at_location loc (st_request st)) ->
  holds_object k (at_location loc (st_request (step loc opt st it))).
Proof.
  intros Hall H. pose proof (step_deep loc opt it st k Hall) as Hall'.
  destruct st as [[r insts] errs].
  unfold st_request, st_instances in *. simpl in *.
  destruct (is_sanitizer it); simpl; [|exact H].
  apply fold_write_back_keeps_object; assumption.
Qed.

Lemma steps_keep_object loc opt stack k : forall st,
  Forall (deep k) (st_instances st) ->
  holds_object k (at_location loc (st_request st)) ->
  holds_object k (at_location loc (st_request (fold_left (step loc opt) stack st))).
Proof.
  induction stack as [|it stack IH]; intros st Hall H; cbn [fold_left]; [exact H|].
  apply IH; [apply step_deep; exact Hall|apply step_keeps_object; assumption].
Qed.

Lemma select_deep root k f rest : Forall (deep k) (select root (FKey k :: f :: rest)).
Proof.
  unfold select. apply Forall_map, Forall_forall. intros p Hin.
  cbn [expand app] in Hin. destruct f as [b|].
  - cbn [expand app] in Hin. apply expand_prefix in Hin as [q ->].
    exists (Key b), q. reflexivity.
  - cbn [expand] in Hin. apply in_flat_map in Hin as (s & _ & Hin).
    apply expand_prefix in Hin as [q ->]. exists s, q. reflexivity.
Qed.

Lemma run_chain_elsewhere c r k :
  elsewhere k c ->
  Json.prop (Key k) (req_body (fst (run_chain c r))) = Json.prop (Key k) (req_body r).
Proof.
  intros (Hloc & k' & rest & Hf & Hne).
  pose proof (run_chain_frame c r k' rest k Hf (not_eq_sym Hne)) as H.
  rewrite Hloc in H. exact H.
Qed.

Lemma run_chain_gentle c r k :
  gentle k c ->
  holds_object k (req_body r) -> holds_object k (req_body (fst (run_chain c r))).
Proof.
  intros (Hloc & k' & rest & Hf & Hcase) H.
  destruct (string_dec k' k) as [->|Hne].
  - destruct Hcase as [Hne|(f & rest' & ->)]; [contradiction|].
    rewrite run_chain_unfold. cbn [fst].
    pose proof (steps_keep_object (chain_location c) (chain_optional c) (chain_stack c) k
                  (r, select (at_location (chain_location c) r) (chain_field c), []))
      as Hsteps.
    rewrite Hloc in Hsteps. cbn [at_location] in Hsteps. rewrite Hloc.
    apply Hsteps; [|exact H].
    unfold st_instances. cbn [fst snd]. rewrite Hf. apply select_deep.
  - unfold holds_object. rewrite run_chain_elsewhere; [exact H|].
    split; [exact Hloc|]. exists k', rest. split; assumption.
Qed.

(** *** From one chain to the chains of a route *)

Lemma run_chains_preserve (P : json -> Prop) cs :
  Forall (fun c => forall r0, P (req_body r0) -> P (req_body (fst (run_chain c r0)))) cs ->
  forall r, P (req_body r) -> P (req_body (fst (run_chains cs r))).
Proof.
  induction 1 as [|c cs Hc _ IH]; intros r Hr; [exact Hr|].
  rewrite run_chains_cons. cbn [fst]. apply IH. apply Hc. exact Hr.
Qed.

(** What the chain at place [k] establishes when it records no error, and
    the chains after it preserve, holds of the body the handler reads. *)
Lemma chains_establish (P : json -> Prop) cs : forall k c r,
  nth_error cs k = Some c ->
  (forall r0, snd (run_chain c r0) = [] -> P (req_body (fst (run_chain c r0)))) ->
  Forall (fun c' => forall r0, P (req_body r0) -> P (req_body (fst (run_chain c' r0))))
         (skipn (S k) cs) ->
  snd (run_chains cs r) = [] ->
  P (req_body (fst (run_chains cs r))).
Proof.
  induction cs as [|c0 cs IH]; intros k c r Hnth Hc Hpost Herr.
  - destruct k; discriminate Hnth.
  - rewrite run_chains_cons in Herr. rewrite run_chains_cons.
    cbn [fst snd] in *. apply app_eq_nil in Herr as [H0 Hrest].
    destruct k as [|k].
    + cbn in Hnth. injection Hnth as ->. cbn [skipn] in Hpost.
      apply run_chains_preserve; [exact Hpost|]. apply Hc. exact H0.
    + cbn [nth_error] in Hnth. apply (IH k c _ Hnth Hc Hpost Hrest).
Qed.

Lemma elsewhere_preserve (Q : option json -> Prop) k cs :
  Forall (elsewhere k) cs ->
  Forall (fun c => forall r0, Q (Json.prop (Key k) (req_body r0)) ->
                   Q (Json.prop (Key k) (req_body (fst (run_chain c r0))))) cs.
Proof.
  apply Forall_impl. intros c Hc r0 H. rewrite run_chain_elsewhere; assumption.
Qed.

Lemma gentle_preserve k cs :
  Forall (gentle k) cs ->
  Forall (fun c => forall r0, holds_object k (req_body r0) ->
                   holds_object k (req_body (fst (run_chain c r0)))) cs.
Proof.
  apply Forall_impl. intros c Hc r0 H. apply run_chain_gentle; assumption.
Qed.

Lemma two_keys_object a b o :
  Json.get [Key a; Key b] o <> None -> holds_object a o.
Proof.
  unfold holds_object. cbn [Json.get].
  destruct (Json.prop (Key a) o) as [[| | | | |fs]|]; cbn [Json.prop];
    try (intros H; exfalso; apply H; reflexivity).
  reflexivity.
Qed.

(** *** What each validator of create lets through *)

Lemma id_value_valid msg v :
  flat_map (fun x => if Validator.isInt (Some 1) None (to_string x) then []
                     else [VError Body [Key "id"] x msg])
           (values_of v) = [] ->
  valid_id v.
Proof.
  destruct v as [[|b|n|s|l|fs]|];
    cbn [values_of flat_map to_string Json.js_string app];
    try (destruct b); try (intros H; discriminate H).
  - destruct (Validator.isInt (Some 1) None (Json.string_of_Z n)) eqn:Hn;
      [|discriminate].
    intros _. destruct (isInt_positive _ Hn) as (m & Hm & H1).
    rewrite int_literal_numeral in Hm. injection Hm as <-.
    split; [destruct n; [lia|reflexivity|reflexivity]|].
    cbn [cast_number]. intros k Hk. injection Hk as <-. exact H1.
  - destruct (Validator.isInt (Some 1) None s) eqn:Hs; [|discriminate].
    intros _. destruct (isInt_positive _ Hs) as (m & Hm & H1).
    split; [destruct s; [discriminate Hm|reflexivity]|].
    cbn [cast_number]. intros k Hk. rewrite Hm in Hk. injection Hk as <-. exact H1.
  - intros _. split; [reflexivity|]. intros k Hk. discriminate Hk.
Qed.

Lemma image_value_valid msg v :
  flat_map (fun x => if validator_isURL E (to_string x) then []
                     else [VError Body [Key "image"] x msg])
           (values_of v) = [] ->
  valid_image E v.
Proof.
  unfold valid_image.
  destruct v as [[|b|n|s|l|fs]|];
    cbn [values_of flat_map to_string Json.js_string app];
    try (intros H; discriminate H).
  - destruct b; [intros _; split; [discriminate|discriminate]|].
    unfold validator_isURL. destruct (url_syntax E "false") eqn:Hurl.
    + intros _. split; [discriminate|]. intros _. left. split; reflexivity.
    + rewrite andb_false_r. discriminate.
  - destruct n as [|p|p]; try (intros _; split; discriminate).
    change (Json.string_of_Z 0) with "0".
    unfold validator_isURL. destruct (url_syntax E "0") eqn:Hurl.
    + intros _. split; [discriminate|]. intros _. right. split; reflexivity.
    + rewrite andb_false_r. discriminate.
  - destruct s as [|c s]; [intros H; discriminate H|].
    intros _. split; discriminate.
  - intros _. split; discriminate.
Qed.

Lemma id_chain_establishes msg r0 :
  let c := Chain Body [FKey "id"] false [Standard (Validator.isInt (Some 1) None) msg] in
  snd (run_chain c r0) = [] ->
  valid_id (Json.prop (Key "id") (req_body (fst (run_chain c r0)))).
Proof.
  intros c. subst c. rewrite run_chain_validator. cbn [fst snd at_location].
  rewrite <- get_key. cbn [required negb orb]. apply id_value_valid.
Qed.

Lemma image_chain_establishes msg r0 :
  let c := Chain Body [FKey "image"] false [Standard (validator_isURL E) msg] in
  snd (run_chain c r0) = [] ->
  valid_image E (Json.prop (Key "image") (req_body (fst (run_chain c r0)))).
Proof.
  intros c. subst c. rewrite run_chain_validator. cbn [fst snd at_location].
  rewrite <- get_key. cbn [required negb orb]. apply image_value_valid.
Qed.

Lemma name_chain_establishes r0 :
  let c := Chain Body [FKey "name"; FKey "english"] false
             [Sanitizer Validator.trim;
              Standard (Validator.isLength (Some 1) (Some 50)) "Invalid value"] in
  snd (run_chain c r0) = [] ->
  holds_object "name" (req_body (fst (run_chain c r0))).
Proof.
  intros c Herr. apply run_chain_gentle.
  - split; [reflexivity|]. exists "name", [FKey "english"].
    split; [reflexivity|]. right. exists (FKey "english"), []. reflexivity.
  - apply two_keys_object with (b := "english"). intros Hnone.
    subst c. rewrite two_keys_sanitized_errors, Hnone in Herr.
    vm_compute in Herr. discriminate Herr.
Qed.

Lemma type_chain_establishes r0 :
  let c := Chain Body [FKey "type"] false
             [Custom (array_within (Some 1) (Some 2)) "Invalid value"] in
  snd (run_chain c r0) = [] ->
  holds_object "type" (req_body (fst (run_chain c r0))).
Proof.
  intros c Herr. subst c. rewrite run_chain_no_sanitizer by (repeat constructor).
  rewrite custom_errors in Herr. rewrite get_key in Herr. unfold holds_object.
  destruct (Json.prop (Key "type") (req_body r0)) as [[| | | |l|fs]|];
    try discriminate Herr; reflexivity.
Qed.

Lemma base_chain_establishes r0 :
  let c := Chain Body [FKey "base"; FKey "HP"] false
             [Standard (Validator.isInt (Some 1) (Some 255)) "Invalid value"] in
  snd (run_chain c r0) = [] ->
  holds_object "base" (req_body (fst (run_chain c r0))).
Proof.
  intros c Herr. subst c. rewrite run_chain_no_sanitizer by (repeat constructor).
  apply two_keys_object with (b := "HP"). intros Hnone.
  rewrite two_keys_errors, Hnone in Herr. vm_compute in Herr. discriminate Herr.
Qed.

Ltac chain_on_field :=
  split; [reflexivity|];
  eexists _, _; split; [reflexivity|];
  first [apply String.eqb_neq; reflexivity
        | left; apply String.eqb_neq; reflexivity
        | right; eexists _, _; reflexivity].

Ltac chains_on_fields :=
  cbn [skipn]; repeat (apply Forall_cons; [chain_on_field|]); apply Forall_nil.

(** A request the validators of create accept has, in the body the handler
    reads, a valid [id], objects under [name], [type] and [base], and a
    valid [image]. *)
Lemma create_validated req :
  snd (run_chains (create_validators E) req) = [] ->
  valid_id (Json.get [Key "id"] (created_body E req))
  /\ holds_object "name" (created_body E req)
  /\ holds_object "type" (created_body E req)
  /\ holds_object "base" (created_body E req)
  /\ valid_image E (Json.get [Key "image"] (created_body E req)).
Proof.
  unfold created_body. rewrite !get_key, create_validators_eq. intros Herr.
  split; [|split; [|split; [|split]]].
  - eapply (chains_establish (fun b => valid_id (Json.prop (Key "id") b)) _ 0%nat);
      [reflexivity|apply id_chain_establishes| |exact Herr].
    apply (elsewhere_preserve valid_id). chains_on_fields.
  - eapply (chains_establish (holds_object "name") _ 1%nat);
      [reflexivity|apply name_chain_establishes| |exact Herr].
    apply gentle_preserve. chains_on_fields.
  - eapply (chains_establish (holds_object "type") _ 5%nat);
      [reflexivity|apply type_chain_establishes| |exact Herr].
    apply gentle_preserve. chains_on_fields.
  - eapply (chains_establish (holds_object "base") _ 7%nat);
      [reflexivity|apply base_chain_establishes| |exact Herr].
    apply gentle_preserve. chains_on_fields.
  - eapply (chains_establish (fun b => valid_image E (Json.prop (Key "image") b)) _
              13%nat);
      [reflexivity|apply image_chain_establishes| |exact Herr].
    chains_on_fields.
Qed.

Lemma create_route_accepted req db :
  snd (run_chains (create_validators E) req) = [] ->
  POST_pokemons E req db
  = let b := created_body E req in
    if negb (Json.truthy (Json.get [Key "id"] b))
       || negb (Json.truthy (Json.get [Key "name"] b))
       || negb (Json.truthy (Json.get [Key "type"] b))
       || negb (Json.truthy (Json.get [Key "base"] b))
       || negb (Json.truthy (Json.get [Key "image"] b))
    then (Response 400 (ErrorJson (Literal "Missing required fields")), db, [])
    else
      match new_document b with
      | Some newPokemon =>
          if accepts_document E db newPokemon
          then (Response 201 (Document newPokemon), db ++ [newPokemon], [save_of b])
          else (server_error_json SchemaError, db, [save_of b])
      | None => (server_error_json CastError, db, [save_of b])
      end.
Proof.
  intros Herr. unfold POST_pokemons. rewrite (serve_accepts _ _ _ _ Herr).
  exact (create_handler_result E _ db).
Qed.

Lemma object_truthy k b :
  holds_object k b -> Json.truthy (Json.get [Key k] b) = true.
Proof.
  unfold holds_object. rewrite get_key.
  destruct (Json.prop (Key k) b) as [[| | | | |]|]; try discriminate; reflexivity.
Qed.

Lemma find_last (f : pokemon -> bool) db p :
  List.find f (db ++ [p])
  = match List.find f db with
    | Some q => Some q
    | None => if f p then Some p else None
    end.
Proof.
  induction db as [|q db IH]; cbn; [reflexivity|].
  destruct (f q); [reflexivity|exact IH].
Qed.

Lemma create_route_created req db newPokemon :
  snd (run_chains (create_validators E) req) = [] ->
  new_document (created_body E req) = Some newPokemon ->
  Json.truthy (Json.get [Key "image"] (created_body E req)) = true ->
  accepts_document E db newPokemon = true ->
  POST_pokemons E req db
  = (Response 201 (Document newPokemon), db ++ [newPokemon],
     [save_of (created_body E req)])
  /\ 1 <= pk_id newPokemon.
Proof.
  intros Herr Hnew Himage Haccepts.
  pose proof (create_validated req Herr) as (Hid & Hname & Htype & Hbase & _).
  pose proof (create_route_accepted req db Herr) as Hpost. cbv zeta in Hpost.
  set (b := created_body E req) in *. clearbody b.
  apply object_truthy in Hname, Htype, Hbase. destruct Hid as [Hid Hcast].
  rewrite Hid, Hname, Htype, Hbase, Himage, Hnew, Haccepts in Hpost.
  cbn [negb orb] in Hpost. split; [exact Hpost|].
  unfold new_document in Hnew.
  destruct (cast_number (Json.get [Key "id"] b)) as [n|]; [|discriminate Hnew].
  specialize (Hcast n eq_refl).
  destruct (Json.get [Key "name"] b); [|discriminate Hnew].
  destruct (Json.get [Key "type"] b); [|discriminate Hnew].
  destruct (Json.get [Key "base"] b); [|discriminate Hnew].
  destruct (Json.get [Key "image"] b); [|discriminate Hnew].
  injection Hnew as <-. exact Hcast.
Qed.

Lemma id_request_param n :
  Json.get [Key "id"] (req_params (id_request n)) = Some (JStr (Json.string_of_Z n)).
Proof. reflexivity. Qed.

End CreateFacts.

(** X8. The presence test of [POST /pokemons] after validation. In a
    request with a [plain_body] that the validators accept, [id], [name], [type] and [base] are
    truthy in the body the handler reads, so that 'Missing required fields'
    is answered exactly when [image] is falsy there; and [image] can only
    be falsy as the boolean [false] or the number [0], and only if [isURL]
    accepts the text of that value.  When [isURL] rejects "false" and "0",
    every accepted request reaches [save]: the answer is 201 or 500. *)
Theorem create_presence_check :
  forall (E : environment) (req : request) (db : Store.collection),
    plain_body req ->
    snd (ExpressValidator.run_chains (create_validators E) req) = [] ->
    let b := created_body E req in
    Json.truthy (Json.get [Key "id"] b) = true
    /\ Json.truthy (Json.get [Key "name"] b) = true
    /\ Json.truthy (Json.get [Key "type"] b) = true
    /\ Json.truthy (Json.get [Key "base"] b) = true
    /\ (response_of (POST_pokemons E req db)
        = Response 400 (ErrorJson (Literal "Missing required fields"))
        <-> Json.truthy (Json.get [Key "image"] b) = false)
    /\ (Json.truthy (Json.get [Key "image"] b) = false ->
        (Json.get [Key "image"] b = Some (JBool false) /\ url_syntax E "false" = true)
        \/ (Json.get [Key "image"] b = Some (JNum 0) /\ url_syntax E "0" = true))
    /\ (url_syntax E "false" = false -> url_syntax E "0" = false ->
        In (status (response_of (POST_pokemons E req db))) [201; 500]
        /\ operations_of (POST_pokemons E req db) = [save_of b]).
Proof.
  intros E req db _ Herr b.
  pose proof (create_validated E req Herr) as (Hid & Hname & Htype & Hbase & Himg).
  pose proof (create_route_accepted E req db Herr) as Hpost. cbv zeta in Hpost.
  fold b in Hid, Hname, Htype, Hbase, Himg, Hpost. clearbody b.
  apply object_truthy in Hname, Htype, Hbase. destruct Hid as [Hid _].
  rewrite Hid, Hname, Htype, Hbase in Hpost. cbn [negb orb] in Hpost.
  split; [exact Hid|]. split; [exact Hname|]. split; [exact Htype|].
  split; [exact Hbase|]. split; [|split].
  - rewrite Hpost. unfold response_of.
    destruct (Json.truthy (Json.get [Key "image"] b)); cbn [negb].
    + split; [|discriminate].
      destruct (new_document b) as [p|]; [|discriminate].
      destruct (accepts_document E db p); discriminate.
    + split; reflexivity.
  - apply Himg.
  - intros Hf H0.
    assert (Himage : Json.truthy (Json.get [Key "image"] b) = true).
    { destruct (Json.truthy (Json.get [Key "image"] b)) eqn:Ht; [reflexivity|].
      destruct (proj2 Himg Ht) as [[_ H]|[_ H]]; congruence. }
    rewrite Hpost, Himage. cbn [negb]. unfold response_of, operations_of.
    destruct (new_document b) as [p|]; [|split; [cbn; auto|reflexivity]].
    destruct (accepts_document E db p); split; cbn; auto.
Qed.

Lemma create_presence_check_witness :
  Json.truthy (Json.get [Key "name"] (created_body lenient (post_request bulbasaur_body)))
  = true
  /\ Json.get [Key "name"] (created_body lenient (post_request bulbasaur_body))
     = Some (JObj [("english", JStr "Bulbasaur")]).
Proof.
  split; [|vm_compute; reflexivity].
  exact (proj1 (proj2 (create_presence_check lenient (post_request bulbasaur_body) []
                         (conj eq_refl eq_refl)
                         ltac:(vm_compute; reflexivity)))).
Defined.

(** X9. Create, then get by id, the store answering. When the validators
    accept a create request with a [plain_body], its [image] is truthy and
    the schema accepts the new document (the [id] cast to a number, here
    one of at most [2^53], with [name], [type], [base] and [image] as the
    validators left them, trimmed), the answer is 201 with that document,
    which is added after all the others.  Its [id] is at least 1, and
    [GET /pokemons/<id>] then answers 200 with the first document of that
    id: the new one when the id was not in use, the older one otherwise. *)
Theorem create_then_get :
  forall (E : environment) (req : request) (db : Store.collection)
         (newPokemon : pokemon),
    plain_body req ->
    pk_id newPokemon <= JS.max_safe ->
    snd (ExpressValidator.run_chains (create_validators E) req) = [] ->
    new_document (created_body E req) = Some newPokemon ->
    Json.truthy (Json.get [Key "image"] (created_body E req)) = true ->
    accepts_document E db newPokemon = true ->
    POST_pokemons E req db
    = (Response 201 (Document newPokemon), db ++ [newPokemon],
       [save_of (created_body E req)])
    /\ 1 <= pk_id newPokemon
    /\ GET_pokemons_id (id_request (pk_id newPokemon)) (db ++ [newPokemon])
       = (Response 200
            (Document (match List.find (Store.has_id (pk_id newPokemon)) db with
                       | Some older => older
                       | None => newPokemon
                       end)),
          db ++ [newPokemon],
          [Store.FindOne
             (Store.ById (Some (JStr (Json.string_of_Z (pk_id newPokemon)))))])
    /\ (Forall (fun q => pk_id q <> pk_id newPokemon) db ->
        response_of (GET_pokemons_id (id_request (pk_id newPokemon)) (db ++ [newPokemon]))
        = Response 200 (Document newPokemon)).
Proof.
  intros E req db newPokemon _ _ Herr Hnew Himage Haccepts.
  destruct (create_route_created E req db newPokemon Herr Hnew Himage Haccepts)
    as [Hpost Hn].
  assert (Hget : GET_pokemons_id (id_request (pk_id newPokemon)) (db ++ [newPokemon])
                 = (Response 200
                      (Document (match List.find (Store.has_id (pk_id newPokemon)) db with
                                 | Some older => older
                                 | None => newPokemon
                                 end)),
                    db ++ [newPokemon],
                    [Store.FindOne
                       (Store.ById (Some (JStr (Json.string_of_Z (pk_id newPokemon)))))])).
  { unfold GET_pokemons_id.
    rewrite (id_route_accepted _ _ _ _ _ (id_request_param _) (int_literal_numeral _) Hn).
    rewrite (get_handler_result _ _ _ _ (id_request_param _) (int_literal_numeral _)).
    rewrite find_last.
    replace (Store.has_id (pk_id newPokemon) newPokemon) with true
      by (symmetry; apply has_id_true; reflexivity).
    destruct (List.find (Store.has_id (pk_id newPokemon)) db); reflexivity. }
  split; [exact Hpost|split; [exact Hn|split; [exact Hget|]]].
  intros Hfresh. rewrite Hget. unfold response_of. cbn [fst].
  rewrite find_none_forall; [reflexivity|].
  eapply Forall_impl; [|exact Hfresh]. intros q. apply has_id_false.
Qed.

Lemma create_then_get_witness :
  POST_pokemons lenient (post_request bulbasaur_body) [charmander]
  = (Response 201 (Document bulbasaur_created), [charmander; bulbasaur_created],
     [save_of (created_body lenient (post_request bulbasaur_body))])
  /\ GET_pokemons_id (id_request 1) [charmander; bulbasaur_created]
     = (Response 200 (Document bulbasaur_created), [charmander; bulbasaur_created],
        [Store.FindOne (Store.ById (Some (JStr "1")))]).
Proof.
  pose proof (create_then_get lenient (post_request bulbasaur_body) [charmander]
                bulbasaur_created
                (conj eq_refl eq_refl) ltac:(vm_compute; discriminate)
                ltac:(vm_compute; reflexivity) ltac:(vm_compute; reflexivity)
                ltac:(vm_compute; reflexivity) eq_refl) as H.
  split; [exact (proj1 H)|exact (proj1 (proj2 (proj2 H)))].
Defined.

(** X15. Create, then delete, the store answering. When a create request
    with a [plain_body] is answered 201, the id of the new document is at
    most [2^53] and was not in use, [DELETE /pokemons/<id>] on the
    collection it left answers 200 with the created document and the
    collection is again what it was before the creation. *)
Theorem create_then_delete :
  forall (E : environment) (req : request) (db : Store.collection)
         (newPokemon : pokemon),
    plain_body req ->
    pk_id newPokemon <= JS.max_safe ->
    snd (ExpressValidator.run_chains (create_validators E) req) = [] ->
    new_document (created_body E req) = Some newPokemon ->
    Json.truthy (Json.get [Key "image"] (created_body E req)) = true ->
    accepts_document E db newPokemon = true ->
    Forall (fun q => pk_id q <> pk_id newPokemon) db ->
    DELETE_pokemons_id (id_request (pk_id newPokemon))
      (collection_of (POST_pokemons E req db))
    = (Response 200 (Deleted newPokemon), db,
       [Store.FindOneAndDelete
          (Store.ById (Some (JStr (Json.string_of_Z (pk_id newPokemon)))))]).
Proof.
  intros E req db newPokemon _ _ Herr Hnew Himage Haccepts Hfresh.
  destruct (create_route_created E req db newPokemon Herr Hnew Himage Haccepts)
    as [Hpost Hn].
  rewrite Hpost. unfold collection_of. cbn [fst snd]. unfold DELETE_pokemons_id.
  rewrite (id_route_accepted _ _ _ _ _ (id_request_param _) (int_literal_numeral _) Hn).
  rewrite (delete_handler_result _ _ _ _ (id_request_param _) (int_literal_numeral _)).
  rewrite findOneAndDelete_skip.
  - cbn [Store.findOneAndDelete].
    replace (Store.has_id (pk_id newPokemon) newPokemon) with true
      by (symmetry; apply has_id_true; reflexivity).
    cbn [fst snd]. rewrite app_nil_r. reflexivity.
  - eapply Forall_impl; [|exact Hfresh]. intros q. apply has_id_false.
Qed.

Lemma create_then_delete_witness :
  DELETE_pokemons_id (id_request 1)
    (collection_of (POST_pokemons lenient (post_request bulbasaur_body) [charmander]))
  = (Response 200 (Deleted bulbasaur_created), [charmander],
     [Store.FindOneAndDelete (Store.ById (Some (JStr "1")))]).
Proof.
  exact (create_then_delete lenient (post_request bulbasaur_body) [charmander]
           bulbasaur_created
           (conj eq_refl eq_refl) ltac:(vm_compute; discriminate)
           ltac:(vm_compute; reflexivity) ltac:(vm_compute; reflexivity)
           ltac:(vm_compute; reflexivity) eq_refl
           ltac:(repeat constructor; discriminate)).
Defined.

(** * The CORS policy *)

Section CorsFacts.

Import Cors.

Lemma exists_char_app f a b :
  Str.exists_char f (a ++ b)%string = Str.exists_char f a || Str.exists_char f b.
Proof.
  induction a as [|c a IH]; cbn; [reflexivity|]. rewrite IH. apply orb_assoc.
Qed.

Lemma split_not_nil sep s : split sep s <> [].
Proof.
  destruct s as [|c s]; cbn; [discriminate|].
  destruct (Ascii.eqb c sep); [discriminate|].
  destruct (split sep s); discriminate.
Qed.

Lemma split_pieces sep s piece :
  In piece (split sep s) -> Str.exists_char (Ascii.eqb sep) piece = false.
Proof.
  revert piece. induction s as [|c s IH]; intros piece; cbn.
  - intros [<-|[]]. reflexivity.
  - destruct (Ascii.eqb c sep) eqn:Hc.
    + intros [<-|Hin]; [reflexivity|apply IH; exact Hin].
    + destruct (split sep s) as [|first pieces] eqn:Hs.
      * intros [<-|[]]. cbn. rewrite Ascii.eqb_sym, Hc. reflexivity.
      * intros [<-|Hin].
        -- cbn. rewrite Ascii.eqb_sym, Hc. apply IH. left. reflexivity.
        -- apply IH. right. exact Hin.
Qed.

Lemma split_piece sep s :
  Str.exists_char (Ascii.eqb sep) s = false -> split sep s = [s].
Proof.
  induction s as [|c s IH]; cbn; [reflexivity|].
  rewrite Ascii.eqb_sym. destruct (Ascii.eqb c sep); [discriminate|].
  cbn [orb]. intros H. rewrite (IH H). reflexivity.
Qed.

Lemma split_first sep a b :
  Str.exists_char (Ascii.eqb sep) a = false ->
  split sep (a ++ String sep b) = a :: split sep b.
Proof.
  induction a as [|c a IH]; cbn.
  - rewrite Ascii.eqb_refl. reflexivity.
  - rewrite Ascii.eqb_sym. destruct (Ascii.eqb c sep); [discriminate|].
    cbn [orb]. intros H. rewrite (IH H). reflexivity.
Qed.

Lemma split_join sep pieces :
  pieces <> [] ->
  Forall (fun piece => Str.exists_char (Ascii.eqb sep) piece = false) pieces ->
  split sep (join sep pieces) = pieces.
Proof.
  induction pieces as [|piece pieces IH]; intros Hne Hall; [contradiction|].
  inversion Hall as [|? ? Hpiece Hrest]; subst.
  destruct pieces as [|next pieces].
  - cbn. apply split_piece. exact Hpiece.
  - change (join sep (piece :: next :: pieces))
      with (piece ++ String sep (join sep (next :: pieces)))%string.
    rewrite (split_first _ _ _ Hpiece), IH; [reflexivity|discriminate|exact Hrest].
Qed.

Lemma trim_keeps_absent f s :
  Str.exists_char f s = false -> Str.exists_char f (Validator.trim s) = false.
Proof.
  destruct (trim_split s) as (l & r & Hs & _ & _). intros H.
  rewrite Hs, !exists_char_app in H.
  destruct (Str.exists_char f (Validator.trim s)); [|reflexivity].
  rewrite orb_true_r in H. discriminate H.
Qed.

Lemma allowedOrigins_clean env entry :
  In entry (allowedOrigins env) -> clean entry.
Proof.
  unfold allowedOrigins. intros Hin. apply filter_In in Hin as [Hin Hfull].
  apply in_map_iff in Hin as (piece & <- & Hpiece). unfold clean, trim in *.
  split; [|split].
  - intros Hempty. rewrite Hempty in Hfull. discriminate Hfull.
  - apply trim_idempotent.
  - apply trim_keeps_absent. apply (split_pieces _ _ _ Hpiece).
Qed.

Lemma allowedOrigins_join entries :
  Forall clean entries -> allowedOrigins (Some (join "," entries)) = entries.
Proof.
  intros Hall. unfold allowedOrigins. destruct entries as [|entry entries].
  - reflexivity.
  - rewrite split_join; [|discriminate|].
    + induction Hall as [|e es (Hfull & Htrim & _) _ IH]; [reflexivity|].
      cbn [map filter]. rewrite Htrim.
      destruct e as [|c e]; [contradiction|]. cbn [Str.is_empty negb].
      f_equal. exact IH.
    + eapply Forall_impl; [|exact Hall]. intros e (_ & _ & He). exact He.
Qed.

Lemma origin_allowed_iff allowed o :
  origin allowed o = Allowed <->
  o = None \/ o = Some EmptyString
  \/ exists s, o = Some s
               /\ (Str.starts_with "http://localhost:" s = true \/ In s allowed).
Proof.
  destruct o as [s|]; cbn [origin]; [|split; auto].
  destruct s as [|c s]; cbn [Str.is_empty]; [split; auto|].
  set (o := String c s).
  assert (Hlocal : String.eqb o "http://localhost:3000" = true ->
                   Str.starts_with "http://localhost:" o = true).
  { intros H. apply String.eqb_eq in H. rewrite H. reflexivity. }
  assert (Hin : existsb (String.eqb o) allowed = true <-> In o allowed).
  { rewrite existsb_exists. split.
    - intros (x & Hx & Heq). apply String.eqb_eq in Heq. subst x. exact Hx.
    - intros H. exists o. split; [exact H|apply String.eqb_refl]. }
  destruct (Str.starts_with "http://localhost:" o) eqn:Hstarts.
  - cbn [orb]. split; [|reflexivity]. intros _. right. right. exists o. auto.
  - destruct (String.eqb o "http://localhost:3000") eqn:Heq;
      [specialize (Hlocal eq_refl); discriminate Hlocal|].
    cbn [orb]. destruct (existsb (String.eqb o) allowed) eqn:Hex.
    + split; [|reflexivity]. intros _. right. right. exists o.
      split; [reflexivity|]. right. apply Hin. reflexivity.
    + split; [discriminate|].
      intros [H|[H|(x & Hx & [H|H])]]; try discriminate H.
      * injection Hx as Hx. rewrite <- Hx, Hstarts in H. discriminate H.
      * injection Hx as Hx. rewrite <- Hx in H. apply Hin in H. discriminate H.
Qed.

End CorsFacts.

(** X10. The [origin] callback of the CORS options. A request is let
    through exactly when it has no [Origin] header (or an empty one), when
    its origin starts with [http://localhost:], whatever follows, or when
    its origin is one of the allowed origins, compared as a whole string;
    every other origin gets the error 'Not allowed by CORS'.  The test on
    [http://localhost:3000] adds nothing to the test on the prefix. *)
Theorem cors_origin_decision :
  forall (allowed : list string) (o : option string),
    (Cors.origin allowed o = Cors.Allowed <->
     o = None \/ o = Some EmptyString
     \/ exists s, o = Some s
                  /\ (Str.starts_with "http://localhost:" s = true \/ In s allowed))
    /\ (Cors.origin allowed o = Cors.NotAllowedByCORS <->
        exists s, o = Some s /\ s <> EmptyString
                  /\ Str.starts_with "http://localhost:" s = false
                  /\ ~ In s allowed)
    /\ (forall rest,
          Cors.origin allowed (Some ("http://localhost:" ++ rest)%string) = Cors.Allowed)
    /\ (forall s, Cors.origin [] (Some s) = Cors.Allowed <->
                  s = EmptyString \/ Str.starts_with "http://localhost:" s = true).
Proof.
  intros allowed o. split; [apply origin_allowed_iff|]. split; [|split].
  - pose proof (origin_allowed_iff allowed o) as Hiff.
    destruct (Cors.origin allowed o) eqn:Hv.
    + split; [discriminate|]. intros (s & -> & Hfull & Hstarts & Hnot).
      destruct (proj1 Hiff eq_refl) as [H|[H|(x & Hx & [H|H])]];
        try discriminate H.
      * injection H as H. contradiction.
      * injection Hx as Hx. subst x. rewrite H in Hstarts. discriminate Hstarts.
      * injection Hx as Hx. subst x. contradiction.
    + split; [|reflexivity]. intros _. destruct o as [s|].
      * exists s. split; [reflexivity|]. split; [|split].
        -- intros ->. discriminate Hv.
        -- destruct (Str.starts_with "http://localhost:" s) eqn:Hs; [|reflexivity].
           assert (H : Cors.NotAllowedByCORS = Cors.Allowed); [|discriminate H].
           apply Hiff. right. right. exists s. auto.
        -- intros Hin.
           assert (H : Cors.NotAllowedByCORS = Cors.Allowed); [|discriminate H].
           apply Hiff. right. right. exists s. auto.
      * discriminate Hv.
  - intros rest. apply origin_allowed_iff. right. right.
    exists ("http://localhost:" ++ rest)%string. split; [reflexivity|]. left.
    reflexivity.
  - intros s. rewrite origin_allowed_iff. split.
    + intros [H|[H|(x & Hx & [H|[]])]]; try discriminate H.
      * injection H as H. left. exact H.
      * injection Hx as Hx. subst x. right. exact H.
    + intros [->|H]; [right; left; reflexivity|].
      right. right. exists s. auto.
Qed.

(** X11. The allowed origins read from [CORS_ORIGINS]. Every entry is
    non-empty, has no white space at its ends and holds no comma; a variable
    that is not set, or empty, allows no origin.  Joining with commas a list
    of such entries and reading it gives the list back, so that with the
    variable set to that text an origin is let through exactly when it is
    empty, starts with [http://localhost:] or is one of the entries. *)
Theorem cors_allowed_origins :
  (forall env entry, In entry (Cors.allowedOrigins env) -> Cors.clean entry)
  /\ Cors.allowedOrigins None = []
  /\ Cors.allowedOrigins (Some EmptyString) = []
  /\ (forall entries,
        Forall Cors.clean entries ->
        Cors.allowedOrigins (Some (Cors.join "," entries)) = entries)
  /\ (forall entries s,
        Forall Cors.clean entries ->
        (Cors.origin (Cors.allowedOrigins (Some (Cors.join "," entries))) (Some s)
         = Cors.Allowed
         <-> s = EmptyString \/ Str.starts_with "http://localhost:" s = true
             \/ In s entries))
  /\ Cors.allowedOrigins (Some " https://a.example , ,https://b.example,")
     = ["https://a.example"; "https://b.example"].
Proof.
  split; [apply allowedOrigins_clean|]. split; [reflexivity|].
  split; [reflexivity|]. split; [apply allowedOrigins_join|].
  split; [|reflexivity].
  intros entries s Hall. rewrite (allowedOrigins_join _ Hall), origin_allowed_iff.
  split.
  - intros [H|[H|(x & Hx & [H|H])]]; try discriminate H.
    + injection H as H. auto.
    + injection Hx as Hx. subst x. auto.
    + injection Hx as Hx. subst x. auto.
  - intros [->|[H|H]]; [right; left; reflexivity| |];
      right; right; exists s; auto.
Qed.

(** * The import script *)

Section ImportFacts.

Import ImportScript.

Lemma starts_with_prefix p : forall s,
  Str.starts_with p s = true <-> exists rest, s = (p ++ rest)%string.
Proof.
  induction p as [|a p IH]; intros s; cbn.
  - split; [intros _; exists s; reflexivity|reflexivity].
  - destruct s as [|b s].
    + split; [discriminate|]. intros (rest & H). discriminate H.
    + rewrite andb_true_iff, Ascii.eqb_eq, IH. split.
      * intros (-> & rest & ->). exists rest. reflexivity.
      * intros (rest & H). injection H as -> ->. split; [reflexivity|].
        exists rest. reflexivity.
Qed.

Lemma drop_prefix p rest : Str.drop (String.length p) (p ++ rest) = rest.
Proof. induction p as [|a p IH]; cbn; [destruct rest; reflexivity|exact IH]. Qed.

Lemma replace_unfold pattern replacement s :
  replace pattern replacement s
  = if Str.starts_with pattern s
    then (replacement ++ Str.drop (String.length pattern) s)%string
    else match s with
         | EmptyString => EmptyString
         | String c s' => String c (replace pattern replacement s')
         end.
Proof. destruct s; reflexivity. Qed.

Lemma replace_prefix pattern replacement rest :
  replace pattern replacement (pattern ++ rest) = (replacement ++ rest)%string.
Proof.
  rewrite replace_unfold.
  replace (Str.starts_with pattern (pattern ++ rest)) with true
    by (symmetry; apply starts_with_prefix; exists rest; reflexivity).
  rewrite drop_prefix. reflexivity.
Qed.

(** [replace] acts on the first occurrence of the pattern, and on nothing
    when there is none. *)
Lemma replace_first pattern replacement : forall s,
  (exists u v,
     s = (u ++ pattern ++ v)%string
     /\ replace pattern replacement s = (u ++ replacement ++ v)%string
     /\ forall u' v', s = (u' ++ pattern ++ v')%string ->
                      (String.length u <= String.length u')%nat)
  \/ ((forall u v, s <> (u ++ pattern ++ v)%string)
      /\ replace pattern replacement s = s).
Proof.
  induction s as [|c s IH]; rewrite replace_unfold.
  - destruct (Str.starts_with pattern EmptyString) eqn:Hs.
    + left. apply starts_with_prefix in Hs as (rest & Hrest).
      exists EmptyString, rest. cbn [append]. rewrite Hrest at 2.
      rewrite drop_prefix. split; [exact Hrest|]. split; [reflexivity|].
      intros u' v' _. cbn. lia.
    + right. split; [|reflexivity]. intros u v H.
      destruct u; [|discriminate H]. cbn [append] in H.
      assert (Ht : Str.starts_with pattern EmptyString = true)
        by (apply starts_with_prefix; exists v; exact H).
      rewrite Ht in Hs. discriminate Hs.
  - destruct (Str.starts_with pattern (String c s)) eqn:Hs.
    + left. apply starts_with_prefix in Hs as (rest & Hrest).
      exists EmptyString, rest. cbn [append]. rewrite Hrest at 2.
      rewrite drop_prefix. split; [exact Hrest|]. split; [reflexivity|].
      intros u' v' _. cbn. lia.
    + assert (Hhead : forall u v, String c s = (u ++ pattern ++ v)%string ->
                exists u', u = String c u' /\ s = (u' ++ pattern ++ v)%string).
      { intros u v H. destruct u as [|d u].
        - cbn [append] in H.
          assert (Ht : Str.starts_with pattern (String c s) = true)
            by (apply starts_with_prefix; exists v; exact H).
          rewrite Ht in Hs. discriminate Hs.
        - cbn [append] in H. injection H as -> ->. exists u. split; reflexivity. }
      destruct IH as [(u & v & Hsplit & Hrep & Hmin)|[Hnone Hrep]].
      * left. exists (String c u), v. cbn [append]. rewrite Hrep.
        split; [f_equal; exact Hsplit|]. split; [reflexivity|].
        intros u' v' H. destruct (Hhead u' v' H) as (u'' & -> & H').
        cbn [String.length]. specialize (Hmin u'' v' H'). lia.
      * right. rewrite Hrep. split; [|reflexivity].
        intros u v H. destruct (Hhead u v H) as (u' & _ & H').
        apply (Hnone u' v H').
Qed.

Lemma lookup_assign_keys k f fs :
  Json.lookup k fs <> None ->
  map fst (Json.assign k f fs) = map fst fs.
Proof.
  induction fs as [|[k' v] fs IH]; cbn; [intros H; contradiction|].
  destruct (String.eqb k k'); [reflexivity|].
  intros H. cbn. rewrite (IH H). reflexivity.
Qed.

Lemma with_railway_image_some poke doc :
  with_railway_image poke = Some doc <->
  exists fields image,
    poke = JObj fields
    /\ Json.lookup "image" fields = Some (JStr image)
    /\ doc = JObj (Json.assign "image"
                     (fun _ => JStr (replace localUrl railwayUrl image)) fields).
Proof.
  unfold with_railway_image. split.
  - destruct poke as [| | | | |fields]; try discriminate.
    destruct (Json.lookup "image" fields) as [[| | |image| |]|] eqn:Himage;
      try discriminate.
    intros H. injection H as <-. exists fields, image. auto.
  - intros (fields & image & -> & Himage & ->). rewrite Himage. reflexivity.
Qed.

Lemma map_or_throw_some f : forall l docs,
  map_or_throw f l = Some docs <-> Forall2 (fun x y => f x = Some y) l docs.
Proof.
  induction l as [|x l IH]; intros docs; cbn.
  - split.
    + intros H. injection H as <-. constructor.
    + intros H. inversion H. reflexivity.
  - destruct (f x) as [y|] eqn:Hx.
    + destruct (map_or_throw f l) as [ys|] eqn:Hl; cbn.
      * split.
        -- intros H. injection H as <-. constructor; [exact Hx|].
           apply IH. reflexivity.
        -- intros H. inversion H as [|? y' ? ys' Hy Hys]; subst.
           rewrite Hx in Hy. injection Hy as <-.
           apply IH in Hys. injection Hys as <-. reflexivity.
      * split; [discriminate|].
        intros H. inversion H as [|? y' ? ys' Hy Hys]; subst.
        apply IH in Hys. discriminate Hys.
    + split; [discriminate|].
      intros H. inversion H as [|? y' ? ys' Hy Hys]; subst.
      rewrite Hx in Hy. discriminate Hy.
Qed.

Lemma map_or_throw_none f : forall l,
  map_or_throw f l = None <-> exists x, In x l /\ f x = None.
Proof.
  induction l as [|x l IH]; cbn.
  - split; [discriminate|]. intros (x & [] & _).
  - destruct (f x) as [y|] eqn:Hx.
    + destruct (map_or_throw f l) as [ys|]; cbn.
      * split; [discriminate|]. intros (z & [<-|Hz] & Hnone).
        -- rewrite Hx in Hnone. discriminate Hnone.
        -- assert (H : Some ys = None) by (apply IH; exists z; auto).
           discriminate H.
      * split; [|reflexivity]. intros _.
        destruct (proj1 IH eq_refl) as (z & Hz & Hnone). exists z. auto.
    + split; [|reflexivity]. intros _. exists x. auto.
Qed.

End ImportFacts.

(** X12. The records the import script inserts. When [updatedData] is
    computed, the file held an array whose records are all objects with a
    string under [image]; there are as many documents as records, in the
    same order, and each document is its record with the same keys in the
    same order and the same values, but for [image], which is the image of
    the record with its first occurrence of [http://localhost:3000]
    replaced by the URL of the deployed API. *)
Theorem import_rewrites_images :
  forall (data : json) (docs : list json),
    ImportScript.updatedData data = Some docs ->
    exists records,
      data = JArr records
      /\ Forall2
           (fun poke doc =>
              exists fields fields' image,
                poke = JObj fields /\ doc = JObj fields'
                /\ map fst fields' = map fst fields
                /\ Json.lookup "image" fields = Some (JStr image)
                /\ Json.lookup "image" fields'
                   = Some (JStr (ImportScript.replace ImportScript.localUrl
                                   ImportScript.railwayUrl image))
                /\ forall k, k <> "image" ->
                             Json.lookup k fields' = Json.lookup k fields)
           records docs.
Proof.
  intros data docs H. destruct data as [| | | |records|]; try discriminate H.
  exists records. split; [reflexivity|]. cbn [ImportScript.updatedData] in H.
  apply map_or_throw_some in H. eapply Forall2_impl; [|exact H].
  intros poke doc Hdoc. cbv beta in Hdoc.
  apply with_railway_image_some in Hdoc as (fields & image & -> & Himage & ->).
  exists fields, (Json.assign "image"
                    (fun _ => JStr (ImportScript.replace ImportScript.localUrl
                                      ImportScript.railwayUrl image)) fields), image.
  split; [reflexivity|]. split; [reflexivity|].
  split; [apply lookup_assign_keys; rewrite Himage; discriminate|].
  split; [exact Himage|]. split.
  - rewrite lookup_assign_same. reflexivity.
  - intros k Hk. apply lookup_assign_other. apply not_eq_sym. exact Hk.
Qed.

Lemma import_rewrites_images_witness :
  exists records,
    JArr [JObj [("id", JNum 25);
                ("image", JStr "http://localhost:3000/assets/pokemons/25.png")]]
    = JArr records
    /\ Forall2
         (fun poke doc =>
            exists fields fields' image,
              poke = JObj fields /\ doc = JObj fields'
              /\ map fst fields' = map fst fields
              /\ Json.lookup "image" fields = Some (JStr image)
              /\ Json.lookup "image" fields'
                 = Some (JStr (ImportScript.replace ImportScript.localUrl
                                 ImportScript.railwayUrl image))
              /\ forall k, k <> "image" ->
                           Json.lookup k fields' = Json.lookup k fields)
         records
         [JObj [("id", JNum 25);
                ("image",
                 JStr "https://pokemon-pokedex-production-b5c1.up.railway.app/assets/pokemons/25.png")]].
Proof.
  exact (import_rewrites_images
           (JArr [JObj [("id", JNum 25);
                        ("image", JStr "http://localhost:3000/assets/pokemons/25.png")]])
           _ eq_refl).
Defined.

(** X13. The image URL of an imported record. An image that starts with
    [http://localhost:3000] gets the URL of the deployed API in its place,
    the rest of the image being kept; only the first occurrence of
    [http://localhost:3000] in an image is replaced; an image in which it
    does not occur is left as it is. *)
Theorem import_image_url :
  forall (image : string),
    let image' :=
      ImportScript.replace ImportScript.localUrl ImportScript.railwayUrl image in
    (forall rest,
       image = ("http://localhost:3000" ++ rest)%string ->
       image' = ("https://pokemon-pokedex-production-b5c1.up.railway.app" ++ rest)%string)
    /\ ((forall u v, image <> (u ++ "http://localhost:3000" ++ v)%string) ->
        image' = image)
    /\ (forall u v,
          image = (u ++ "http://localhost:3000" ++ v)%string ->
          exists u0 v0,
            image = (u0 ++ "http://localhost:3000" ++ v0)%string
            /\ (String.length u0 <= String.length u)%nat
            /\ image'
               = (u0 ++ "https://pokemon-pokedex-production-b5c1.up.railway.app" ++ v0)%string).
Proof.
  intros image image'. subst image'. split; [|split].
  - intros rest ->. apply (replace_prefix ImportScript.localUrl).
  - intros Hnone.
    destruct (replace_first ImportScript.localUrl ImportScript.railwayUrl image)
      as [(u & v & Hsplit & _)|[_ Hrep]]; [|exact Hrep].
    exfalso. apply (Hnone u v). exact Hsplit.
  - intros u v Hsplit.
    destruct (replace_first ImportScript.localUrl ImportScript.railwayUrl image)
      as [(u0 & v0 & Hsplit0 & Hrep & Hmin)|[Hnone _]].
    + exists u0, v0. split; [exact Hsplit0|]. split; [|exact Hrep].
      apply (Hmin u v). exact Hsplit.
    + exfalso. apply (Hnone u v). exact Hsplit.
Qed.

(** X14. The import script clears the collection only after the records
    are rewritten. When the content of the file is not an array, or one of
    its records is not an object with a string under [image], the script
    exits with code 1 and the collection is as it was; and only then is
    [updatedData] not computed.  Otherwise what the collection held before
    plays no part: the collection afterwards is what [insertMany] stored,
    and the exit code is 0 when [insertMany] returned and 1 when it threw. *)
Theorem import_outcome :
  forall (insertMany : list json -> Store.collection * bool)
         (data : json) (db : Store.collection),
    (ImportScript.updatedData data = None <->
     (forall records, data <> JArr records)
     \/ exists records poke,
          data = JArr records /\ In poke records
          /\ forall fields image,
               poke = JObj fields -> Json.lookup "image" fields <> Some (JStr image))
    /\ (ImportScript.updatedData data = None ->
        ImportScript.importData insertMany data db = (1, db))
    /\ (forall docs,
          ImportScript.updatedData data = Some docs ->
          ImportScript.importData insertMany data db
          = (if snd (insertMany docs) then 0 else 1, fst (insertMany docs))).
Proof.
  intros insertMany data db. split; [|split].
  - destruct data as [| | | |records|];
      try (split; [intros _; left; intros records; discriminate|reflexivity]).
    cbn [ImportScript.updatedData]. rewrite map_or_throw_none. split.
    + intros (poke & Hin & Hnone). right. exists records, poke.
      split; [reflexivity|]. split; [exact Hin|].
      intros fields image -> Himage.
      assert (H : ImportScript.with_railway_image (JObj fields) <> None).
      { unfold ImportScript.with_railway_image. rewrite Himage. discriminate. }
      contradiction.
    + intros [H|(records' & poke & Hdata & Hin & Hnot)].
      * exfalso. apply (H records). reflexivity.
      * injection Hdata as <-. exists poke. split; [exact Hin|].
        destruct (ImportScript.with_railway_image poke) as [doc|] eqn:Hdoc;
          [|reflexivity].
        apply with_railway_image_some in Hdoc as (fields & image & Hp & Himage & _).
        exfalso. apply (Hnot fields image Hp Himage).
  - intros H. unfold ImportScript.importData. rewrite H. reflexivity.
  - intros docs H. unfold ImportScript.importData. rewrite H.
    destruct (insertMany docs) as [stored returned]. reflexivity.
Qed.

(** * What the sanitizers of create change *)

Section SanitizedBody.

Import ExpressValidator.

Variable E : environment.

Lemma get_two_keys a b o :
  Json.get [Key a; Key b] o
  = match Json.prop (Key a) o with
    | Some w => Json.prop (Key b) w
    | None => None
    end.
Proof.
  cbn [Json.get]. destruct (Json.prop (Key a) o) as [w|]; [|reflexivity].
  destruct (Json.prop (Key b) w); reflexivity.
Qed.

Lemma set_key_object k p v fs :
  Json.set (Key k :: p) v (JObj fs)
  = JObj (Json.assign k
            (fun old => Json.set p v
                          (match old with
                           | Some w => if Json.is_object old then w else Json.fresh p
                           | None => Json.fresh p
                           end)) fs).
Proof. reflexivity. Qed.

Lemma get_set_sibling a b b' p v o :
  b' <> b ->
  Json.get [Key a; Key b] (Json.set (Key a :: Key b' :: p) v o)
  = Json.get [Key a; Key b] o.
Proof.
  intros Hne. destruct o as [| | | | |fs]; try reflexivity.
  rewrite set_key_object, !get_two_keys.
  change (Json.prop (Key a) (JObj fs)) with (Json.lookup a fs).
  match goal with
  | |- context [Json.prop (Key a) (JObj (Json.assign a ?f fs))] =>
      change (Json.prop (Key a) (JObj (Json.assign a f fs)))
        with (Json.lookup a (Json.assign a f fs))
  end.
  rewrite lookup_assign_same.
  destruct (Json.lookup a fs) as [w|].
  - rewrite prop_set_other by (apply not_eq_sym; exact Hne).
    destruct w; reflexivity.
  - rewrite prop_set_other by (apply not_eq_sym; exact Hne). reflexivity.
Qed.

(** *** Invariants of a chain *)

Lemma write_back_invariant (P : json -> Prop) (Q : path -> Prop) loc i r :
  (forall p v o, Q p -> P o -> P (Json.set p v o)) ->
  Q (inst_path i) -> P (at_location loc r) ->
  P (at_location loc (write_back loc i r)).
Proof.
  intros Hset Hi H. unfold write_back. destruct (inst_value i); [|exact H].
  rewrite at_with_same. apply Hset; assumption.
Qed.

Lemma fold_write_back_invariant (P : json -> Prop) (Q : path -> Prop) loc insts :
  (forall p v o, Q p -> P o -> P (Json.set p v o)) ->
  forall r,
    Forall Q (map inst_path insts) -> P (at_location loc r) ->
    P (at_location loc (fold_left (fun acc i => write_back loc i acc) insts r)).
Proof.
  intros Hset. induction insts as [|i insts IH]; intros r Hall H;
    cbn [fold_left]; [exact H|].
  cbn [map] in Hall. inversion Hall as [|? ? Hi Hrest]; subst.
  apply IH; [exact Hrest|]. apply (write_back_invariant P Q); assumption.
Qed.

Lemma step_paths loc opt it st :
  map inst_path (st_instances (step loc opt st it))
  = map inst_path (st_instances st).
Proof.
  destruct st as [[r insts] errs]. unfold st_instances. simpl.
  rewrite !map_map. apply map_ext. intros i.
  destruct (required opt i); [apply run_item_path|reflexivity].
Qed.

Lemma step_invariant (P : json -> Prop) (Q : path -> Prop) loc opt it st :
  (forall p v o, Q p -> P o -> P (Json.set p v o)) ->
  Forall Q (map inst_path (st_instances st)) ->
  P (at_location loc (st_request st)) ->
  P (at_location loc (st_request (step loc opt st it))).
Proof.
  intros Hset Hall H. rewrite <- (step_paths loc opt it st) in Hall.
  destruct st as [[r insts] errs].
  unfold st_request, st_instances in *. simpl in *.
  destruct (is_sanitizer it); simpl; [|exact H].
  apply (fold_write_back_invariant P Q); assumption.
Qed.

Lemma steps_invariant (P : json -> Prop) (Q : path -> Prop) loc opt stack :
  (forall p v o, Q p -> P o -> P (Json.set p v o)) ->
  forall st,
    Forall Q (map inst_path (st_instances st)) ->
    P (at_location loc (st_request st)) ->
    P (at_location loc (st_request (fold_left (step loc opt) stack st))).
Proof.
  intros Hset. induction stack as [|it stack IH]; intros st Hall H;
    cbn [fold_left]; [exact H|].
  apply IH; [rewrite step_paths; exact Hall|].
  apply (step_invariant P Q); assumption.
Qed.

Lemma run_chain_invariant (P : json -> Prop) (Q : path -> Prop) c r :
  (forall p v o, Q p -> P o -> P (Json.set p v o)) ->
  Forall Q (expand (at_location (chain_location c) r) [] (chain_field c)) ->
  P (at_location (chain_location c) r) ->
  P (at_location (chain_location c) (fst (run_chain c r))).
Proof.
  intros Hset Hall H. rewrite run_chain_unfold. cbn [fst].
  apply (steps_invariant P Q); [exact Hset| |exact H].
  unfold st_instances, select. cbn [fst snd]. rewrite map_map. cbn [inst_path].
  rewrite map_id. exact Hall.
Qed.

Lemma run_chain_sibling a b c r :
  sibling a b c ->
  Json.get [Key a; Key b] (req_body (fst (run_chain c r)))
  = Json.get [Key a; Key b] (req_body r).
Proof.
  intros (Hloc & b' & rest & Hf & Hne).
  pose proof (run_chain_invariant
                (fun o => Json.get [Key a; Key b] o = Json.get [Key a; Key b] (req_body r))
                (fun p => exists q, p = Key a :: Key b' :: q) c r) as H.
  rewrite Hloc in H. cbn [at_location] in H. apply H; [| |reflexivity].
  - intros p v o (q & ->) Ho. rewrite get_set_sibling by exact Hne. exact Ho.
  - rewrite Hf. cbn [expand app]. apply Forall_forall. intros p Hin.
    apply expand_prefix in Hin as [q ->]. exists q. reflexivity.
Qed.

Lemma run_chain_elsewhere_two a b c r :
  elsewhere a c ->
  Json.get [Key a; Key b] (req_body (fst (run_chain c r)))
  = Json.get [Key a; Key b] (req_body r).
Proof.
  intros Hc. rewrite !get_two_keys, (run_chain_elsewhere _ _ _ Hc). reflexivity.
Qed.

Lemma run_chain_validating c r : validating c -> fst (run_chain c r) = r.
Proof. apply run_chain_no_sanitizer. Qed.

Lemma two_keys_sanitized_request a b g f msg r :
  fst (run_chain (Chain Body [FKey a; FKey b] false [Sanitizer g; Standard f msg]) r)
  = with_location Body
      (Json.set [Key a; Key b]
         (sanitize g (Json.get [Key a; Key b] (req_body r))) (req_body r)) r.
Proof.
  unfold run_chain, select. cbn -[Json.get Json.set sanitize]. reflexivity.
Qed.

Lemma top_level_kept k cs :
  Forall (fun c => elsewhere k c \/ validating c) cs ->
  forall r,
    Json.get [Key k] (req_body (fst (run_chains cs r))) = Json.get [Key k] (req_body r).
Proof.
  induction 1 as [|c cs Hc _ IH]; intros r; [reflexivity|].
  rewrite run_chains_cons. cbn [fst]. rewrite IH. destruct Hc as [Hc|Hc].
  - rewrite !get_key. apply run_chain_elsewhere. exact Hc.
  - rewrite (run_chain_validating _ _ Hc). reflexivity.
Qed.

Lemma second_level_kept a b cs :
  Forall (fun c => sibling a b c \/ elsewhere a c \/ validating c) cs ->
  forall r,
    Json.get [Key a; Key b] (req_body (fst (run_chains cs r)))
    = Json.get [Key a; Key b] (req_body r).
Proof.
  induction 1 as [|c cs Hc _ IH]; intros r; [reflexivity|].
  rewrite run_chains_cons. cbn [fst]. rewrite IH. destruct Hc as [Hc|[Hc|Hc]].
  - apply run_chain_sibling. exact Hc.
  - apply run_chain_elsewhere_two. exact Hc.
  - rewrite (run_chain_validating _ _ Hc). reflexivity.
Qed.

Ltac chain_elsewhere :=
  split; [reflexivity|];
  eexists _, _; split; [reflexivity|apply String.eqb_neq; reflexivity].

Ltac chain_kept :=
  first [left; split; [reflexivity|];
         eexists _, _; split; [reflexivity|apply String.eqb_neq; reflexivity]
        | right; left; chain_elsewhere
        | right; right; repeat constructor
        | left; chain_elsewhere
        | right; repeat constructor].

Ltac chains_kept :=
  repeat (apply Forall_cons; [chain_kept|]); apply Forall_nil.

Lemma create_keeps_top_level req k :
  In k ["id"; "base"; "image"] ->
  Json.get [Key k] (created_body E req) = Json.get [Key k] (req_body req).
Proof.
  unfold created_body. rewrite create_validators_eq.
  intros [<-|[<-|[<-|[]]]]; apply top_level_kept; chains_kept.
Qed.

Lemma run_chains_two c1 c2 rest r :
  fst (run_chains (c1 :: c2 :: rest) r)
  = fst (run_chains rest (fst (run_chain c2 (fst (run_chain c1 r))))).
Proof. rewrite !run_chains_cons. reflexivity. Qed.

Lemma run_chains_split cs1 : forall cs2 r,
  fst (run_chains (cs1 ++ cs2) r) = fst (run_chains cs2 (fst (run_chains cs1 r))).
Proof.
  induction cs1 as [|c cs1 IH]; intros cs2 r; [reflexivity|].
  cbn [app]. rewrite !run_chains_cons. cbn [fst]. apply IH.
Qed.

Lemma english_kept :
  let cs := skipn 2 (create_validators E) in
  forall r,
    Json.get [Key "name"; Key "english"] (req_body (fst (run_chains cs r)))
    = Json.get [Key "name"; Key "english"] (req_body r).
Proof.
  intros cs. subst cs. rewrite create_validators_eq. cbn [skipn].
  apply second_level_kept. chains_kept.
Qed.

Lemma english_trimmed r raw :
  Json.get [Key "name"; Key "english"] (req_body r) = Some (JStr raw) ->
  Json.get [Key "name"; Key "english"]
    (req_body (fst (run_chain
       (Chain Body [FKey "name"; FKey "english"] false
          [Sanitizer Validator.trim;
           Standard (Validator.isLength (Some 1) (Some 50)) "Invalid value"]) r)))
  = Some (JStr (Validator.trim raw)).
Proof.
  intros Hraw.
  rewrite two_keys_sanitized_request. cbn [with_location req_body].
  rewrite Hraw. cbn [sanitize to_string Json.js_string].
  apply get_set_same. rewrite Hraw. discriminate.
Qed.

Lemma create_trims_english req raw :
  Json.get [Key "name"; Key "english"] (req_body req) = Some (JStr raw) ->
  Json.get [Key "name"; Key "english"] (created_body E req)
  = Some (JStr (Validator.trim raw)).
Proof.
  intros Hraw. unfold created_body.
  pose proof english_kept as Hkept. cbv zeta in Hkept.
  rewrite create_validators_eq in *. cbn [skipn] in Hkept.
  rewrite run_chains_two, Hkept.
  rewrite (run_chain_validating
             (Chain Body [FKey "id"] false
                [Standard (Validator.isInt (Some 1) None) "id must be a positive integer"])
             req) by (repeat constructor).
  apply english_trimmed. exact Hraw.
Qed.

(** *** The entries of an array under a wildcard *)

Lemma set_index_in_array a k v o l :
  Json.prop (Key a) o = Some (JArr l) ->
  Json.prop (Key a) (Json.set [Key a; Idx k] v o)
  = Some (JArr (Json.assign_index k (fun _ => v) l)).
Proof.
  destruct o as [| | | | |fs]; try discriminate.
  rewrite set_key_object. cbn [Json.prop]. rewrite lookup_assign_same.
  intros ->. reflexivity.
Qed.

Lemma assign_index_length k f l :
  (k < List.length l)%nat -> List.length (Json.assign_index k f l) = List.length l.
Proof.
  revert l. induction k as [|k IH]; intros [|x l]; cbn; try lia.
  intros H. rewrite IH by lia. reflexivity.
Qed.

Lemma nth_assign_index_other k j f l :
  (k < List.length l)%nat -> j <> k ->
  nth_error (Json.assign_index k f l) j = nth_error l j.
Proof.
  revert j l. induction k as [|k IH]; intros j [|x l]; cbn; try lia.
  - intros _ Hj. destruct j; [contradiction|reflexivity].
  - intros H Hj. destruct j; [reflexivity|]. cbn. apply IH; lia.
Qed.

Lemma fold_write_back_indices a (vs : nat -> json) ks : forall r l,
  Json.prop (Key a) (req_body r) = Some (JArr l) ->
  Forall (fun k => (k < List.length l)%nat) ks ->
  exists l',
    Json.prop (Key a)
      (req_body (fold_left (fun acc i => write_back Body i acc)
                   (map (fun k => Instance [Key a; Idx k] (Some (vs k))) ks) r))
    = Some (JArr l')
    /\ List.length l' = List.length l
    /\ forall j, (In j ks -> nth_error l' j = Some (vs j))
                 /\ (~ In j ks -> nth_error l' j = nth_error l j).
Proof.
  induction ks as [|k ks IH]; intros r l Hl Hks; cbn [map fold_left].
  - exists l. split; [exact Hl|]. split; [reflexivity|].
    intros j. split; [intros []|reflexivity].
  - inversion Hks as [|? ? Hk Hrest]; subst.
    set (r1 := write_back Body (Instance [Key a; Idx k] (Some (vs k))) r).
    assert (Hl1 : Json.prop (Key a) (req_body r1)
                  = Some (JArr (Json.assign_index k (fun _ => vs k) l))).
    { subst r1. unfold write_back. cbn [inst_value inst_path with_location
                                         at_location req_body].
      apply set_index_in_array. exact Hl. }
    destruct (IH r1 _ Hl1) as (l' & Hl' & Hlen & Hnth).
    { rewrite assign_index_length by exact Hk. exact Hrest. }
    exists l'. split; [exact Hl'|].
    split; [rewrite Hlen; apply assign_index_length; exact Hk|].
    intros j. destruct (Hnth j) as [Hin Hout]. split.
    + intros [<-|Hj]; [|apply Hin; exact Hj].
      destruct (in_dec Nat.eq_dec k ks) as [Hk'|Hk']; [apply Hin; exact Hk'|].
      rewrite (Hout Hk'). apply nth_assign_index_same.
    + intros Hj. rewrite Hout by (intros H; apply Hj; right; exact H).
      apply nth_assign_index_other; [exact Hk|].
      intros ->. apply Hj. left. reflexivity.
Qed.

Lemma step_validator_request loc opt st f msg :
  st_request (step loc opt st (Standard f msg)) = st_request st.
Proof. destruct st as [[r insts] errs]. reflexivity. Qed.

Lemma step_sanitizer_request loc opt r insts errs g :
  st_request (step loc opt (r, insts, errs) (Sanitizer g))
  = fold_left (fun acc i => write_back loc i acc)
      (map fst (map (fun i => if required opt i then run_item loc (Sanitizer g) i
                              else (i, [])) insts)) r.
Proof. reflexivity. Qed.

Lemma select_wildcard a root l :
  Json.get [Key a] root = Some (JArr l) ->
  select root [FKey a; FWild]
  = map (fun k => Instance [Key a; Idx k] (Json.get [Key a; Idx k] root))
        (seq 0 (List.length l)).
Proof.
  intros Hl. unfold select. cbn [expand app]. rewrite Hl. cbn [keys_of].
  generalize (seq 0 (List.length l)). intros ks.
  induction ks as [|k ks IH]; [reflexivity|].
  cbn [map flat_map app] in *. rewrite IH. reflexivity.
Qed.

Lemma type_entries_trimmed r ss :
  Json.get [Key "type"] (req_body r) = Some (JArr (map JStr ss)) ->
  Json.get [Key "type"]
    (req_body (fst (run_chain
       (Chain Body [FKey "type"; FWild] false
          [Sanitizer Validator.trim;
           Standard (Validator.isLength (Some 1) (Some 20)) "Invalid value"]) r)))
  = Some (JArr (map JStr (map Validator.trim ss))).
Proof.
  intros Htype. rewrite run_chain_unfold.
  cbn [chain_location chain_optional chain_stack chain_field fold_left at_location fst].
  rewrite (select_wildcard _ _ _ Htype). rewrite length_map.
  set (vs := fun k => JStr (Validator.trim (nth k ss EmptyString))).
  assert (Hinsts : map (fun i => fst (if required false i
                                      then run_item Body (Sanitizer Validator.trim) i
                                      else (i, [])))
                     (map (fun k => Instance [Key "type"; Idx k]
                                      (Json.get [Key "type"; Idx k] (req_body r)))
                          (seq 0 (List.length ss)))
                   = map (fun k => Instance [Key "type"; Idx k] (Some (vs k)))
                         (seq 0 (List.length ss))).
  { rewrite map_map. apply map_ext_in. intros k Hk. apply in_seq in Hk.
    cbn [required negb orb run_item fst inst_path inst_value]. f_equal. f_equal.
    assert (Hget : Json.get [Key "type"; Idx k] (req_body r)
                   = Some (JStr (nth k ss EmptyString))).
    { rewrite get_key in Htype. cbn [Json.get]. rewrite Htype. cbn [Json.prop].
      rewrite nth_error_map, (nth_error_nth' ss EmptyString) by lia. reflexivity. }
    rewrite Hget. reflexivity. }
  rewrite step_validator_request, step_sanitizer_request, map_map, Hinsts.
  rewrite get_key in Htype.
  destruct (fold_write_back_indices "type" vs (seq 0 (List.length ss)) r (map JStr ss)
              Htype) as (l' & Hl' & Hlen & Hnth).
  { apply Forall_forall. intros k Hk. apply in_seq in Hk. rewrite length_map. lia. }
  rewrite get_key, Hl'. do 2 f_equal. apply nth_error_ext. intros j.
  rewrite length_map in Hlen.
  destruct (Nat.lt_ge_cases j (List.length ss)) as [Hj|Hj].
  - rewrite (proj1 (Hnth j)) by (apply in_seq; lia).
    rewrite !nth_error_map, (nth_error_nth' ss EmptyString) by lia. reflexivity.
  - rewrite (proj2 (nth_error_None l' j)) by lia.
    symmetry. apply nth_error_None. rewrite !length_map. exact Hj.
Qed.

Lemma type_kept_before :
  let cs := firstn 6 (create_validators E) in
  forall r,
    Json.get [Key "type"] (req_body (fst (run_chains cs r)))
    = Json.get [Key "type"] (req_body r).
Proof.
  intros cs. subst cs. rewrite create_validators_eq. cbn [firstn].
  apply top_level_kept. chains_kept.
Qed.

Lemma type_kept_after :
  let cs := skipn 7 (create_validators E) in
  forall r,
    Json.get [Key "type"] (req_body (fst (run_chains cs r)))
    = Json.get [Key "type"] (req_body r).
Proof.
  intros cs. subst cs. rewrite create_validators_eq. cbn [skipn].
  apply top_level_kept. chains_kept.
Qed.

Lemma create_validators_split :
  create_validators E
  = firstn 6 (create_validators E)
    ++ Chain Body [FKey "type"; FWild] false
         [Sanitizer Validator.trim;
          Standard (Validator.isLength (Some 1) (Some 20)) "Invalid value"]
       :: skipn 7 (create_validators E).
Proof. reflexivity. Qed.

Lemma trims_type_between before after req ss :
  (forall r, Json.get [Key "type"] (req_body (fst (run_chains before r)))
             = Json.get [Key "type"] (req_body r)) ->
  (forall r, Json.get [Key "type"] (req_body (fst (run_chains after r)))
             = Json.get [Key "type"] (req_body r)) ->
  Json.get [Key "type"] (req_body req) = Some (JArr (map JStr ss)) ->
  Json.get [Key "type"]
    (req_body (fst (run_chains
       (before ++ Chain Body [FKey "type"; FWild] false
         [Sanitizer Validator.trim;
          Standard (Validator.isLength (Some 1) (Some 20)) "Invalid value"]
       :: after) req)))
  = Some (JArr (map JStr (map Validator.trim ss))).
Proof.
  intros Hbefore Hafter Htype.
  rewrite run_chains_split, run_chains_cons. cbn [fst].
  rewrite Hafter. apply type_entries_trimmed. rewrite Hbefore. exact Htype.
Qed.

Lemma create_trims_type req ss :
  Json.get [Key "type"] (req_body req) = Some (JArr (map JStr ss)) ->
  Json.get [Key "type"] (created_body E req)
  = Some (JArr (map JStr (map Validator.trim ss))).
Proof.
  intros Htype. unfold created_body. rewrite create_validators_split.
  apply (trims_type_between _ _ req ss type_kept_before type_kept_after Htype).
Qed.

End SanitizedBody.

(** X16. What [POST /pokemons] stores is the body as its sanitizers leave
    it.  For a body none of whose keys is itself a path
    ([Json.no_path_key]): [id], [base] and [image] are the values of the
    request, the English name is the name of the request without the white
    space at its ends, and every entry of a [type] made of strings is
    trimmed likewise. *)
Theorem create_stores_sanitized :
  forall (E : environment) (req : request),
    Json.no_path_key (req_body req) = true ->
    let b := req_body req in
    let b' := created_body E req in
    Json.get [Key "id"] b' = Json.get [Key "id"] b
    /\ Json.get [Key "base"] b' = Json.get [Key "base"] b
    /\ Json.get [Key "image"] b' = Json.get [Key "image"] b
    /\ (forall raw,
          Json.get [Key "name"; Key "english"] b = Some (JStr raw) ->
          Json.get [Key "name"; Key "english"] b' = Some (JStr (Validator.trim raw)))
    /\ (forall entries,
          Json.get [Key "type"] b = Some (JArr (map JStr entries)) ->
          Json.get [Key "type"] b'
          = Some (JArr (map JStr (map Validator.trim entries)))).
Proof.
  intros E req _ b b'. subst b b'.
  split; [apply create_keeps_top_level; cbn; auto|].
  split; [apply create_keeps_top_level; cbn; auto|].
  split; [apply create_keeps_top_level; cbn; auto|].
  split; [apply create_trims_english|apply create_trims_type].
Qed.

Lemma create_stores_sanitized_witness :
  Json.get [Key "name"; Key "english"] (created_body lenient (post_request bulbasaur_body))
  = Some (JStr "Bulbasaur").
Proof.
  exact (proj1 (proj2 (proj2 (proj2
           (create_stores_sanitized lenient (post_request bulbasaur_body) eq_refl))))
           " Bulbasaur " eq_refl).
Defined.

(** * Alternatives in a searched name *)

Section AlternativeFacts.

Import RegExp.












End AlternativeFacts.



(** * An update, seen from the other routes *)

Section UpdateRoute.

Import ExpressValidator.

Variable E : environment.

Lemma run_chains_split_errors cs1 : forall cs2 r,
  snd (run_chains (cs1 ++ cs2) r)
  = snd (run_chains cs1 r) ++ snd (run_chains cs2 (fst (run_chains cs1 r))).
Proof.
  induction cs1 as [|c cs1 IH]; intros cs2 r; [reflexivity|].
  cbn [app]. rewrite !run_chains_cons. cbn [fst snd]. rewrite IH.
  apply app_assoc.
Qed.

Ltac chain_spares :=
  first [left; split; [reflexivity|];
         eexists _, _; split; [reflexivity|apply String.eqb_neq; reflexivity]
        | right; repeat constructor].

Lemma update_validators_split :
  update_validators
  = firstn 13 update_validators
    ++ [Chain Body [FKey "image"] true
          [Sanitizer Validator.trim;
           Standard (Validator.isLength (Some 1) None) "Invalid value"]].
Proof. reflexivity. Qed.

Lemma image_kept_before :
  let cs := firstn 13 update_validators in
  forall r,
    Json.get [Key "image"] (req_body (fst (run_chains cs r)))
    = Json.get [Key "image"] (req_body r).
Proof.
  intros cs. subst cs. apply top_level_kept. cbn [firstn update_validators].
  repeat (apply Forall_cons; [chain_spares|]). apply Forall_nil.
Qed.

Lemma image_chain_between before r raw :
  (forall r0, Json.get [Key "image"] (req_body (fst (run_chains before r0)))
              = Json.get [Key "image"] (req_body r0)) ->
  Json.get [Key "image"] (req_body r) = Some (JStr raw) ->
  let c := Chain Body [FKey "image"] true
             [Sanitizer Validator.trim;
              Standard (Validator.isLength (Some 1) None) "Invalid value"] in
  snd (run_chains (before ++ [c]) r) = [] ->
  Json.get [Key "image"] (req_body (fst (run_chains (before ++ [c]) r)))
  = Some (JStr (Validator.trim raw))
  /\ Validator.trim raw <> EmptyString.
Proof.
  intros Hbefore Hraw c Herr.
  rewrite run_chains_split_errors in Herr. apply app_eq_nil in Herr as [_ Herr].
  rewrite run_chains_split. cbn [run_chains] in *.
  assert (Himage : Json.get [Key "image"]
                     (at_location Body (fst (run_chains before r)))
                   = Some (JStr raw))
    by (cbn [at_location]; rewrite Hbefore; exact Hraw).
  subst c. rewrite (run_chain_sanitize_validate Body "image" true _ _ _ _ raw Himage)
    in *.
  cbn [fst snd with_location req_body at_location] in *. split.
  - apply get_set_same. cbn [at_location] in Himage. rewrite Himage. discriminate.
  - intros Hempty. rewrite Hempty in Herr. cbn in Herr. discriminate Herr.
Qed.

Lemma update_sanitized_image req raw :
  snd (run_chains update_validators req) = [] ->
  Json.get [Key "image"] (req_body req) = Some (JStr raw) ->
  Json.get [Key "image"] (req_body (fst (run_chains update_validators req)))
  = Some (JStr (Validator.trim raw))
  /\ Validator.trim raw <> EmptyString.
Proof.
  rewrite update_validators_split. intros Herr Hraw.
  exact (image_chain_between _ req raw image_kept_before Hraw Herr).
Qed.

Lemma update_route_found req db s new :
  Json.get [Key "id"] (req_params req) = Some (JStr s) ->
  sent (response_of (PUT_pokemons_id E req db)) = Document new ->
  exists n before old after,
    Validator.int_literal s = Some n /\ 1 <= n
    /\ pk_id new = n
    /\ db = before ++ old :: after
    /\ Forall (fun q => Store.has_id n q = false) before
    /\ collection_of (PUT_pokemons_id E req db) = before ++ new :: after.
Proof.
  intros Hid. pose proof (update_chains_params req) as Hparams.
  pose proof (update_validation req s Hid) as Hval.
  unfold PUT_pokemons_id, serve. rewrite Hval in Hparams |- *.
  set (req' := fst (run_chains update_body_chains req)) in *.
  set (errs := snd (run_chains update_body_chains req)) in *.
  clearbody req' errs. clear Hval. cbn [fst] in Hparams. cbv beta iota.
  unfold id_error.
  destruct (Validator.isInt (Some 1) None s) eqn:Hs;
    [|intros H; discriminate H].
  cbn [app]. destruct errs as [|e errs]; cbn [handleValidation];
    [|intros H; discriminate H].
  destruct (isInt_positive _ Hs) as (n & Hn & H1).
  unfold update_handler. rewrite Hparams, Hid. cbn [cast_number]. rewrite Hn.
  destruct (accepts_update E (update_of (req_body req'))); [|intros H; discriminate H].
  destruct (Store.findOne (Store.has_id n) db) as [old|] eqn:Hfind.
  - destruct (findOneAndUpdate_found (Store.has_id n) (update_of (req_body req')) db
                old Hfind) as (before & after & Hdb & Hbefore & Hupd).
    rewrite Hupd. unfold response_of, collection_of. cbn [fst snd sent].
    intros H. injection H as <-. exists n, before, old, after.
    split; [reflexivity|]. split; [exact H1|]. split.
    { rewrite apply_update_id. apply has_id_true. apply (find_some _ _ Hfind). }
    split; [exact Hdb|]. split; [exact Hbefore|reflexivity].
  - rewrite (findOneAndUpdate_none _ _ _ Hfind). intros H. discriminate H.
Qed.

End UpdateRoute.

(** X18. [PUT /pokemons/:id] stores the image trimmed. When an update
    that supplies a string as [image] is accepted and finds its document,
    the document returned, which is in the collection afterwards, has for
    [image] the string without the white space at its ends, and that string
    is not empty. *)
Theorem update_trims_image :
  forall (E : environment) (req : request) (db : Store.collection)
         (n : Z) (old : pokemon) (raw : string),
    snd (ExpressValidator.run_chains update_validators req) = [] ->
    cast_number (Json.get [Key "id"] (req_params req)) = Some n ->
    Store.findOne (Store.has_id n) db = Some old ->
    accepts_update E
      (update_of (req_body (fst (ExpressValidator.run_chains update_validators req))))
    = true ->
    Json.get [Key "image"] (req_body req) = Some (JStr raw) ->
    exists new,
      response_of (PUT_pokemons_id E req db) = Response 200 (Document new)
      /\ pk_image new = JStr (Validator.trim raw)
      /\ Validator.trim raw <> EmptyString
      /\ pk_id new = pk_id old
      /\ In new (collection_of (PUT_pokemons_id E req db)).
Proof.
  intros E req db n old raw Herr Hcast Hfind Haccepts Hraw.
  destruct (update_sanitized_image req raw Herr Hraw) as [Himage Hfull].
  pose proof (update_chains_params req) as Hparams.
  unfold PUT_pokemons_id. rewrite (serve_accepts _ _ _ _ Herr).
  set (req' := fst (ExpressValidator.run_chains update_validators req)) in *.
  clearbody req'. rewrite <- Hparams in Hcast.
  destruct (update_handler_found E req' db n old Hcast Haccepts Hfind)
    as (before & after & Hdb & _ & Hput).
  rewrite Hput. unfold response_of, collection_of. cbn [fst snd].
  exists (Store.apply_update (update_of (req_body req')) old).
  split; [reflexivity|]. split; [|split; [exact Hfull|split]].
  - unfold update_of, Store.apply_update. cbn [up_image pk_image].
    rewrite Himage. unfold when_truthy.
    destruct (Validator.trim raw) as [|c t]; [contradiction|reflexivity].
  - apply apply_update_id.
  - apply in_or_app. right. left. reflexivity.
Qed.

Lemma update_trims_image_witness :
  exists new,
    response_of (PUT_pokemons_id lenient
                   (put_request "4" (JObj [("image", JStr " http://x/y.png ")])) pokedex)
    = Response 200 (Document new)
    /\ pk_image new = JStr "http://x/y.png"
    /\ "http://x/y.png" <> EmptyString
    /\ pk_id new = 4
    /\ In new (collection_of
                 (PUT_pokemons_id lenient
                    (put_request "4" (JObj [("image", JStr " http://x/y.png ")]))
                    pokedex)).
Proof.
  exact (update_trims_image lenient
           (put_request "4" (JObj [("image", JStr " http://x/y.png ")])) pokedex
           4 charmander " http://x/y.png "
           ltac:(vm_compute; reflexivity) eq_refl eq_refl eq_refl eq_refl).
Defined.

(** X19. Update, then get by id, the store answering. When the id of the
    path denotes a number of at most [2^53] and [PUT /pokemons/:id] answers
    with a document, that document has the id of the path, it stands in
    the collection where the first document of that id stood, and
    [GET /pokemons/:id] with the same path then answers 200 with it. *)
Theorem update_then_get :
  forall (E : environment) (req : request) (db : Store.collection)
         (s : string) (n : Z) (new : pokemon),
    Json.get [Key "id"] (req_params req) = Some (JStr s) ->
    Validator.int_literal s = Some n -> n <= JS.max_safe ->
    sent (response_of (PUT_pokemons_id E req db)) = Document new ->
    pk_id new = n
    /\ (exists before old after,
          db = before ++ old :: after
          /\ Forall (fun q => pk_id q <> n) before
          /\ collection_of (PUT_pokemons_id E req db) = before ++ new :: after)
    /\ GET_pokemons_id req (collection_of (PUT_pokemons_id E req db))
       = (Response 200 (Document new), collection_of (PUT_pokemons_id E req db),
          [Store.FindOne (Store.ById (Some (JStr s)))]).
Proof.
  intros E req db s m new Hid Hm _ Hsent.
  destruct (update_route_found E req db s new Hid Hsent)
    as (n & before & old & after & Hn & H1 & Hnew & Hdb & Hbefore & Hdb').
  rewrite Hdb'. rewrite Hm in Hn. injection Hn as ->.
  split; [exact Hnew|]. split.
  - exists before, old, after. split; [exact Hdb|]. split; [|reflexivity].
    apply other_ids. exact Hbefore.
  - unfold GET_pokemons_id. rewrite (id_route_accepted _ _ _ _ _ Hid Hm H1).
    rewrite (get_handler_result _ _ _ _ Hid Hm), (find_skip _ _ _ Hbefore).
    cbn [List.find].
    replace (Store.has_id n new) with true
      by (symmetry; apply has_id_true; exact Hnew).
    reflexivity.
Qed.

Lemma update_then_get_witness :
  GET_pokemons_id (put_request "4" (JObj [("image", JStr "http://x/y.png")]))
    (collection_of
       (PUT_pokemons_id lenient
          (put_request "4" (JObj [("image", JStr "http://x/y.png")])) pokedex))
  = (Response 200
       (Document (Pokemon 4 (pk_name charmander) (pk_type charmander)
                          (pk_base charmander) (JStr "http://x/y.png"))),
     collection_of
       (PUT_pokemons_id lenient
          (put_request "4" (JObj [("image", JStr "http://x/y.png")])) pokedex),
     [Store.FindOne (Store.ById (Some (JStr "4")))]).
Proof.
  exact (proj2 (proj2 (update_then_get lenient
                         (put_request "4" (JObj [("image", JStr "http://x/y.png")]))
                         pokedex "4" 4
                         (Pokemon 4 (pk_name charmander) (pk_type charmander)
                                  (pk_base charmander) (JStr "http://x/y.png"))
                         eq_refl eq_refl ltac:(vm_compute; discriminate)
                         ltac:(vm_compute; reflexivity)))).
Defined.

(** * The rules and what the chains record *)

Section RuleFacts.

Import ExpressValidator.

Variable E : environment.




(** *** What a chain selects, after the chains before it *)









Ltac chain_kept :=
  first [left; split; [reflexivity|];
         eexists _, _; split; [reflexivity|apply String.eqb_neq; reflexivity]
        | right; left; split; [reflexivity|];
          eexists _, _; split; [reflexivity|apply String.eqb_neq; reflexivity]
        | right; right; repeat constructor
        | right; repeat constructor].

Ltac chains_kept :=
  repeat (apply Forall_cons; [chain_kept|]); apply Forall_nil.






(** *** What one chain records, instance by instance *)




(** *** A rule and the chain that checks it, on one field *)







(** *** A rule and the chain that checks it, on the request *)












End RuleFacts.






